(** * Page-to-Markdown extension: the content-to-artifact pipeline

    A shallow embedding of [popup.js] and [src/background.js]: the
    extraction history ([addExtractedUrl]), the category classifier
    ([detectCategory]), the file name ([generateFilename]), the
    front-matter renderer ([createMetadata] with its [escapeYaml]), the
    remote call with backoff ([generateContentWithBackoff]), the parser of
    the model's answer ([improveMarkdownWithGemini]) and the background
    pipeline ([processAndDownloadWithGemini]) behind its message
    listener; of the popup also the click on the extract button with
    [validateTab], the sampling of the images in [getPageContent], the
    code-block rule of the converter, [keepLastNUrls] and
    [improveWithGeminiIfEnabled]; and of the options page the custom
    models and [keepLast100].

    JavaScript strings are sequences of UTF-16 code units and are modelled
    as such.  Effects (network, timers, downloads, storage, notifications,
    messages) are threaded through a small state-and-exception monad whose
    state records the observable events in order. *)

From Stdlib Require Import String Ascii ZArith NArith QArith.
From stdpp Require Import base list sorting.

Local Open Scope Z_scope.
Local Open Scope list_scope.

(** ** JavaScript strings *)

Definition codeunit := N.
Definition jsstring := list codeunit.

(** An ASCII literal of the source, one code unit per character. *)
Definition lit (s : string) : jsstring :=
  map N_of_ascii (list_ascii_of_string s).

Definition cu_eqb (a b : codeunit) : bool := N.eqb a b.

Fixpoint str_eqb (a b : jsstring) : bool :=
  match a, b with
  | [], [] => true
  | x :: a', y :: b' => cu_eqb x y && str_eqb a' b'
  | _, _ => false
  end.

Definition LF : codeunit := 10%N.
Definition DQUOTE : codeunit := 34%N.
Definition BACKSLASH : codeunit := 92%N.

(** [WhiteSpace] and [LineTerminator] of ECMAScript: what [trim] strips and
    what [\s] matches. *)
Definition is_space (c : codeunit) : bool :=
  ((9 <=? c) && (c <=? 13) || (c =? 32) || (c =? 160) || (c =? 5760)
   || (8192 <=? c) && (c <=? 8202) || (c =? 8232) || (c =? 8233)
   || (c =? 8239) || (c =? 8287) || (c =? 12288) || (c =? 65279))%N.

Fixpoint trimStart (s : jsstring) : jsstring :=
  match s with
  | c :: s' => if is_space c then trimStart s' else s
  | [] => []
  end.

Definition trimEnd (s : jsstring) : jsstring := rev (trimStart (rev s)).

(** [String.prototype.trim] *)
Definition trim (s : jsstring) : jsstring := trimEnd (trimStart s).

Fixpoint startsWith (p s : jsstring) : bool :=
  match p, s with
  | [], _ => true
  | x :: p', y :: s' => cu_eqb x y && startsWith p' s'
  | _ :: _, [] => false
  end.

(** [String.prototype.includes] *)
Fixpoint includes (s sub : jsstring) : bool :=
  startsWith sub s ||
  match s with
  | [] => false
  | _ :: s' => includes s' sub
  end.

(** [s.split(sep)] for a separator of one code unit: the pieces between
    the separators, one empty piece for the empty string. *)
Fixpoint split_on (sep : codeunit) (s : jsstring) : list jsstring :=
  match s with
  | [] => [[]]
  | c :: s' =>
      if cu_eqb c sep then [] :: split_on sep s'
      else match split_on sep s' with
           | piece :: rest => (c :: piece) :: rest
           | [] => [[c]]
           end
  end.

(** [arr.join(sep)] *)
Fixpoint join (sep : jsstring) (l : list jsstring) : jsstring :=
  match l with
  | [] => []
  | [x] => x
  | x :: l' => x ++ sep ++ join sep l'
  end.

(** [s.replace(/[class]/g, by)] for a class of single code units: every
    code unit of the class is replaced, the others are kept. *)
Definition replace_all (cls : codeunit -> bool) (by_ : jsstring)
    (s : jsstring) : jsstring :=
  flat_map (fun c => if cls c then by_ else [c]) s.

(** Upper- and lower-casing of the ASCII letters. *)
Definition ascii_lower (c : codeunit) : codeunit :=
  if ((65 <=? c) && (c <=? 90))%N then (c + 32)%N else c.
Definition ascii_upper (c : codeunit) : codeunit :=
  if ((97 <=? c) && (c <=? 122))%N then (c - 32)%N else c.
Definition is_ascii (c : codeunit) : bool := (c <? 128)%N.

(** [String(n)] for an integer. *)
Definition digit (d : Z) : codeunit := Z.to_N (48 + d).

Fixpoint digits_fuel (fuel : nat) (n : Z) (acc : jsstring) : jsstring :=
  match fuel with
  | O => acc
  | S f =>
      if n <? 10 then digit n :: acc
      else digits_fuel f (n / 10) (digit (n mod 10) :: acc)
  end.

Definition String_of_Z (n : Z) : jsstring :=
  if n <? 0 then lit "-" ++ digits_fuel (S (Z.to_nat (Z.log2 (- n)))) (- n) []
  else digits_fuel (S (Z.to_nat (Z.log2 n))) n [].

(** [s.padStart(2, '0')] *)
Definition padStart2 (s : jsstring) : jsstring :=
  match s with
  | [] => lit "00"
  | [c] => [48%N; c]
  | _ => s
  end.

(** ** Exceptions *)

(** A thrown value; the program only reads its [message]. *)
Record jserror := JsError { message : jsstring }.

Inductive outcome (A : Type) :=
| Ok (a : A)
| Throw (e : jserror).
Arguments Ok {A} a.
Arguments Throw {A} e.

(** ** The JavaScript runtime

    What the program takes from the platform and this development does not
    define: Unicode case conversion, [Date] parsing with the local calendar,
    and [URL] parsing. *)
Class JsRuntime := {
  (** [s.toLowerCase()] *)
  toLowerCase : jsstring -> jsstring;
  (** [new Date(s)]: [None] for an invalid date, else
      [(getFullYear(), getMonth(), getDate())] in local time *)
  dateLocal : jsstring -> option (Z * Z * Z);
  (** [new Date(s).toISOString()], which throws on an invalid date *)
  dateISO : jsstring -> outcome jsstring;
  (** [new URL(s).hostname], which throws on an invalid URL *)
  urlHostname : jsstring -> outcome jsstring;
  (** what reading a property of [undefined] throws *)
  undefinedAccess : jserror
}.

(** On a string of ASCII code units [toLowerCase] lowers the letters A-Z
    and nothing else. *)
Definition lower_on_ascii `{JsRuntime} : Prop :=
  forall s, forallb is_ascii s = true -> toLowerCase s = map ascii_lower s.

(** ** Extraction history *)

(** An entry of [extractedUrls].  The two timestamps are written by
    [new Date().toISOString()] and compared through [new Date(...)]; they
    are kept as the instants they denote, in milliseconds. *)
Record HistoryEntry := mkEntry {
  url : jsstring;
  firstExtracted : Z;
  lastExtracted : Z;
  count : Z
}.

Definition set_lastExtracted (t : Z) (e : HistoryEntry) : HistoryEntry :=
  mkEntry (url e) (firstExtracted e) t (count e).

(** [item.count = (item.count || 1) + 1] *)
Definition bump_count (e : HistoryEntry) : HistoryEntry :=
  mkEntry (url e) (firstExtracted e) (lastExtracted e)
          ((if count e =? 0 then 1 else count e) + 1).

(** [arr.findIndex(pred)], [None] for -1 *)
Fixpoint findIndex {A} (pred : A -> bool) (l : list A) : option nat :=
  match l with
  | [] => None
  | x :: l' => if pred x then Some O else option_map S (findIndex pred l')
  end.

(** [Array.prototype.sort] with a comparator is stable: an element is
    placed before the first later one it does not compare greater than. *)
Fixpoint sort_insert {A} (cmp : A -> A -> Z) (x : A) (l : list A) : list A :=
  match l with
  | [] => [x]
  | y :: l' => if cmp x y <=? 0 then x :: l else y :: sort_insert cmp x l'
  end.

Fixpoint sort {A} (cmp : A -> A -> Z) (l : list A) : list A :=
  match l with
  | [] => []
  | x :: l' => sort_insert cmp x (sort cmp l')
  end.

(** [(a, b) => new Date(b.lastExtracted) - new Date(a.lastExtracted)] *)
Definition byLastExtractedDesc (a b : HistoryEntry) : Z :=
  lastExtracted b - lastExtracted a.

Definition maxUrls : nat := 100.

(** [addExtractedUrl(url)] on the stored list [urls], at instant
    [timestamp]; the result is what is written back to storage. *)
Definition addExtractedUrl (urls : list HistoryEntry) (u : jsstring)
    (timestamp : Z) : list HistoryEntry :=
  let urls1 :=
    match findIndex (fun item => str_eqb (url item) u) urls with
    | Some existingIndex =>
        alter bump_count existingIndex
          (alter (set_lastExtracted timestamp) existingIndex urls)
    | None => urls ++ [mkEntry u timestamp timestamp 1]
    end in
  if (maxUrls <? length urls1)%nat
  then take maxUrls (sort byLastExtractedDesc urls1)
  else urls1.

(** [isUrlExtracted(url)] *)
Definition isUrlExtracted (urls : list HistoryEntry) (u : jsstring) : bool :=
  existsb (fun item => str_eqb (url item) u) urls.

(** Recording a sequence of URLs, one instant each. *)
Fixpoint record_all (urls : list HistoryEntry)
    (reqs : list (jsstring * Z)) : list HistoryEntry :=
  match reqs with
  | [] => urls
  | (u, t) :: reqs' => record_all (addExtractedUrl urls u t) reqs'
  end.

(** ** Category and file name (popup.js) *)

Record ImageSample := mkImage {
  data : jsstring;
  mimeType : jsstring;
  alt : jsstring;
  src : jsstring
}.

Record PageContent := mkPage {
  title : jsstring;
  html : jsstring;
  images : list ImageSample;
  author : jsstring;
  publicationDate : option jsstring   (* [None] is [null] *)
}.

(** The object literal [patterns] of [detectCategory]; [Object.entries]
    walks it in the order it is written. *)
Definition patterns : list (jsstring * list jsstring) :=
  [ (lit "architecture",
     [lit "architecture"; lit "microservice"; lit "design pattern";
      lit "system design"; lit "scalability"]);
    (lit "testing",
     [lit "test"; lit "testing"; lit "tdd"; lit "unit test";
      lit "integration"; lit "e2e"]);
    (lit "security",
     [lit "security"; lit "authentication"; lit "authorization";
      lit "oauth"; lit "jwt"; lit "encryption"]);
    (lit "performance",
     [lit "performance"; lit "optimization"; lit "speed"; lit "cache";
      lit "profiling"]);
    (lit "database",
     [lit "database"; lit "sql"; lit "nosql"; lit "mongodb";
      lit "postgres"; lit "redis"]);
    (lit "devops",
     [lit "devops"; lit "docker"; lit "kubernetes"; lit "ci/cd";
      lit "deployment"; lit "aws"; lit "azure"]);
    (lit "frontend",
     [lit "react"; lit "vue"; lit "angular"; lit "frontend"; lit "css";
      lit "ui"; lit "ux"]);
    (lit "backend",
     [lit "backend"; lit "api"; lit "rest"; lit "graphql"; lit "server";
      lit "node"; lit "express"]);
    (lit "mobile",
     [lit "mobile"; lit "ios"; lit "android"; lit "react native";
      lit "flutter"]);
    (lit "ai_ml",
     [lit "machine learning"; lit "ai"; lit "neural"; lit "tensorflow";
      lit "data science"]);
    (lit "programming",
     [lit "typescript"; lit "javascript"; lit "python"; lit "java";
      lit "c#"; lit "rust"; lit "go"; lit "programming"]) ].

(** The inner loop [for (const keyword of keywords)]: [true] when its
    [return category] is reached. *)
Fixpoint scan_keywords (titleLower urlLower : jsstring)
    (keywords : list jsstring) : bool :=
  match keywords with
  | [] => false
  | keyword :: rest =>
      if includes titleLower keyword || includes urlLower keyword then true
      else scan_keywords titleLower urlLower rest
  end.

(** The outer loop [for (const [category, keywords] of ...)]: the
    category returned, [None] when the loop runs to its end. *)
Fixpoint scan_categories (titleLower urlLower : jsstring)
    (entries : list (jsstring * list jsstring)) : option jsstring :=
  match entries with
  | [] => None
  | (category, keywords) :: rest =>
      if scan_keywords titleLower urlLower keywords then Some category
      else scan_categories titleLower urlLower rest
  end.

Definition detectCategory `{JsRuntime} (title_ url_ : jsstring) : jsstring :=
  let titleLower := toLowerCase title_ in
  let urlLower := toLowerCase url_ in
  match scan_categories titleLower urlLower patterns with
  | Some category => category
  | None => lit "general"
  end.

(** The class [[a-z0-9_.-]] under the [i] flag; code units outside ASCII
    are never folded onto ASCII ones by a regular expression without the
    [u] flag. *)
Definition filename_safe (c : codeunit) : bool :=
  ((97 <=? c) && (c <=? 122) || (65 <=? c) && (c <=? 90)
   || (48 <=? c) && (c <=? 57) || (c =? 95) || (c =? 46) || (c =? 45))%N.

(** [`${y}-${String(m + 1).padStart(2, '0')}-${String(d).padStart(2, '0')}`]
    for [y = getFullYear()], [m = getMonth()], [d = getDate()]. *)
Definition formatDate (ymd : Z * Z * Z) : jsstring :=
  let '(y, m, d) := ymd in
  String_of_Z y ++ lit "-" ++ padStart2 (String_of_Z (m + 1)) ++ lit "-"
    ++ padStart2 (String_of_Z d).

Definition truthy (s : jsstring) : bool :=
  match s with [] => false | _ => true end.

(** [generateFilename(pageContent, url)]; [today] is [new Date()] in local
    time, [(getFullYear(), getMonth(), getDate())]. *)
Definition generateFilename `{JsRuntime} (today : Z * Z * Z)
    (pageContent : PageContent) (url_ : jsstring) : jsstring :=
  let safeTitle :=
    toLowerCase
      (replace_all (fun c => negb (filename_safe c)) (lit "_")
         (title pageContent)) in
  let dateStr : option jsstring :=
    match publicationDate pageContent with
    | Some p =>
        if truthy p then
          match dateLocal p with
          | Some pubDate => Some (formatDate pubDate)
          | None => None
          end
        else None
    | None => None
    end in
  let dateStr :=
    match dateStr with
    | Some d => if truthy d then d else formatDate today
    | None => formatDate today
    end in
  let category := detectCategory (title pageContent) url_ in
  dateStr ++ lit "_" ++ category ++ lit "_"
    ++ (if truthy safeTitle then safeTitle else lit "document") ++ lit ".md".

(** ** Front matter (createMetadata) *)

Record EnrichmentResult := mkEnrichment {
  technologies : list jsstring;
  programmingLanguages : list jsstring;
  tags : list jsstring;
  keyConcepts : list jsstring;
  codeExamples : bool;
  difficultyLevel : jsstring;
  summary : jsstring;
  content : jsstring
}.

(** The character class tested by [escapeYaml]: colon, double quote,
    single quote, bar, greater-than, braces, brackets, at, backtick, bang,
    percent, ampersand, star. *)
Definition yaml_special : jsstring :=
  lit ":" ++ [DQUOTE] ++ lit "'|>{}[]@`!%&*".

Definition is_yaml_special (c : codeunit) : bool :=
  existsb (cu_eqb c) yaml_special.

Definition escapeYaml (str : jsstring) : jsstring :=
  if negb (truthy str) then []
  else if existsb is_yaml_special str || includes str [LF]
  then [DQUOTE]
         ++ replace_all (fun c => cu_eqb c DQUOTE) [BACKSLASH; DQUOTE] str
         ++ [DQUOTE]
  else str.

Definition formatYamlArray (arr : list jsstring) : jsstring :=
  match arr with
  | [] => lit "[]"
  | _ => lit "[" ++ join (lit ", ") (map escapeYaml arr) ++ lit "]"
  end.

(** ** Regular expressions

    The patterns of the program are sequences of single-character atoms
    around one capturing group.  [run] is the backtracking matcher of
    ECMAScript on them: a greedy quantifier first takes as much as it can,
    a lazy one as little, alternatives are tried from left to right, and
    the first success is the match. *)

Definition cset := codeunit -> bool.

Inductive atom :=
| One (p : cset)            (* one code unit of the class *)
| Opt (p : cset)            (* x?  *)
| Star (p : cset)           (* x*  *)
| StarLazy (p : cset)       (* x*? *)
| Words (ws : list (list cset))   (* (w1|w2|...), each a sequence *)
| GOpen                     (* start of group 1 *)
| GClose.                   (* end of group 1 *)

Definition regex := list atom.

(** What group 1 holds while matching; [Opened] keeps the code units read
    so far, last first. *)
Inductive capture :=
| NotYet
| Opened (acc : jsstring)
| Closed (s : jsstring).

Definition push (c : codeunit) (cap : capture) : capture :=
  match cap with
  | Opened acc => Opened (c :: acc)
  | _ => cap
  end.

Definition close (cap : capture) : capture :=
  match cap with
  | Opened acc => Closed (rev acc)
  | _ => cap
  end.

(** One alternative of [Words] read at the head of [s]. *)
Fixpoint read_word (w : list cset) (s : jsstring) (cap : capture)
  : option (jsstring * capture) :=
  match w with
  | [] => Some (s, cap)
  | p :: w' =>
      match s with
      | c :: s' => if p c then read_word w' s' (push c cap) else None
      | [] => None
      end
  end.

Fixpoint first_word (k : jsstring -> capture -> option capture)
    (ws : list (list cset)) (s : jsstring) (cap : capture) : option capture :=
  match ws with
  | [] => None
  | w :: ws' =>
      match read_word w s cap with
      | Some (s', cap') =>
          match k s' cap' with
          | Some r => Some r
          | None => first_word k ws' s cap
          end
      | None => first_word k ws' s cap
      end
  end.

Fixpoint run (re : regex) : jsstring -> capture -> option capture :=
  match re with
  | [] => fun _ cap => Some cap
  | a :: re' =>
      let k := run re' in
      match a with
      | One p => fun s cap =>
          match s with
          | c :: s' => if p c then k s' (push c cap) else None
          | [] => None
          end
      | Opt p => fun s cap =>
          match s with
          | c :: s' =>
              if p c then
                match k s' (push c cap) with
                | Some r => Some r
                | None => k s cap
                end
              else k s cap
          | [] => k s cap
          end
      | Star p =>
          fix star (s : jsstring) (cap : capture) : option capture :=
            match s with
            | c :: s' =>
                if p c then
                  match star s' (push c cap) with
                  | Some r => Some r
                  | None => k s cap
                  end
                else k s cap
            | [] => k s cap
            end
      | StarLazy p =>
          fix lazy (s : jsstring) (cap : capture) : option capture :=
            match k s cap with
            | Some r => Some r
            | None =>
                match s with
                | c :: s' => if p c then lazy s' (push c cap) else None
                | [] => None
                end
            end
      | Words ws => first_word k ws
      | GOpen => fun s _ => k s (Opened [])
      | GClose => fun s cap => k s (close cap)
      end
  end.

(** The leftmost match. *)
Fixpoint search (re : regex) (s : jsstring) : option capture :=
  match run re s NotYet with
  | Some r => Some r
  | None =>
      match s with
      | [] => None
      | _ :: s' => search re s'
      end
  end.

(** [s.match(re)]: [None] for [null], else [match[1]]. *)
Definition regex_match (re : regex) (s : jsstring) : option jsstring :=
  match search re s with
  | Some (Closed g) => Some g
  | Some _ => Some []
  | None => None
  end.

(** Character classes. *)
Definition any_cu : cset := fun _ => true.
Definition exactly (c : codeunit) : cset := fun x => cu_eqb x c.
Definition other_than (c : codeunit) : cset := fun x => negb (cu_eqb x c).
(** A pattern character under the [i] flag. *)
Definition ci (c : codeunit) : cset :=
  fun x => cu_eqb (ascii_upper x) (ascii_upper c).
Definition underscore_or_space : cset :=
  fun x => cu_eqb x 95%N || is_space x.

Definition str (s : string) : regex := map (fun c => One (exactly c)) (lit s).
Definition stri (s : string) : regex := map (fun c => One (ci c)) (lit s).
Definition wordi (s : string) : list cset := map ci (lit s).

Definition LBRACKET : codeunit := 91%N.
Definition RBRACKET : codeunit := 93%N.
Definition COLON : codeunit := 58%N.
Definition COMMA : codeunit := 44%N.

(** Optional white space, then a bracketed list whose inside (anything
    but a closing bracket) is captured. *)
Definition bracketed_tail : regex :=
  [Star is_space; One (exactly LBRACKET); GOpen; Star (other_than RBRACKET);
   GClose; One (exactly RBRACKET)].

(** Optional white space, then the rest of the line (one code unit or
    more, none a line feed), captured. *)
Definition line_tail : regex :=
  [Star is_space; GOpen; One (other_than LF); Star (other_than LF); GClose].

(** An optional s and an optional colon, under the [i] flag. *)
Definition s_colon_opt : regex := [Opt (ci 115%N); Opt (exactly COLON)].

(** The Metadata heading, a line feed, lazily anything (captured), two
    line feeds and the Content heading. *)
Definition re_metadata : regex :=
  str "## Metadata" ++ [One (exactly LF); GOpen; StarLazy any_cu; GClose;
                        One (exactly LF); One (exactly LF)]
    ++ str "## Content".

(** The Content heading, a line feed and all that follows (captured). *)
Definition re_content : regex :=
  str "## Content" ++ [One (exactly LF); GOpen; Star any_cu; GClose].

(** The patterns of the primary parser. *)
Definition re_technologies : regex := stri "Technologies:" ++ bracketed_tail.
Definition re_languages : regex :=
  stri "Programming_Languages:" ++ bracketed_tail.
Definition re_tags : regex := stri "Tags:" ++ bracketed_tail.
Definition re_concepts : regex := stri "Key_Concepts:" ++ bracketed_tail.
Definition re_code : regex :=
  stri "Code_Examples:"
    ++ [Star is_space; GOpen; Words [wordi "yes"; wordi "no"]; GClose].
Definition re_difficulty : regex :=
  stri "Difficulty_Level:"
    ++ [Star is_space; GOpen;
        Words [wordi "beginner"; wordi "intermediate"; wordi "advanced"];
        GClose].
(** The Summary label (no [i] flag), white space, and all that follows
    (the [s] flag lets the dot match line feeds). *)
Definition re_summary : regex :=
  str "Summary:" ++ [Star is_space; GOpen; Star any_cu; GClose].

(** The pattern pairs of the fallback parser, in the order of the arrays
    [techPatterns], [langPatterns], [tagsPatterns], [conceptPatterns]. *)
Definition techPatterns : list regex :=
  [ stri "Technologie" ++ s_colon_opt ++ bracketed_tail;
    stri "Technologie" ++ s_colon_opt ++ line_tail ].
Definition langPatterns : list regex :=
  [ stri "Programming" ++ [One underscore_or_space] ++ stri "Language"
      ++ s_colon_opt ++ bracketed_tail;
    stri "Programming" ++ [One underscore_or_space] ++ stri "Language"
      ++ s_colon_opt ++ line_tail ].
Definition tagsPatterns : list regex :=
  [ stri "Tag" ++ s_colon_opt ++ bracketed_tail;
    stri "Tag" ++ s_colon_opt ++ line_tail ].
Definition conceptPatterns : list regex :=
  [ stri "Key" ++ [One underscore_or_space] ++ stri "Concept"
      ++ s_colon_opt ++ bracketed_tail;
    stri "Key" ++ [One underscore_or_space] ++ stri "Concept"
      ++ s_colon_opt ++ line_tail ].

(** The test that [x.toLowerCase()] is not the word none. *)
Definition not_none `{JsRuntime} (x : jsstring) : bool :=
  negb (str_eqb (toLowerCase x) (lit "none")).

(** [items.map(x => x.trim()).filter(x => x && notNone(x))] *)
Definition clean_items `{JsRuntime} (items : list jsstring) : list jsstring :=
  List.filter (fun x => truthy x && not_none x) (map trim items).

(** A field of the primary parser: assigned when the pattern matches and
    its group is neither empty nor the word none. *)
Definition primary_list `{JsRuntime} (re : regex) (metadataText : jsstring)
  : list jsstring :=
  match regex_match re metadataText with
  | Some g =>
      if truthy g && not_none g then clean_items (split_on COMMA g) else []
  | None => []
  end.

(** The items of a fallback match: when the group holds an opening
    bracket, every bracket is removed first; then it is split on commas. *)
Definition fallback_items (g : jsstring) : list jsstring :=
  if includes g [LBRACKET]
  then split_on COMMA
         (replace_all (fun c => cu_eqb c LBRACKET || cu_eqb c RBRACKET) [] g)
  else split_on COMMA g.

(** The loop [for (const pattern of xPatterns)] of the fallback parser,
    [field] being the variable it assigns; a [break] ends it. *)
Fixpoint fallback_loop `{JsRuntime} (pats : list regex) (fullText : jsstring)
    (field : list jsstring) : list jsstring :=
  match pats with
  | [] => field
  | pattern :: rest =>
      match regex_match pattern fullText with
      | Some g =>
          if truthy g && not_none g then
            let field' := clean_items (fallback_items g) in
            if (0 <? length field')%nat then field'
            else fallback_loop rest fullText field'
          else fallback_loop rest fullText field
      | None => fallback_loop rest fullText field
      end
  end.

(** The part of [improveMarkdownWithGemini] after the text of the answer
    is known: both parsers and the choice of the body. *)
Definition parseGeminiText `{JsRuntime} (improvedContent : jsstring)
  : EnrichmentResult :=
  let metadataMatch := regex_match re_metadata improvedContent in
  let contentMatch := regex_match re_content improvedContent in
  let improvedMarkdown :=
    match contentMatch with
    | Some g => trim g
    | None => improvedContent
    end in
  match metadataMatch with
  | Some metadataText =>
      mkEnrichment
        (primary_list re_technologies metadataText)
        (primary_list re_languages metadataText)
        (primary_list re_tags metadataText)
        (primary_list re_concepts metadataText)
        (match regex_match re_code metadataText with
         | Some g => str_eqb (toLowerCase g) (lit "yes")
         | None => false
         end)
        (match regex_match re_difficulty metadataText with
         | Some g => toLowerCase g
         | None => lit "intermediate"
         end)
        (match regex_match re_summary metadataText with
         | Some g => trim g
         | None => []
         end)
        improvedMarkdown
  | None =>
      let fullText := improvedContent in
      mkEnrichment
        (fallback_loop techPatterns fullText [])
        (fallback_loop langPatterns fullText [])
        (fallback_loop tagsPatterns fullText [])
        (fallback_loop conceptPatterns fullText [])
        false (lit "intermediate") [] improvedMarkdown
  end.

(** [createMetadata(pageContent, url, category, geminiData)];
    [dateCaptured] is [new Date().toISOString()] at the call. *)
Definition createMetadata `{JsRuntime} (dateCaptured : jsstring)
    (pageContent : PageContent) (url_ category : jsstring)
    (geminiData : option EnrichmentResult) : outcome jsstring :=
  let technologies_ := from_option technologies [] geminiData in
  let programmingLanguages_ := from_option programmingLanguages [] geminiData in
  let tags_ := from_option tags [] geminiData in
  let keyConcepts_ := from_option keyConcepts [] geminiData in
  let codeExamples_ := from_option codeExamples false geminiData in
  let difficultyLevel_ :=
    match geminiData with
    | Some g => if truthy (difficultyLevel g) then difficultyLevel g
                else lit "unknown"
    | None => lit "unknown"
    end in
  let summary_ := from_option summary [] geminiData in
  let publicationDate_ :=
    match publicationDate pageContent with
    | Some p => if truthy p then Some p else None
    | None => None
    end in
  match (match publicationDate_ with
         | Some p =>
             match dateISO p with
             | Ok iso => Ok (Some iso)
             | Throw e => Throw e
             end
         | None => Ok None
         end) with
  | Throw e => Throw e
  | Ok datePublished =>
      match urlHostname url_ with
      | Throw e => Throw e
      | Ok hostname =>
          Ok (lit "```yaml" ++ [LF]
              ++ lit "---" ++ [LF]
              ++ lit "title: " ++ escapeYaml (title pageContent) ++ [LF]
              ++ lit "source: " ++ url_ ++ [LF]
              ++ lit "date_published: "
              ++ (match datePublished with
                  | Some d => if truthy d then d else lit "unknown"
                  | None => lit "unknown"
                  end) ++ [LF]
              ++ lit "date_captured: " ++ dateCaptured ++ [LF]
              ++ lit "domain: " ++ hostname ++ [LF]
              ++ lit "author: "
              ++ escapeYaml (if truthy (author pageContent)
                             then author pageContent else lit "Unknown")
              ++ [LF]
              ++ lit "category: " ++ category ++ [LF]
              ++ lit "technologies: " ++ formatYamlArray technologies_ ++ [LF]
              ++ lit "programming_languages: "
              ++ formatYamlArray programmingLanguages_ ++ [LF]
              ++ lit "tags: " ++ formatYamlArray tags_ ++ [LF]
              ++ lit "key_concepts: " ++ formatYamlArray keyConcepts_ ++ [LF]
              ++ lit "code_examples: "
              ++ (if codeExamples_ then lit "true" else lit "false") ++ [LF]
              ++ lit "difficulty_level: " ++ difficultyLevel_ ++ [LF]
              ++ lit "summary: |" ++ [LF]
              ++ lit "  "
              ++ replace_all (fun c => cu_eqb c LF) ([LF] ++ lit "  ") summary_
              ++ [LF]
              ++ lit "---" ++ [LF]
              ++ lit "```" ++ [LF]
              ++ [LF]
              ++ lit "# " ++ title pageContent ++ [LF]
              ++ [LF])
      end
  end.

(** ** Encoding

    [TextEncoder.encode] turns a string into the UTF-8 bytes of its code
    points and writes U+FFFD for a surrogate without its partner; the text
    that these bytes stand for is the string made well formed. *)

Definition is_high_surrogate (c : codeunit) : bool :=
  ((55296 <=? c) && (c <=? 56319))%N.
Definition is_low_surrogate (c : codeunit) : bool :=
  ((56320 <=? c) && (c <=? 57343))%N.
Definition REPLACEMENT : codeunit := 65533%N.

Fixpoint toWellFormed (s : jsstring) : jsstring :=
  match s with
  | [] => []
  | c :: s' =>
      if is_high_surrogate c then
        match s' with
        | d :: s'' =>
            if is_low_surrogate d then c :: d :: toWellFormed s''
            else REPLACEMENT :: toWellFormed s'
        | [] => [REPLACEMENT]
        end
      else if is_low_surrogate c then REPLACEMENT :: toWellFormed s'
      else c :: toWellFormed s'
  end.

(** ** Effects

    The world the background script acts on: the network answers the n-th
    [fetch] with [net n], the n-th [Math.random()] yields [random n], the
    clock reads are given, and the observable actions are recorded in
    order. *)

Inductive JsonBody :=
| JsonInvalid (e : jserror)    (* [response.json()] rejects *)
| JsonNull (e : jserror)       (* the body is [null]; reading
                                  [data.candidates] throws *)
| JsonUnexpected               (* no [candidates[0].content.parts[0]] *)
| JsonNoText (e : jserror)     (* the part has no [text]; using it throws *)
| JsonText (text : jsstring).

Record Response := mkResponse {
  status : Z;
  body_text : jsstring;        (* [await response.text()] *)
  body_json : JsonBody         (* [await response.json()] and its shape *)
}.

(** [response.ok] *)
Definition ok (r : Response) : bool :=
  (200 <=? status r) && (status r <=? 299).

Inductive FetchOutcome :=
| Responded (r : Response)
| Rejected (e : jserror).      (* a network-level failure *)

Inductive part :=
| PText (text : jsstring)
| PInline (mime_type data_ : jsstring).

Inductive event :=
| EFetch (model apiKey : jsstring) (parts : list part)
| ESetTimeout (ms : Q)
| EDownload (content_ filename : jsstring) (saveAs : bool)
| EStorageSet (urls : list HistoryEntry)
| ENotify (title_ message_ : jsstring)
| ESendMessage (success : bool) (detail : jsstring).

(** What [storage.local] does with the calls of [addExtractedUrl]: it
    serves them, or its [get] rejects, or its [set] does. *)
Inductive StorageAnswer :=
| StorageServes
| GetRejects (e : jserror)
| SetRejects (e : jserror).

Record Env := mkEnv {
  net : nat -> FetchOutcome;
  random : nat -> Q;
  now : Z;                     (* the clock read by [addExtractedUrl] *)
  nowISO : jsstring;           (* the clock read by [createMetadata] *)
  storage : StorageAnswer
}.

Record World := mkWorld {
  events : list event;
  fetched : nat;               (* calls of [fetch] so far *)
  drawn : nat;                 (* calls of [Math.random] so far *)
  extractedUrls : list HistoryEntry   (* [storage.local] *)
}.

Definition M (A : Type) : Type := World -> outcome A * World.

Definition ret {A} (a : A) : M A := fun w => (Ok a, w).
Definition throw {A} (e : jserror) : M A := fun w => (Throw e, w).
Definition bind {A B} (m : M A) (k : A -> M B) : M B :=
  fun w =>
    match m w with
    | (Ok a, w') => k a w'
    | (Throw e, w') => (Throw e, w')
    end.
(** [try { m } catch (error) { h error }] *)
Definition try_catch {A} (m : M A) (h : jserror -> M A) : M A :=
  fun w =>
    match m w with
    | (Ok a, w') => (Ok a, w')
    | (Throw e, w') => h e w'
    end.
Definition lift {A} (o : outcome A) : M A := fun w => (o, w).

Notation "x <- m ;; k" := (bind m (fun x => k))
  (at level 100, m at next level, right associativity).
Notation "m ;;; k" := (bind m (fun _ => k))
  (at level 100, right associativity).

Definition emit (e : event) : M unit :=
  fun w => (Ok tt, mkWorld (events w ++ [e]) (fetched w) (drawn w)
                     (extractedUrls w)).

Section Background.
Context `{JsRuntime} (env : Env).

Definition fetch (model apiKey : jsstring) (parts : list part) : M Response :=
  fun w =>
    let w' := mkWorld (events w ++ [EFetch model apiKey parts])
                (S (fetched w)) (drawn w) (extractedUrls w) in
    match net env (fetched w) with
    | Responded r => (Ok r, w')
    | Rejected e => (Throw e, w')
    end.

Definition Math_random : M Q :=
  fun w => (Ok (random env (drawn w)),
            mkWorld (events w) (fetched w) (S (drawn w)) (extractedUrls w)).

(** [await new Promise((resolve) => setTimeout(resolve, ms))] *)
Definition sleep (ms : Q) : M unit := emit (ESetTimeout ms).

Definition maxRetries : nat := 8.
Definition baseDelay : Z := 2.

(** [baseDelay * Math.pow(2, attempt) + Math.random()], in seconds, then
    the wait of [delay * 1000] milliseconds. *)
Definition backoff_wait (attempt : nat) : M unit :=
  r <- Math_random ;;
  let delay := (inject_Z (baseDelay * 2 ^ Z.of_nat attempt) + r)%Q in
  sleep (delay * 1000)%Q.

(** What one turn of the [for] loop ends with. *)
Inductive turn :=
| Return (r : Response)
| Continue.

Definition attempt_body (attempt : nat) (model apiKey : jsstring)
    (parts : list part) : M turn :=
  try_catch
    (response <- fetch model apiKey parts ;;
     if ok response then ret (Return response)
     else if status response =? 503 then
       if (attempt =? maxRetries - 1)%nat then ret (Return response)
       else backoff_wait attempt ;;; ret Continue
     else ret (Return response))
    (fun error =>
       if (attempt =? maxRetries - 1)%nat then throw error
       else backoff_wait attempt ;;; ret Continue).

(** [for (let attempt = 0; attempt < maxRetries; attempt++)], by the
    number of turns left; falling out of the loop returns [undefined]. *)
Fixpoint backoff_loop (remaining attempt : nat) (model apiKey : jsstring)
    (parts : list part) : M (option Response) :=
  match remaining with
  | O => ret None
  | S remaining' =>
      t <- attempt_body attempt model apiKey parts ;;
      match t with
      | Return r => ret (Some r)
      | Continue => backoff_loop remaining' (S attempt) model apiKey parts
      end
  end.

Definition generateContentWithBackoff (model apiKey : jsstring)
    (parts : list part) : M (option Response) :=
  backoff_loop maxRetries 0 model apiKey parts.

(** The template [improvePrompt] up to the interpolated markdown. *)
Definition promptHeader : jsstring :=
  lit "You are a technical content analyzer. Analyze the provided content and extract metadata." ++ [LF] ++
  [LF] ++
  lit "CRITICAL: You MUST format your response EXACTLY as shown below. Do not deviate from this format." ++ [LF] ++
  [LF] ++
  lit "## Metadata" ++ [LF] ++
  lit "Technologies: [LIST HERE - e.g., ASP.NET Core, Dapper, Entity Framework, SQL Server, PostgreSQL]" ++ [LF] ++
  lit "Programming_Languages: [LIST HERE - e.g., C#, SQL, JavaScript]" ++ [LF] ++
  lit "Tags: [LIST HERE - e.g., orm, database, dotnet, web-api, data-access]" ++ [LF] ++
  lit "Key_Concepts: [LIST HERE - e.g., micro-orm, repository-pattern, dependency-injection]" ++ [LF] ++
  lit "Code_Examples: [yes or no]" ++ [LF] ++
  lit "Difficulty_Level: [beginner or intermediate or advanced]" ++ [LF] ++
  lit "Summary: [Write 4-6 sentences here]" ++ [LF] ++
  [LF] ++
  lit "## Content" ++ [LF] ++
  lit "[Put the improved markdown content here]" ++ [LF] ++
  [LF] ++
  lit "IMPORTANT RULES:" ++ [LF] ++
  lit "1. For Technologies: List ALL technologies, frameworks, libraries, tools mentioned in the article (e.g., ASP.NET Core, Dapper, SQL Server, Docker, Redis, etc.)" ++ [LF] ++
  lit "2. For Programming_Languages: List ONLY programming languages (C#, Python, JavaScript, SQL, etc.), NOT frameworks" ++ [LF] ++
  lit "3. For Tags: Use lowercase, hyphenated terms for categorization (max 10)" ++ [LF] ++
  lit "4. For Key_Concepts: List main technical concepts, patterns, or methodologies discussed (max 8)" ++ [LF] ++
  lit "5. Never leave any field empty - if nothing found, write " ++ [DQUOTE] ++ lit "none" ++ [DQUOTE] ++ lit " " ++ [LF] ++
  lit "6. Do NOT use empty brackets []" ++ [LF] ++
  [LF] ++
  lit "Example for a Dapper article:" ++ [LF] ++
  lit "Technologies: [Dapper, ASP.NET Core, SQL Server, .NET 6]" ++ [LF] ++
  lit "Programming_Languages: [C#, SQL]" ++ [LF] ++
  lit "Tags: [micro-orm, database, dotnet, performance, data-access]" ++ [LF] ++
  lit "Key_Concepts: [micro-orm, query-optimization, parameterized-queries, mapping]" ++ [LF] ++
  [LF] ++
  lit "Now analyze this content:" ++ [LF] ++
  [LF].

Definition imagesRequest : jsstring :=
  [LF; LF] ++ lit "Also, please analyze any images found in the content and add descriptions where appropriate.".

(** What [improveMarkdownWithGemini] resolves to; the field is always an
    object there, [None] stands for any other shape. *)
Record GeminiReply := mkReply {
  improvedMarkdown : option EnrichmentResult
}.

Definition defaultModel : jsstring := lit "gemini-2.5-pro".

(** [improveMarkdownWithGemini(markdown, apiKey, images, model)];
    [model] is [None] when the argument is [undefined]. *)
Definition improveMarkdownWithGemini (markdown apiKey : jsstring)
    (images_ : list ImageSample) (model : option jsstring) : M GeminiReply :=
  let model := default defaultModel model in
  if negb (truthy apiKey)
  then throw (JsError (lit "Gemini API key not configured"))
  else
    let improvePrompt := promptHeader ++ markdown in
    try_catch
      (let parts :=
         match images_ with
         | [] => [PText improvePrompt]
         | _ =>
             PText (improvePrompt ++ imagesRequest)
               :: map (fun imageData =>
                         PInline (mimeType imageData) (data imageData))
                      images_
         end in
       response <- generateContentWithBackoff model apiKey parts ;;
       match response with
       | None => throw undefinedAccess
       | Some response =>
           if negb (ok response) then
             throw (JsError (lit "Gemini API error: "
                               ++ String_of_Z (status response) ++ lit " - "
                               ++ body_text response))
           else
             match body_json response with
             | JsonInvalid e => throw e
             | JsonNull e => throw e
             | JsonUnexpected =>
                 throw (JsError
                          (lit "Invalid response structure from Gemini API"))
             | JsonNoText e => throw e
             | JsonText improvedContent =>
                 ret (mkReply (Some (parseGeminiText improvedContent)))
             end
       end)
      (fun error => throw error).

(** The message [processAndDownload]; the fields carry the names of the
    source behind [req_]. *)
Record Request := mkRequest {
  req_pageContent : PageContent;
  req_url : jsstring;
  req_category : jsstring;
  req_markdown : jsstring;
  req_filename : jsstring;
  req_apiKey : jsstring;
  req_model : option jsstring
}.

(** [browser.downloads.download({url: dataUrl, filename, saveAs: true})];
    the data URL carries in base64 the bytes that [TextEncoder] makes of
    the content, and the event keeps the text these bytes stand for: the
    content with every surrogate that has no partner replaced by U+FFFD. *)
Definition download (finalContent filename : jsstring) : M unit :=
  emit (EDownload (toWellFormed finalContent) filename true).

(** [await addExtractedUrl(url)]: read, update and write back.  When
    [get] rejects nothing is written; when [set] rejects the write was
    asked for and the store keeps what it held; either way the rejection
    is thrown. *)
Definition storeExtractedUrl (u : jsstring) : M unit :=
  fun w =>
    let urls := addExtractedUrl (extractedUrls w) u (now env) in
    match storage env with
    | StorageServes =>
        (Ok tt,
         mkWorld (events w ++ [EStorageSet urls]) (fetched w) (drawn w) urls)
    | GetRejects e => (Throw e, w)
    | SetRejects e =>
        (Throw e,
         mkWorld (events w ++ [EStorageSet urls]) (fetched w) (drawn w)
           (extractedUrls w))
    end.

Definition notify (title_ message_ : jsstring) : M unit :=
  emit (ENotify title_ message_).

(** [browser.runtime.sendMessage] of the message [processingComplete],
    with [success] and the file name or the error message; a rejection
    (no listener) is swallowed. *)
Definition sendProcessingComplete (success : bool) (detail : jsstring)
  : M unit :=
  emit (ESendMessage success detail).

(** The choice of the artifact body in [processAndDownloadWithGemini]. *)
Definition contentToUse_of (content_ markdown : jsstring) : jsstring :=
  if negb (truthy content_) || (length (trim content_) =? 0)%nat
  then markdown else content_.

Definition processAndDownloadWithGemini (request : Request) : M unit :=
  let pageContent := req_pageContent request in
  let url_ := req_url request in
  let category := req_category request in
  let markdown := req_markdown request in
  let filename := req_filename request in
  try_catch
    (result <- improveMarkdownWithGemini markdown (req_apiKey request)
                 (images pageContent) (req_model request) ;;
     finalContent <-
       match improvedMarkdown result with
       | Some enriched =>
           enrichedMetadata <-
             lift (createMetadata (nowISO env) pageContent url_ category
                     (Some enriched)) ;;
           let contentToUse := contentToUse_of (content enriched) markdown in
           ret (enrichedMetadata ++ contentToUse)
       | None =>
           basicMetadata <-
             lift (createMetadata (nowISO env) pageContent url_ category
                     None) ;;
           ret (basicMetadata ++ markdown)
       end ;;
     download finalContent filename ;;;
     storeExtractedUrl url_ ;;;
     notify (lit "Page Extraction Complete")
       (lit "File " ++ [DQUOTE] ++ filename ++ [DQUOTE]
          ++ lit " has been downloaded successfully.") ;;;
     sendProcessingComplete true filename)
    (fun error =>
       notify (lit "Extraction Failed") (lit "Error: " ++ message error) ;;;
       sendProcessingComplete false (message error) ;;;
       throw error).

End Background.

(** The world before a run: nothing observed yet, [urls] in storage. *)
Definition initial (urls : list HistoryEntry) : World := mkWorld [] 0 0 urls.

(** The texts handed to the download sink, in order. *)
Definition downloaded (w : World) : list jsstring :=
  omap (fun e => match e with
                 | EDownload c _ _ => Some c
                 | _ => None
                 end) (events w).


(** ** History administration (popup.js, options page) *)

(** [keepLastNUrls(n)] of popup.js, for a count [n]: what storage holds
    afterwards; the list is written back only when it was longer. *)
Definition keepLastNUrls (n : nat) (urls : list HistoryEntry)
  : list HistoryEntry :=
  if (n <? length urls)%nat
  then take n (sort byLastExtractedDesc urls)
  else urls.

(** ** The listener of the background script *)

(** The messages it takes; [MOther] is any other [action]. *)
Inductive Message :=
| MImproveWithGemini (markdown apiKey : jsstring)
    (images_ : list ImageSample) (model : option jsstring)
| MProcessAndDownload (request : Request)
| MOther.

(** What [sendResponse] is called with. *)
Inductive Answer :=
| AImproved (reply : GeminiReply)
| ASuccess                     (* [{ success: true }] *)
| AError (error : jsstring).   (* [{ error: error.message }] *)

(** The listener of [browser.runtime.onMessage]: the answer handed to
    [sendResponse], [None] when it is not called. *)
Definition onMessage `{JsRuntime} (env : Env) (request : Message)
  : M (option Answer) :=
  match request with
  | MImproveWithGemini markdown apiKey images_ model =>
      try_catch
        (reply <- improveMarkdownWithGemini env markdown apiKey images_ model ;;
         ret (Some (AImproved reply)))
        (fun error => ret (Some (AError (message error))))
  | MProcessAndDownload request =>
      try_catch
        (processAndDownloadWithGemini env request ;;;
         ret (Some ASuccess))
        (fun error => ret (Some (AError (message error))))
  | MOther => ret None
  end.

(** ** The bytes of the download (processAndDownloadWithGemini) *)

Definition chunkSize : Z := 8192.

(** The loop [for (let i = 0; i < len; i += chunkSize)] over the encoded
    bytes, by the number of turns left; each turn appends the characters
    of [data.subarray(i, i + chunkSize)]. *)
Fixpoint binary_loop (turns : nat) (data_ : list codeunit) (i : Z)
    (binary : jsstring) : jsstring :=
  match turns with
  | O => binary
  | S turns' =>
      if i <? Z.of_nat (length data_) then
        binary_loop turns' data_ (i + chunkSize)
          (binary ++ take (Z.to_nat chunkSize) (drop (Z.to_nat i) data_))
      else binary
  end.

(** The text handed to [btoa]; the loop needs no more turns than there
    are bytes. *)
Definition binary_of (data_ : list codeunit) : jsstring :=
  binary_loop (length data_) data_ 0 [].

(** ** The code-block rule of the converter (popup.js) *)

(** The [code] element inside the [pre] element. *)
Record CodeElement := mkCode {
  className : jsstring;
  textContent : jsstring
}.

(** The class [\w]. *)
Definition is_word (c : codeunit) : bool :=
  ((97 <=? c) && (c <=? 122) || (65 <=? c) && (c <=? 90)
   || (48 <=? c) && (c <=? 57) || (c =? 95))%N.

(** The pattern of the language class: lang or language, a hyphen, and
    one word character or more, captured. *)
Definition re_lang : regex :=
  [Words [map exactly (lit "lang"); map exactly (lit "language")];
   One (exactly 45%N); GOpen; One is_word; Star is_word; GClose].

(** The [replacement] function of the rule [enhancedCodeBlock];
    [codeEl] is [node.querySelector('code')], [content] the text the
    converter made of the node. *)
Definition enhancedCodeBlock (content : jsstring)
    (codeEl : option CodeElement) : jsstring :=
  match codeEl with
  | None => [LF] ++ lit "```" ++ [LF] ++ content ++ [LF] ++ lit "```" ++ [LF]
  | Some el =>
      let lang :=
        match regex_match re_lang (className el) with
        | Some g => g
        | None => []
        end in
      let code := if truthy (textContent el) then textContent el
                  else content in
      [LF] ++ lit "```" ++ lang ++ [LF] ++ trim code ++ [LF] ++ lit "```"
        ++ [LF]
  end.

(** ** The images of the page (getPageContent in popup.js) *)

(** An [img] element of the content region: its size in the layout, its
    [alt] and [src], and what the read-back of the canvas gives, the
    base64 text after the comma of the data URL; [None] when the image
    does not load, when the canvas is tainted by another origin or when
    anything else in the turn throws. *)
Record ImgElement := mkImg {
  img_width : Z;
  img_height : Z;
  img_alt : jsstring;
  img_src : jsstring;
  img_data : option jsstring
}.

(** The loop [for (const img of imgElements)] with its [break] and its
    [continue]. *)
Fixpoint sampleImages (imgElements : list ImgElement)
    (images_ : list ImageSample) (imageCount : nat) : list ImageSample :=
  match imgElements with
  | [] => images_
  | img :: rest =>
      if (5 <=? imageCount)%nat then images_
      else if (img_width img <? 100) || (img_height img <? 100)
      then sampleImages rest images_ imageCount
      else
        match img_data img with
        | Some base64Data =>
            sampleImages rest
              (images_ ++ [mkImage base64Data (lit "image/jpeg")
                             (img_alt img) (img_src img)])
              (S imageCount)
        | None => sampleImages rest images_ imageCount
        end
  end.

(** ** The click on the extract button (popup.js) *)

(** A value the program tests with [!] and [typeof]. *)
Inductive jsvalue :=
| VUndefined
| VNumber (n : Z)
| VString (s : jsstring).

(** [!!v] *)
Definition value_truthy (v : jsvalue) : bool :=
  match v with
  | VUndefined => false
  | VNumber n => negb (n =? 0)
  | VString s => truthy s
  end.

(** The active tab; [tab_url] is [None] when the tab has no [url]. *)
Record Tab := mkTab {
  tab_url : option jsstring;
  tab_id : jsvalue
}.

(** [tab.url?.startsWith('chrome://') || tab.url?.startsWith('about:')] *)
Definition internal_page (tab : Tab) : bool :=
  match tab_url tab with
  | Some u => startsWith (lit "chrome://") u || startsWith (lit "about:") u
  | None => false
  end.

(** [validateTab(tab)]; [None] is the [undefined] that the first element
    of an empty query result is, and reading its [url] throws. *)
Definition validateTab `{JsRuntime} (tab : option Tab) : outcome unit :=
  match tab with
  | None => Throw undefinedAccess
  | Some tab =>
      if internal_page tab then
        Throw (JsError
                 (lit "Cannot extract content from browser-internal pages."))
      else if negb (value_truthy (tab_id tab)) then
        Throw (JsError
                 (lit "Could not find active tab. Current URL: "
                    ++ match tab_url tab with
                       | Some u => if truthy u then u else lit "unknown"
                       | None => lit "unknown"
                       end))
      else
        match tab_id tab with
        | VNumber _ => Ok tt
        | _ => Throw (JsError (lit "Invalid tab ID received"))
        end
  end.

(** The options read from [storage.sync]; a key that is not stored reads
    as [undefined], which the program only tests for truth, so it is kept
    as [false] or as the empty string. *)
Record Settings := mkSettings {
  useGemini : bool;
  geminiApiKey : jsstring;
  geminiModel : jsstring
}.

(** What a click makes the popup do outside its own window. *)
Inductive popup_event :=
| PExecuteScript (tabId : jsvalue)
| PSendMessage (request : Request)       (* action [processAndDownload] *)
| PDownload (content_ filename : jsstring) (saveAs : bool)
| PStorageSet (urls : list HistoryEntry).

(** What the platform answers during one click: the active tab that the
    query resolves to, what the injected [getPageContent] resolves to
    ([None] for no result, [Throw] when the injection is rejected), the
    options that [storage.sync] resolves to, the clock, what
    [String.fromCharCode(...data)] does with the encoded bytes of a text
    (the [RangeError] of a call with more arguments than the engine
    takes, [None] when it takes them), and what [storage.local] does with
    the calls of [addExtractedUrl]. *)
Record Click := mkClick {
  click_tab : option Tab;
  click_script : outcome (option PageContent);
  click_settings : Settings;
  click_today : Z * Z * Z;
  click_now : Z;
  click_nowISO : jsstring;
  click_spread : jsstring -> option jserror;
  click_storage : StorageAnswer
}.

(** How the handler ends: [caught] is the error its [catch] block shows
    after [Error: ], [Ok] when the [try] block ran to its end. *)
Record ClickResult := mkClickResult {
  caught : outcome unit;
  popup_events : list popup_event;
  history : list HistoryEntry
}.

(** [downloadFile(filename, content)]: the download that it triggers, or
    the error of the spreading of the encoded bytes into
    [String.fromCharCode]; as in the background script the event keeps
    the text that the bytes of the data URL stand for. *)
Definition downloadFile (spread : jsstring -> option jserror)
    (filename content_ : jsstring) : outcome popup_event :=
  match spread content_ with
  | Some e => Throw e
  | None => Ok (PDownload (toWellFormed content_) filename true)
  end.

(** The listener of the click on the extract button; [turndown] is
    [turndownService.turndown], [urls] the stored history. *)
Definition extractClick `{JsRuntime} (turndown : jsstring -> jsstring)
    (c : Click) (urls : list HistoryEntry) : ClickResult :=
  match validateTab (click_tab c), click_tab c with
  | Throw e, _ => mkClickResult (Throw e) [] urls
  | Ok _, None => mkClickResult (Throw undefinedAccess) [] urls
  | Ok _, Some tab =>
      let injected := [PExecuteScript (tab_id tab)] in
      match click_script c with
      | Throw e => mkClickResult (Throw e) injected urls
      | Ok pageContent =>
          match pageContent with
          | None =>
              mkClickResult
                (Throw (JsError
                          (lit "Could not extract content from the page.")))
                injected urls
          | Some pageContent =>
              if negb (truthy (html pageContent)) then
                mkClickResult
                  (Throw (JsError
                            (lit "Could not extract content from the page.")))
                  injected urls
              else
                match tab_url tab with
                | None => mkClickResult (Throw undefinedAccess) injected urls
                | Some url_ =>
                    let filename :=
                      generateFilename (click_today c) pageContent url_ in
                    let category :=
                      detectCategory (title pageContent) url_ in
                    let markdown := turndown (html pageContent) in
                    let settings := click_settings c in
                    if useGemini settings && truthy (geminiApiKey settings)
                    then
                      mkClickResult (Ok tt)
                        (injected ++
                         [PSendMessage
                            (mkRequest pageContent url_ category markdown
                               filename (geminiApiKey settings)
                               (Some (if truthy (geminiModel settings)
                                      then geminiModel settings
                                      else lit "gemini-2.5-pro")))])
                        urls
                    else
                      match createMetadata (click_nowISO c) pageContent url_
                              category None with
                      | Throw e => mkClickResult (Throw e) injected urls
                      | Ok metadata =>
                          match downloadFile (click_spread c) filename
                                  (metadata ++ markdown) with
                          | Throw e => mkClickResult (Throw e) injected urls
                          | Ok triggered =>
                              let urls' :=
                                addExtractedUrl urls url_ (click_now c) in
                              match click_storage c with
                              | StorageServes =>
                                  mkClickResult (Ok tt)
                                    (injected ++
                                     [triggered; PStorageSet urls'])
                                    urls'
                              | GetRejects e =>
                                  mkClickResult (Throw e)
                                    (injected ++ [triggered]) urls
                              | SetRejects e =>
                                  mkClickResult (Throw e)
                                    (injected ++
                                     [triggered; PStorageSet urls'])
                                    urls
                              end
                          end
                      end
                end
          end
      end
  end.

(** ** Enrichment from the popup (improveWithGeminiIfEnabled in popup.js) *)

(** [improveWithGeminiIfEnabled(pageContent, url, category, markdown,
    images)]; [chrome.runtime.sendMessage] hands the message to the
    listener of the background script and resolves to its answer.  A
    reply whose field [improvedMarkdown] is [None], which
    [improveMarkdownWithGemini] never produces, is read as a field that is
    not set. *)
Definition improveWithGeminiIfEnabled `{JsRuntime} (env : Env)
    (settings : Settings) (pageContent : PageContent)
    (url_ category markdown : jsstring) (images_ : list ImageSample)
  : M jsstring :=
  let basic : M jsstring :=
    metadata <- lift (createMetadata (nowISO env) pageContent url_ category
                        None) ;;
    ret (metadata ++ markdown) in
  if negb (useGemini settings) || negb (truthy (geminiApiKey settings))
  then basic
  else
    returned <-
      try_catch
        (response <-
           onMessage env
             (MImproveWithGemini markdown (geminiApiKey settings) images_
                (Some (if truthy (geminiModel settings)
                       then geminiModel settings
                       else lit "gemini-2.5-pro"))) ;;
         match response with
         | None => throw undefinedAccess
         | Some (AImproved reply) =>
             match improvedMarkdown reply with
             | Some result =>
                 if truthy (content result) then
                   enrichedMetadata <-
                     lift (createMetadata (nowISO env) pageContent url_
                             category (Some result)) ;;
                   ret (Some (enrichedMetadata ++ content result))
                 else
                   basicMetadata <-
                     lift (createMetadata (nowISO env) pageContent url_
                             category None) ;;
                   ret (Some (basicMetadata ++ lit "[object Object]"))
             | None => ret None
             end
         | Some ASuccess | Some (AError _) => ret None
         end)
        (fun error => ret None) ;;
    match returned with
    | Some text => ret text
    | None => basic
    end.

(** ** The options page *)

Definition DEFAULT_MODELS : list jsstring :=
  [lit "gemini-2.5-pro"; lit "gemini-2.5-flash"; lit "gemini-2.5-flash-lite"].

Inductive status_type := StSuccess | StError | StInfo.

(** [addCustomModel()]: [input] is the text of the input field,
    [customModels] the stored list; the result is the list in the store
    afterwards and the status shown. *)
Definition addCustomModel (input : jsstring) (customModels : list jsstring)
  : list jsstring * (jsstring * status_type) :=
  let modelName := trim input in
  if negb (truthy modelName) then
    (customModels, (lit "Please enter a model name", StError))
  else if negb (startsWith (lit "gemini-") modelName) then
    (customModels,
     (lit "Model name should start with " ++ [DQUOTE] ++ lit "gemini-"
        ++ [DQUOTE], StError))
  else if existsb (str_eqb modelName) DEFAULT_MODELS
          || existsb (str_eqb modelName) customModels then
    (customModels, (lit "This model already exists", StError))
  else
    (customModels ++ [modelName],
     (lit "Custom model added successfully!", StSuccess)).

(** [removeCustomModel(event)] after the confirmation: the list in the
    store afterwards. *)
Definition removeCustomModel (modelName : jsstring)
    (customModels : list jsstring) : list jsstring :=
  List.filter (fun model => negb (str_eqb model modelName)) customModels.

(** [keepLast100()] of the options page: the list in the store afterwards
    and the status shown; the number in the message is read off the list
    after [splice]. *)
Definition keepLast100 (urls : list HistoryEntry)
  : list HistoryEntry * (jsstring * status_type) :=
  if (100 <? length urls)%nat then
    let urls' := take 100 (sort byLastExtractedDesc urls) in
    (urls',
     (lit "Kept last 100 URLs, removed "
        ++ String_of_Z (Z.of_nat (length urls') - 100)
        ++ lit " older entries.", StSuccess))
  else (urls, (lit "Already have 100 or fewer URLs in history.", StInfo)).
(** * Reference definitions

    The notions the properties below are stated with.  Those that restate
    an operation ([classify], [safe_title], [filename_spec],
    [double_quoted], [fallback_by_words]) follow the wording of the
    specification and are compared with the code in the next part. *)

(** ** Extraction history *)

(** The entry pushed for a URL seen for the first time. *)
Definition fresh (r : jsstring * Z) : HistoryEntry :=
  mkEntry (fst r) (snd r) (snd r) 1.

(** The list before the trim: the entry of [u] updated in place, or a
    fresh entry pushed at the end. *)
Definition upserted (urls : list HistoryEntry) (u : jsstring) (t : Z)
  : list HistoryEntry :=
  match findIndex (fun item => str_eqb (url item) u) urls with
  | Some i => alter bump_count i (alter (set_lastExtracted t) i urls)
  | None => urls ++ [fresh (u, t)]
  end.

(** The order the trim sorts by. *)
Definition newer_or_same (a b : HistoryEntry) : Prop :=
  lastExtracted b <= lastExtracted a.

(** The entries stored for a URL. *)
Definition entries_for (u : jsstring) (urls : list HistoryEntry)
  : list HistoryEntry :=
  List.filter (fun e => str_eqb (url e) u) urls.

(** The entry of a URL after one more extraction at [t]. *)
Definition touched (t : Z) (e : HistoryEntry) : HistoryEntry :=
  mkEntry (url e) (firstExtracted e) t
          ((if count e =? 0 then 1 else count e) + 1).

(** Whether an entry was last extracted at [t] or later. *)
Definition as_recent_as (t : Z) (e : HistoryEntry) : bool :=
  t <=? lastExtracted e.

(** ** Front matter *)

(** A string needs quoting when it holds a line feed or one of the
    characters of the class. *)
Definition needs_quoting (s : jsstring) : Prop :=
  Exists (fun c => c = LF \/ In c yaml_special) s.

(** Each double quote preceded by a backslash. *)
Fixpoint escape_quotes (s : jsstring) : jsstring :=
  match s with
  | [] => []
  | c :: s' =>
      if cu_eqb c DQUOTE then BACKSLASH :: DQUOTE :: escape_quotes s'
      else c :: escape_quotes s'
  end.

Definition double_quoted (s : jsstring) : jsstring :=
  [DQUOTE] ++ escape_quotes s ++ [DQUOTE].

(** The fifteen characters that ask for quotes: colon, double quote,
    single quote, bar, greater-than, braces, brackets, at, backtick, bang,
    percent, ampersand, star. *)
Definition quoting_characters : jsstring :=
  [58; 34; 39; 124; 62; 123; 125; 91; 93; 64; 96; 33; 37; 38; 42]%N.

(** Whether a string holds a line feed or one of the fifteen. *)
Definition asks_for_quotes (s : jsstring) : bool :=
  existsb (fun c => (c =? 10)%N || existsb (N.eqb c) quoting_characters) s.

(** A value that is quoted when it asks for quotes. *)
Definition yaml_value (s : jsstring) : jsstring :=
  if asks_for_quotes s then double_quoted s else s.

(** A bracketed array of such values, separated by a comma and a space. *)
Definition yaml_array (items : list jsstring) : jsstring :=
  match items with
  | [] => lit "[]"
  | _ => lit "[" ++ join (lit ", ") (map yaml_value items) ++ lit "]"
  end.

(** A text with two spaces after each of its line feeds. *)
Definition reindented (s : jsstring) : jsstring :=
  flat_map (fun c => if (c =? 10)%N then [10; 32; 32]%N else [c]) s.

(** The entries of the front matter, in their order, each with its value
    as it is written: the title, the author and the items of the four
    arrays are values quoted when they ask for it; the source, the two
    dates, the domain, the category, the difficulty level and the summary
    are written as they are given. *)
Definition front_matter_entries (page : PageContent)
    (source datePublished dateCaptured domain category : jsstring)
    (geminiData : option EnrichmentResult) : list (jsstring * jsstring) :=
  [ (lit "title", yaml_value (title page));
    (lit "source", source);
    (lit "date_published", datePublished);
    (lit "date_captured", dateCaptured);
    (lit "domain", domain);
    (lit "author",
     yaml_value (match author page with
                 | [] => lit "Unknown"
                 | a => a
                 end));
    (lit "category", category);
    (lit "technologies",
     yaml_array (from_option technologies [] geminiData));
    (lit "programming_languages",
     yaml_array (from_option programmingLanguages [] geminiData));
    (lit "tags", yaml_array (from_option tags [] geminiData));
    (lit "key_concepts", yaml_array (from_option keyConcepts [] geminiData));
    (lit "code_examples",
     if from_option codeExamples false geminiData then lit "true"
     else lit "false");
    (lit "difficulty_level",
     match from_option difficultyLevel [] geminiData with
     | [] => lit "unknown"
     | level => level
     end);
    (lit "summary",
     lit "|" ++ [10; 32; 32]%N
       ++ reindented (from_option summary [] geminiData)) ].

(** The front matter: the fence, the entries one to a line as key, colon,
    space and value, the closing fence, and the title as a heading. *)
Definition front_matter (page : PageContent)
    (entries : list (jsstring * jsstring)) : jsstring :=
  lit "```yaml" ++ [10%N] ++ lit "---" ++ [10%N]
    ++ flat_map (fun entry => fst entry ++ lit ": " ++ snd entry ++ [10%N])
         entries
    ++ lit "---" ++ [10%N] ++ lit "```" ++ [10%N] ++ [10%N]
    ++ lit "# " ++ title page ++ [10%N] ++ [10%N].

(** ** Category and file name *)

(** The categories in the order they are declared. *)
Definition declared_order : list jsstring :=
  [lit "architecture"; lit "testing"; lit "security"; lit "performance";
   lit "database"; lit "devops"; lit "frontend"; lit "backend"; lit "mobile";
   lit "ai_ml"; lit "programming"].

(** Some keyword of the list is a substring of either string. *)
Definition keyword_hit (titleLower urlLower : jsstring)
    (keywords : list jsstring) : bool :=
  existsb (fun k => includes titleLower k || includes urlLower k) keywords.

(** The first category with a hit, [general] when there is none. *)
Definition classify (titleLower urlLower : jsstring) : jsstring :=
  match List.find (fun entry => keyword_hit titleLower urlLower (snd entry))
                  patterns with
  | Some entry => fst entry
  | None => lit "general"
  end.

(** The class [a-z0-9_.-] itself. *)
Definition in_safe_class (c : codeunit) : bool :=
  ((97 <=? c) && (c <=? 122) || (48 <=? c) && (c <=? 57)
   || (c =? 95) || (c =? 46) || (c =? 45))%N.

(** The title with every character outside the class, letter case aside,
    replaced by an underscore, in lower case. *)
Definition safe_title (t : jsstring) : jsstring :=
  map (fun c => if in_safe_class (ascii_lower c) then ascii_lower c
                else 95%N) t.

(** The date of the file name: the publication date when there is one and
    it parses, the current date otherwise. *)
Definition filename_date `{JsRuntime} (today : Z * Z * Z)
    (page : PageContent) : Z * Z * Z :=
  match publicationDate page with
  | Some (c :: p) =>
      match dateLocal (c :: p) with
      | Some pubDate => pubDate
      | None => today
      end
  | _ => today
  end.

Definition filename_spec `{JsRuntime} (today : Z * Z * Z)
    (page : PageContent) (url_ : jsstring) : jsstring :=
  formatDate (filename_date today page) ++ lit "_"
    ++ detectCategory (title page) url_ ++ lit "_"
    ++ (match safe_title (title page) with
        | [] => lit "document"
        | st => st
        end)
    ++ lit ".md".




(** ** The fallback parser *)

(** The fallback parser by its description.  A label is read letter case
    aside, with its final s and its colon optional and an underscore or a
    white space between two words. *)
Definition optional_s_and_colon : regex :=
  [Opt (ci 115%N); Opt (exactly 58%N)].
Definition label_technologies : regex :=
  stri "Technologie" ++ optional_s_and_colon.
Definition label_languages : regex :=
  stri "Programming" ++ [One underscore_or_space] ++ stri "Language"
    ++ optional_s_and_colon.
Definition label_tags : regex := stri "Tag" ++ optional_s_and_colon.
Definition label_concepts : regex :=
  stri "Key" ++ [One underscore_or_space] ++ stri "Concept"
    ++ optional_s_and_colon.

(** The bracketed pattern of a label: the label, white space, and between
    brackets a list without a closing bracket, which is the group. *)
Definition bracketed_list (label : regex) : regex :=
  label ++ [Star is_space; One (exactly 91%N); GOpen;
            Star (other_than 93%N); GClose; One (exactly 93%N)].

(** The bare-line pattern of a label: the label, white space, and the
    rest of the line, not empty, which is the group. *)
Definition bare_line (label : regex) : regex :=
  label ++ [Star is_space; GOpen; One (other_than 10%N);
            Star (other_than 10%N); GClose].

Definition is_none_word `{JsRuntime} (x : jsstring) : bool :=
  str_eqb (toLowerCase x) (lit "none").

(** The items of a group: the brackets are dropped when the group holds
    an opening one, the rest is split on commas, the parts are trimmed,
    and the empty ones and the word none are left out. *)
Definition listed_items `{JsRuntime} (g : jsstring) : list jsstring :=
  List.filter (fun x => negb (str_eqb x []) && negb (is_none_word x))
    (map trim
       (split_on 44%N
          (if existsb (N.eqb 91%N) g
           then List.filter (fun c => negb ((c =? 91) || (c =? 93))%N) g
           else g))).

(** What a pattern gives on a text: the items of its group, none when it
    does not match or when the group is empty or the word none. *)
Definition match_items `{JsRuntime} (pattern : regex) (text : jsstring)
  : list jsstring :=
  match regex_match pattern text with
  | Some g => if str_eqb g [] || is_none_word g then [] else listed_items g
  | None => []
  end.

(** A field: what the bracketed pattern gives, and what the bare-line
    pattern gives when that is nothing. *)
Definition fallback_by_words `{JsRuntime} (label : regex) (text : jsstring)
  : list jsstring :=
  match match_items (bracketed_list label) text with
  | [] => match_items (bare_line label) text
  | items => items
  end.

(** ** Backoff and pipeline *)

(** The wait after the failed attempt [n], in seconds. *)
Definition delay_seconds (env : Env) (n : nat) : Q :=
  (inject_Z (2 * 2 ^ Z.of_nat n) + random env n)%Q.

(** What a failed attempt that is retried leaves in the trace. *)
Definition retried (env : Env) (model apiKey : jsstring)
    (parts : list part) (n : nat) : list event :=
  [EFetch model apiKey parts; ESetTimeout (delay_seconds env n * 1000)%Q].

(** The trace of a call that is answered 503 every time. *)
Definition overloaded_trace (env : Env) (model apiKey : jsstring)
    (parts : list part) : list event :=
  flat_map (retried env model apiKey parts) (seq 0 7)
    ++ [EFetch model apiKey parts].

Definition is_fetch (e : event) : bool :=
  match e with
  | EFetch _ _ _ => true
  | _ => false
  end.

Definition network_only (e : event) : bool :=
  match e with
  | EFetch _ _ _ | ESetTimeout _ => true
  | _ => false
  end.

(** From [w] to [w'] only requests and waits happened. *)
Definition quiet (w w' : World) : Prop :=
  extractedUrls w' = extractedUrls w /\
  exists es, events w' = events w ++ es /\ forallb network_only es = true.


(** ** Backoff in general *)

(** Whether the loop goes on after this answer when attempts are left: a
    503 or a network failure. *)
Definition retryable (o : FetchOutcome) : bool :=
  match o with
  | Responded r => negb (ok r) && (status r =? 503)
  | Rejected _ => true
  end.

(** The trace of [k] attempts that were retried. *)
Definition retry_trace (env : Env) (model apiKey : jsstring)
    (parts : list part) (k : nat) : list event :=
  flat_map (retried env model apiKey parts) (seq 0 k).

(** How the call ends on the answer to its last request. *)
Definition last_answer (o : FetchOutcome) : outcome (option Response) :=
  match o with
  | Responded r => Ok (Some r)
  | Rejected e => Throw e
  end.

(** ** Parsed lists *)

(** Neither the first nor the last code unit is white space. *)
Definition trimmed (x : jsstring) : Prop :=
  (forall c, head x = Some c -> is_space c = false) /\
  (forall c, last x = Some c -> is_space c = false).

(** What every item of a parsed list is: not empty, trimmed, free of
    commas and not the word none in any letter case. *)
Definition clean_item `{JsRuntime} (x : jsstring) : Prop :=
  x <> [] /\ trimmed x /\ ~ In COMMA x /\ toLowerCase x <> lit "none".

Definition list_fields (r : EnrichmentResult) : list (list jsstring) :=
  [technologies r; programmingLanguages r; tags r; keyConcepts r].

(** ** Patterns *)

(** No atom of the pattern opens or closes the group. *)
Definition groupless (re : regex) : bool :=
  forallb (fun a => match a with
                    | GOpen | GClose => false
                    | _ => true
                    end) re.

Definition is_lower_letter (c : codeunit) : bool :=
  ((97 <=? c) && (c <=? 122))%N.

Definition difficulty_levels : list jsstring :=
  [lit "beginner"; lit "intermediate"; lit "advanced"].

(** ** Values of the front matter *)

(** An item that is not empty and holds no comma. *)
Definition plain_item (x : jsstring) : Prop := x <> [] /\ ~ In COMMA x.

(** ** The end of a background run *)

(** What a run that delivers [body] leaves behind after its requests. *)
Definition delivered (env : Env) (request : Request)
    (urls : list HistoryEntry) (body : jsstring) : list event :=
  [EDownload body (req_filename request) true;
   EStorageSet (addExtractedUrl urls (req_url request) (now env));
   ENotify (lit "Page Extraction Complete")
     (lit "File " ++ [DQUOTE] ++ req_filename request ++ [DQUOTE]
        ++ lit " has been downloaded successfully.");
   ESendMessage true (req_filename request)].

(** What a run that fails with [e] leaves behind after its requests. *)
Definition reported (e : jserror) : list event :=
  [ENotify (lit "Extraction Failed") (lit "Error: " ++ message e);
   ESendMessage false (message e)].

(** What a run leaves behind after its requests when the download of
    [body] is triggered and the history then cannot be written: the
    download, the write if it was the one that was rejected, and the
    report of the failure. *)
Definition unrecorded (env : Env) (request : Request)
    (urls : list HistoryEntry) (body : jsstring) (e : jserror)
  : list event :=
  [EDownload body (req_filename request) true]
    ++ match storage env with
       | SetRejects _ =>
           [EStorageSet (addExtractedUrl urls (req_url request) (now env))]
       | _ => []
       end
    ++ reported e.

(** The storage rejects the calls of [addExtractedUrl] with [e]. *)
Definition storage_rejects (env : Env) (e : jserror) : Prop :=
  storage env = GetRejects e \/ storage env = SetRejects e.

(** ** Images *)

(** The sample an element gives when it is large enough and can be read
    back. *)
Definition sample_of (img : ImgElement) : option ImageSample :=
  if (img_width img <? 100) || (img_height img <? 100) then None
  else option_map
         (fun base64Data =>
            mkImage base64Data (lit "image/jpeg") (img_alt img) (img_src img))
         (img_data img).

(** ** Custom models *)

(** What the options page keeps true of the stored list: no name twice,
    and every name trimmed, starting with gemini- and different from the
    models that are built in. *)
Definition well_kept (customModels : list jsstring) : Prop :=
  NoDup customModels /\
  Forall (fun m => startsWith (lit "gemini-") m = true /\ trim m = m /\
                   ~ In m DEFAULT_MODELS) customModels.
(** ** Sample inputs

    A runtime, a network and requests on which the properties are run. *)

Fixpoint after_slashes (u : jsstring) : jsstring :=
  match u with
  | 47%N :: 47%N :: rest => rest
  | _ :: rest => after_slashes rest
  | [] => []
  end.

Fixpoint until_delimiter (u : jsstring) : jsstring :=
  match u with
  | [] => []
  | c :: rest =>
      if ((c =? 47) || (c =? 58) || (c =? 63) || (c =? 35))%N then []
      else c :: until_delimiter rest
  end.

(** A runtime for ASCII text: ASCII lower-casing, no date parsed from
    free text, ISO strings handed back as they are, and the host read off
    between the double slash and the next delimiter. *)
Definition sampleRuntime : JsRuntime := {|
  toLowerCase := map ascii_lower;
  dateLocal := fun _ => None;
  dateISO := fun s => Ok s;
  urlHostname := fun u => Ok (until_delimiter (after_slashes u));
  undefinedAccess := JsError (lit "Cannot read properties of undefined")
|}.


Definition sample_url (n : nat) : jsstring :=
  lit "https://x.test/page-" ++ String_of_Z (Z.of_nat n).

(** 101 distinct URLs recorded one millisecond apart. *)
Definition sample_reqs : list (jsstring * Z) :=
  map (fun n => (sample_url n, 1000 + Z.of_nat n)) (seq 1 101).

(** A history at capacity, its entries last extracted at 5001 .. 5100. *)
Definition full_history : list HistoryEntry :=
  map (fun n => mkEntry (sample_url n) (5000 + Z.of_nat n)
                        (5000 + Z.of_nat n) 1) (seq 1 100).

Definition new_url : jsstring := lit "https://x.test/new".

(** Whether the strings of a list are pairwise different. *)
Fixpoint distinctb (l : list jsstring) : bool :=
  match l with
  | [] => true
  | x :: l' => negb (existsb (str_eqb x) l') && distinctb l'
  end.

Definition sample_page : PageContent :=
  mkPage (lit "Notes: a draft") (lit "<p>Notes</p>") [] (lit "Unknown") None.


Definition sample_request (markdown apiKey : jsstring) : Request :=
  mkRequest sample_page (lit "https://x.test/a") (lit "testing") markdown
    (lit "2026-01-10_testing_notes__a_draft.md") apiKey (Some defaultModel).

(** A network that gives the same answer to every request, with the
    jitter one half. *)
Definition env_of (answer : FetchOutcome) : Env :=
  mkEnv (fun _ => answer) (fun _ => (1 # 2)%Q) 1768035600000
        (lit "2026-01-10T09:00:00.000Z") StorageServes.

Definition overloaded_response : Response :=
  mkResponse 503 (lit "overloaded") JsonUnexpected.

(** An answer with metadata and a Content section of spaces. *)
Definition blank_text : jsstring :=
  lit "## Metadata" ++ [LF] ++ lit "Tags: [api]" ++ [LF; LF]
    ++ lit "## Content" ++ [LF] ++ lit "   ".

Definition blank_response : Response :=
  mkResponse 200 (lit "(the JSON text)") (JsonText blank_text).

(** An answer with metadata that ends with the header of the Content
    section. *)
Definition cut_text : jsstring :=
  lit "## Metadata" ++ [LF] ++ lit "Tags: [api]" ++ [LF; LF]
    ++ lit "## Content".

Definition cut_response : Response :=
  mkResponse 200 (lit "(the JSON text)") (JsonText cut_text).


(** A history of two entries. *)
Definition short_history : list HistoryEntry :=
  [mkEntry (sample_url 1) 10 10 1; mkEntry (sample_url 2) 20 30 2].

(** A network that fails in the same way [k] times and then gives
    [answer], with the jitter one half. *)
Definition env_after (k : nat) (failure answer : FetchOutcome) : Env :=
  mkEnv (fun n => if (n <? k)%nat then failure else answer)
        (fun _ => (1 # 2)%Q) 1768035600000 (lit "2026-01-10T09:00:00.000Z")
        StorageServes.

Definition offline : FetchOutcome :=
  Rejected (JsError (lit "Failed to fetch")).

Definition denied_response : Response :=
  mkResponse 403 (lit "denied") JsonUnexpected.

(** A runtime like the sample one, but which takes no text for a date. *)
Definition datelessRuntime : JsRuntime := {|
  toLowerCase := map ascii_lower;
  dateLocal := fun _ => None;
  dateISO := fun _ => Throw (JsError (lit "Invalid time value"));
  urlHostname := fun u => Ok (until_delimiter (after_slashes u));
  undefinedAccess := JsError (lit "Cannot read properties of undefined")
|}.

(** The sample page with a publication date in free text. *)
Definition undated_page : PageContent :=
  mkPage (lit "Notes: a draft") (lit "<p>Notes</p>") [] (lit "Unknown")
    (Some (lit "last spring")).

Definition undated_request : Request :=
  mkRequest undated_page (lit "https://x.test/a") (lit "testing")
    (lit "# Notes") (lit "2026-01-10_testing_notes__a_draft.md") (lit "key")
    (Some defaultModel).

(** A click on the sample page in tab 7, with a key stored and no model
    chosen; [enabled] is the switch of the enrichment. *)
Definition sample_tab : Tab :=
  mkTab (Some (lit "https://x.test/a")) (VNumber 7).

Definition sample_click (enabled : bool) : Click :=
  mkClick (Some sample_tab) (Ok (Some sample_page))
    (mkSettings enabled (lit "key") []) (2026, 0, 10) 1768035600000
    (lit "2026-01-10T09:00:00.000Z") (fun _ => None) StorageServes.

(** A converter that makes the same text of every markup. *)
Definition sample_turndown (html_ : jsstring) : jsstring := lit "# Notes".

(** An answer in the expected format. *)
Definition full_text : jsstring :=
  lit "## Metadata" ++ [LF]
    ++ lit "Technologies: [Rocq, none , OCaml]" ++ [LF]
    ++ lit "Difficulty_Level: Advanced" ++ [LF]
    ++ lit "Summary:  Two lines. " ++ [LF; LF]
    ++ lit "## Content" ++ [LF] ++ lit "Body".

Definition full_response : Response :=
  mkResponse 200 (lit "(the JSON text)") (JsonText full_text).
(** * Properties *)

(** ** Strings *)

Lemma cu_eqb_eq (a b : codeunit) : cu_eqb a b = true <-> a = b.
Proof. unfold cu_eqb. apply N.eqb_eq. Qed.

Lemma str_eqb_eq (a b : jsstring) : str_eqb a b = true <-> a = b.
Proof.
  revert b. induction a as [|x a IH]; intros [|y b]; simpl;
    try (split; [discriminate | congruence]); [tauto|].
  rewrite andb_true_iff, cu_eqb_eq, IH. split.
  - intros [-> ->]. reflexivity.
  - intros [= -> ->]. auto.
Qed.

Lemma str_eqb_refl (a : jsstring) : str_eqb a a = true.
Proof. apply str_eqb_eq. reflexivity. Qed.

(** ** Extraction history *)

Section HistoryFacts.

Implicit Types (urls : list HistoryEntry) (u : jsstring) (t : Z).

Lemma addExtractedUrl_unfold urls u t :
  addExtractedUrl urls u t =
    if (maxUrls <? length (upserted urls u t))%nat
    then take maxUrls (sort byLastExtractedDesc (upserted urls u t))
    else upserted urls u t.
Proof. reflexivity. Qed.

Lemma sort_insert_perm {A} (cmp : A -> A -> Z) x (l : list A) :
  sort_insert cmp x l ≡ₚ x :: l.
Proof.
  induction l as [|y l IH]; simpl; [reflexivity|].
  destruct (cmp x y <=? 0); [reflexivity|].
  rewrite IH. apply Permutation_swap.
Qed.

Lemma sort_perm {A} (cmp : A -> A -> Z) (l : list A) : sort cmp l ≡ₚ l.
Proof.
  induction l as [|x l IH]; simpl; [reflexivity|].
  rewrite sort_insert_perm, IH. reflexivity.
Qed.

Lemma sort_insert_sorted x l :
  StronglySorted newer_or_same l ->
  StronglySorted newer_or_same (sort_insert byLastExtractedDesc x l).
Proof.
  induction 1 as [|y l Hs IH Hy]; simpl.
  - repeat constructor.
  - unfold byLastExtractedDesc at 1.
    destruct (Z.leb_spec (lastExtracted y - lastExtracted x) 0) as [Hle|Hgt].
    + constructor; [constructor; assumption|].
      constructor; [unfold newer_or_same; lia|].
      eapply Forall_impl; [exact Hy|].
      unfold newer_or_same. intros; lia.
    + constructor; [exact IH|].
      rewrite sort_insert_perm. constructor; [|exact Hy].
      unfold newer_or_same. lia.
Qed.

Lemma sort_sorted urls :
  StronglySorted newer_or_same (sort byLastExtractedDesc urls).
Proof.
  induction urls as [|x l IH]; simpl; [constructor|].
  apply sort_insert_sorted, IH.
Qed.

(** A list already in order is left as it is: the sort is stable. *)
Lemma sort_sorted_id urls :
  StronglySorted newer_or_same urls -> sort byLastExtractedDesc urls = urls.
Proof.
  induction 1 as [|x l Hs IH Hx]; simpl; [reflexivity|].
  rewrite IH. destruct l as [|y l]; simpl; [reflexivity|].
  inversion Hx as [|? ? Hxy _]; subst. unfold newer_or_same in Hxy.
  unfold byLastExtractedDesc.
  destruct (Z.leb_spec (lastExtracted y - lastExtracted x) 0); [reflexivity|lia].
Qed.

Lemma findIndex_None {A} (pred : A -> bool) (l : list A) :
  findIndex pred l = None <-> existsb pred l = false.
Proof.
  induction l as [|x l IH]; simpl; [tauto|].
  destruct (pred x); simpl; [split; discriminate|].
  destruct (findIndex pred l); simpl in *; split; intros E;
    try discriminate; try (apply IH; assumption); try reflexivity.
  destruct IH as [_ IH]. specialize (IH E). discriminate.
Qed.

Lemma findIndex_Some {A} (pred : A -> bool) (l : list A) i :
  findIndex pred l = Some i ->
  exists x, l !! i = Some x /\ pred x = true.
Proof.
  revert i. induction l as [|x l IH]; simpl; intros i; [discriminate|].
  destruct (pred x) eqn:E.
  - intros [= <-]. eauto.
  - destruct (findIndex pred l) as [j|]; simpl; [|discriminate].
    intros [= <-]. destruct (IH j eq_refl) as (y & ? & ?). eauto.
Qed.

Lemma upserted_length_absent urls u t :
  isUrlExtracted urls u = false ->
  upserted urls u t = urls ++ [fresh (u, t)].
Proof.
  intros E. unfold upserted, isUrlExtracted in *.
  apply findIndex_None in E. rewrite E. reflexivity.
Qed.

Lemma addExtractedUrl_bound urls u t :
  (length (addExtractedUrl urls u t) <= maxUrls)%nat.
Proof.
  rewrite addExtractedUrl_unfold.
  destruct (Nat.ltb_spec maxUrls (length (upserted urls u t))).
  - rewrite length_take. lia.
  - assumption.
Qed.

(** What a record operation drops is never more recent than what it keeps. *)
Lemma addExtractedUrl_keeps_recent urls u t :
  exists evicted,
    addExtractedUrl urls u t ++ evicted ≡ₚ upserted urls u t /\
    Forall (fun kept =>
              Forall (fun e => lastExtracted e <= lastExtracted kept) evicted)
           (addExtractedUrl urls u t).
Proof.
  rewrite addExtractedUrl_unfold.
  destruct (maxUrls <? length (upserted urls u t))%nat.
  - exists (drop maxUrls (sort byLastExtractedDesc (upserted urls u t))).
    rewrite take_drop. split; [apply sort_perm|].
    pose proof (sort_sorted (upserted urls u t)) as Hs.
    rewrite <- (take_drop maxUrls) in Hs.
    apply StronglySorted_app in Hs as (Hall & _ & _).
    apply Forall_forall. intros kept Hk.
    apply Forall_forall. intros e He.
    apply (Hall kept e); assumption.
  - exists []. rewrite app_nil_r. split; [reflexivity|].
    apply Forall_forall. intros; constructor.
Qed.

End HistoryFacts.

Section HistoryTheorems.

Implicit Types (urls : list HistoryEntry) (u : jsstring) (t : Z)
  (reqs : list (jsstring * Z)).

Lemma isUrlExtracted_app urls urls' u :
  isUrlExtracted (urls ++ urls') u
  = isUrlExtracted urls u || isUrlExtracted urls' u.
Proof. unfold isUrlExtracted. apply existsb_app. Qed.

Lemma addExtractedUrl_absent_room urls u t :
  isUrlExtracted urls u = false -> (length urls < maxUrls)%nat ->
  addExtractedUrl urls u t = urls ++ [fresh (u, t)].
Proof.
  intros E Hlen. rewrite addExtractedUrl_unfold, upserted_length_absent by exact E.
  destruct (Nat.ltb_spec maxUrls (length (urls ++ [fresh (u, t)]))) as [H|H];
    [|reflexivity].
  rewrite length_app in H. simpl in H. lia.
Qed.

Lemma record_all_app urls reqs reqs' :
  record_all urls (reqs ++ reqs') = record_all (record_all urls reqs) reqs'.
Proof.
  revert urls. induction reqs as [|[u t] reqs IH]; intros urls; simpl;
    [reflexivity | apply IH].
Qed.

(** While there is room, distinct new URLs are appended in order. *)
Lemma record_all_fresh reqs : forall urls,
  NoDup (map fst reqs) ->
  (forall r, In r reqs -> isUrlExtracted urls (fst r) = false) ->
  (length urls + length reqs <= maxUrls)%nat ->
  record_all urls reqs = urls ++ map fresh reqs.
Proof.
  induction reqs as [|[u t] reqs IH]; intros urls Hnd Habs Hlen; simpl.
  - rewrite app_nil_r. reflexivity.
  - simpl in Hlen. inversion Hnd as [|? ? Hnotin Hnd']; subst.
    rewrite addExtractedUrl_absent_room;
      [|apply (Habs (u, t)); left; reflexivity | lia].
    rewrite IH.
    + rewrite <- app_assoc. reflexivity.
    + exact Hnd'.
    + intros r Hr. rewrite isUrlExtracted_app, (Habs r) by (right; exact Hr).
      simpl. rewrite orb_false_r.
      destruct (str_eqb u (fst r)) eqn:E; [|reflexivity].
      apply str_eqb_eq in E. exfalso. apply Hnotin. rewrite E.
      apply list_elem_of_In, in_map. exact Hr.
    + rewrite length_app. simpl. lia.
Qed.

Lemma sort_insert_oldest x urls :
  Forall (fun y => lastExtracted x < lastExtracted y) urls ->
  sort_insert byLastExtractedDesc x urls = urls ++ [x].
Proof.
  induction 1 as [|y l Hy _ IH]; simpl; [reflexivity|].
  unfold byLastExtractedDesc at 1.
  destruct (Z.leb_spec (lastExtracted y - lastExtracted x) 0); [lia|].
  rewrite IH. reflexivity.
Qed.

(** Sorting entries whose instants strictly increase reverses them. *)
Lemma sort_increasing urls :
  StronglySorted (fun a b => lastExtracted a < lastExtracted b) urls ->
  sort byLastExtractedDesc urls = rev urls.
Proof.
  induction 1 as [|x l _ IH Hx]; simpl; [reflexivity|].
  rewrite IH. apply sort_insert_oldest.
  apply Forall_forall. intros y Hy. rewrite Forall_forall in Hx.
  apply Hx. apply list_elem_of_In, in_rev, list_elem_of_In. exact Hy.
Qed.

Lemma record_101 reqs :
  length reqs = S maxUrls -> NoDup (map fst reqs) ->
  record_all [] reqs
  = take maxUrls (sort byLastExtractedDesc (map fresh reqs)).
Proof.
  intros Hlen Hnd.
  rewrite <- (take_drop maxUrls reqs) at 1.
  rewrite record_all_app.
  assert (Hpre : record_all [] (take maxUrls reqs)
                 = map fresh (take maxUrls reqs)).
  { rewrite record_all_fresh; [reflexivity | | intros; reflexivity |].
    - rewrite <- (take_drop maxUrls reqs), map_app in Hnd.
      apply NoDup_app in Hnd. apply Hnd.
    - simpl. rewrite length_take. lia. }
  rewrite Hpre.
  destruct (drop maxUrls reqs) as [|[u t] rest] eqn:Hd.
  { apply (f_equal length) in Hd. rewrite length_drop in Hd. simpl in Hd. lia. }
  assert (rest = []) as ->.
  { apply (f_equal length) in Hd. rewrite length_drop in Hd. simpl in Hd.
    destruct rest; [reflexivity | simpl in Hd; lia]. }
  simpl. rewrite addExtractedUrl_unfold.
  assert (Habs : isUrlExtracted (map fresh (take maxUrls reqs)) u = false).
  { rewrite <- (take_drop maxUrls reqs), Hd, map_app in Hnd.
    apply NoDup_app in Hnd as (_ & Hdisj & _).
    unfold isUrlExtracted. apply not_true_is_false. intros E.
    apply existsb_exists in E as (e & He & Hu).
    apply str_eqb_eq in Hu. apply in_map_iff in He as (r & <- & Hr).
    apply (Hdisj (fst r)).
    - apply list_elem_of_In, in_map, Hr.
    - simpl in Hu. rewrite Hu. simpl. left. }
  rewrite upserted_length_absent by exact Habs.
  assert (Heq : map fresh (take maxUrls reqs) ++ [fresh (u, t)] = map fresh reqs).
  { rewrite <- (take_drop maxUrls reqs) at 2. rewrite Hd, map_app. reflexivity. }
  rewrite Heq, length_map, Hlen.
  destruct (Nat.ltb_spec maxUrls (S maxUrls)); [reflexivity | lia].
Qed.

(** C4. After any record operation the history holds at most 100 entries,
    and what a record operation drops is never more recent than what it
    keeps.  Recording 101 distinct URLs from the empty history leaves
    exactly 100 entries: all the entries made but one, and that one has
    the least [lastExtracted]; when the instants strictly increase it is
    the first URL recorded, the oldest. *)
Theorem history_bounded_most_recent reqs :
  length reqs = 101%nat ->
  NoDup (map fst reqs) ->
  (forall urls u t, (length (addExtractedUrl urls u t) <= 100)%nat) /\
  (forall urls u t, exists evicted,
      addExtractedUrl urls u t ++ evicted ≡ₚ upserted urls u t /\
      Forall (fun kept =>
                Forall (fun e => lastExtracted e <= lastExtracted kept) evicted)
             (addExtractedUrl urls u t)) /\
  length (record_all [] reqs) = 100%nat /\
  (exists evicted,
      evicted :: record_all [] reqs ≡ₚ map fresh reqs /\
      Forall (fun kept => lastExtracted evicted <= lastExtracted kept)
             (record_all [] reqs)) /\
  (StronglySorted (fun a b => snd a < snd b) reqs ->
   record_all [] reqs = rev (map fresh (drop 1 reqs))).
Proof.
  intros Hlen Hnd.
  split; [exact addExtractedUrl_bound|].
  split; [exact addExtractedUrl_keeps_recent|].
  rewrite record_101 by assumption.
  set (s := sort byLastExtractedDesc (map fresh reqs)).
  assert (Hls : length s = 101%nat).
  { unfold s. rewrite (Permutation_length (sort_perm _ _)), length_map. exact Hlen. }
  split; [rewrite length_take; unfold maxUrls; lia|].
  split.
  - destruct (drop maxUrls s) as [|e rest] eqn:Hd.
    { apply (f_equal length) in Hd. rewrite length_drop, Hls in Hd.
      discriminate Hd. }
    assert (rest = []) as ->.
    { apply (f_equal length) in Hd. rewrite length_drop, Hls in Hd.
      destruct rest; [reflexivity | discriminate Hd]. }
    exists e. split.
    + rewrite <- (sort_perm byLastExtractedDesc (map fresh reqs)). fold s.
      rewrite <- (take_drop maxUrls s) at 2. rewrite Hd.
      apply Permutation_cons_append.
    + pose proof (sort_sorted (map fresh reqs)) as Hs. fold s in Hs.
      rewrite <- (take_drop maxUrls s), Hd in Hs.
      apply StronglySorted_app in Hs as (Hall & _ & _).
      apply Forall_forall. intros kept Hk.
      apply (Hall kept e Hk). left.
  - intros Hinc. unfold s. rewrite sort_increasing.
    + destruct reqs as [|r reqs']; [discriminate Hlen|].
      simpl. rewrite drop_0, take_app_length'; [reflexivity|].
      rewrite length_rev, length_map. simpl in Hlen. unfold maxUrls. lia.
    + clear -Hinc. induction Hinc as [|r l _ IH Hr]; simpl; constructor;
        [exact IH|].
      apply Forall_forall. intros e He.
      apply list_elem_of_In, in_map_iff in He as (r' & <- & Hr').
      rewrite Forall_forall in Hr. apply Hr, list_elem_of_In, Hr'.
Qed.

End HistoryTheorems.

Section UpsertTheorems.

Implicit Types (urls : list HistoryEntry) (u : jsstring) (t : Z).

Lemma bump_set_touched t e : bump_count (set_lastExtracted t e) = touched t e.
Proof. reflexivity. Qed.

Lemma filter_perm {A} (f : A -> bool) (l l' : list A) :
  l ≡ₚ l' -> List.filter f l ≡ₚ List.filter f l'.
Proof.
  induction 1 as [|x l l' _ IH|x y l|l l' l'' _ IH1 _ IH2]; simpl.
  - reflexivity.
  - destruct (f x); [constructor|]; exact IH.
  - destruct (f x), (f y); try reflexivity. apply Permutation_swap.
  - etransitivity; eassumption.
Qed.

Lemma entries_for_absent urls u :
  isUrlExtracted urls u = false -> entries_for u urls = [].
Proof.
  unfold isUrlExtracted, entries_for.
  induction urls as [|e l IH]; simpl; [reflexivity|].
  destruct (str_eqb (url e) u); simpl; [discriminate | exact IH].
Qed.

Lemma findIndex_present urls u :
  isUrlExtracted urls u = true ->
  exists i, findIndex (fun item => str_eqb (url item) u) urls = Some i.
Proof.
  intros E. destruct (findIndex _ urls) as [i|] eqn:F; [eauto|].
  apply findIndex_None in F. unfold isUrlExtracted in E. congruence.
Qed.

Lemma addExtractedUrl_present urls u t i :
  findIndex (fun item => str_eqb (url item) u) urls = Some i ->
  (length urls <= maxUrls)%nat ->
  addExtractedUrl urls u t = alter (touched t) i urls.
Proof.
  intros F Hlen. rewrite addExtractedUrl_unfold. unfold upserted. rewrite F.
  rewrite list_alter_alter_eq.
  rewrite !length_alter.
  destruct (Nat.ltb_spec maxUrls (length urls)); [lia|].
  apply list_alter_ext; [|reflexivity]. intros; reflexivity.
Qed.

(** Updating the first entry of a URL in place updates the head of the
    entries stored for it. *)
Lemma entries_for_alter urls u i f :
  findIndex (fun item => str_eqb (url item) u) urls = Some i ->
  (forall e, url (f e) = url e) ->
  entries_for u (alter f i urls)
  = match entries_for u urls with
    | e :: rest => f e :: rest
    | [] => []
    end.
Proof.
  intros F Hf. revert i F. unfold entries_for.
  induction urls as [|e l IH]; intros i; simpl; [discriminate|].
  destruct (str_eqb (url e) u) eqn:E.
  - intros [= <-]. simpl. rewrite Hf, E. reflexivity.
  - destruct (findIndex _ l) as [j|]; simpl; [|discriminate].
    intros [= <-]. simpl. rewrite E. apply IH. reflexivity.
Qed.

(** C10. Recording a URL that already has an entry, in a history of at
    most 100 entries, rewrites that entry alone: its [url] and
    [firstExtracted] stay, its [lastExtracted] becomes the instant of the
    call and its [count] grows by one; every other position of the list
    holds what it held, and the list keeps its length. *)
Theorem record_existing_changes_one_entry urls u t :
  isUrlExtracted urls u = true ->
  (length urls <= 100)%nat ->
  exists i e,
    urls !! i = Some e /\ url e = u /\
    addExtractedUrl urls u t
    = <[i := mkEntry (url e) (firstExtracted e) t
                     ((if count e =? 0 then 1 else count e) + 1)]> urls /\
    (forall j, j <> i -> addExtractedUrl urls u t !! j = urls !! j) /\
    length (addExtractedUrl urls u t) = length urls.
Proof.
  intros E Hlen. destruct (findIndex_present urls u E) as [i F].
  destruct (findIndex_Some _ _ _ F) as (e & Hi & Hu).
  apply str_eqb_eq in Hu.
  exists i, e. rewrite (addExtractedUrl_present urls u t i F Hlen).
  repeat split; try assumption.
  - rewrite list_insert_alter. apply list_alter_ext; [|reflexivity].
    intros x Hx. rewrite Hi in Hx. injection Hx as <-. reflexivity.
  - intros j Hj. apply list_lookup_alter_ne. congruence.
  - apply length_alter.
Qed.

(** C5 (amended). Recording a URL that has no entry pushes one entry with
    count 1 and both instants equal to the instant of the call, and the
    trim keeps it whenever fewer than 100 stored entries are as recent as
    that instant (so always below 100 entries); recording the same URL
    again turns that entry into one with count 2 and the new
    [lastExtracted], adds no entry and leaves one entry for the URL. *)
Theorem record_twice_upserts urls u t1 t2 :
  isUrlExtracted urls u = false ->
  (length (List.filter (as_recent_as t1) urls) < 100)%nat ->
  entries_for u (addExtractedUrl urls u t1) = [mkEntry u t1 t1 1] /\
  entries_for u (addExtractedUrl (addExtractedUrl urls u t1) u t2)
  = [mkEntry u t1 t2 2] /\
  length (addExtractedUrl (addExtractedUrl urls u t1) u t2)
  = length (addExtractedUrl urls u t1) /\
  ((length urls < 100)%nat ->
   addExtractedUrl urls u t1 = urls ++ [mkEntry u t1 t1 1]).
Proof.
  intros Habs Hfew.
  set (new := mkEntry u t1 t1 1).
  assert (H1 : entries_for u (addExtractedUrl urls u t1) = [new]).
  { rewrite addExtractedUrl_unfold, upserted_length_absent by exact Habs.
    fold new. change (fresh (u, t1)) with new.
    assert (Hall : entries_for u (urls ++ [new]) = [new]).
    { unfold entries_for. rewrite List.filter_app.
      fold (entries_for u urls). rewrite entries_for_absent by exact Habs.
      simpl. rewrite str_eqb_refl. reflexivity. }
    destruct (Nat.ltb_spec maxUrls (length (urls ++ [new]))) as [Hover|_];
      [|exact Hall].
    set (s := sort byLastExtractedDesc (urls ++ [new])).
    assert (Hs : entries_for u s = [new]).
    { apply Permutation_singleton_r. rewrite <- Hall.
      apply filter_perm, sort_perm. }
    rewrite <- (take_drop maxUrls s) in Hs. unfold entries_for in Hs.
    rewrite List.filter_app in Hs.
    fold (entries_for u (take maxUrls s)) in Hs.
    destruct (entries_for u (take maxUrls s)) as [|x rest] eqn:Ht.
    - exfalso. simpl in Hs.
      assert (Hin : In new (drop maxUrls s)).
      { apply (proj1 (List.filter_In (fun e => str_eqb (url e) u) new
                         (drop maxUrls s))).
        rewrite Hs. left. reflexivity. }
      pose proof (sort_sorted (urls ++ [new])) as Hst. fold s in Hst.
      rewrite <- (take_drop maxUrls s) in Hst.
      apply StronglySorted_app in Hst as (Hord & _ & _).
      set (P := as_recent_as t1).
      assert (Htake : List.filter P (take maxUrls s) = take maxUrls s).
      { apply forallb_filter_id, forallb_forall. intros k Hk.
        apply list_elem_of_In in Hk.
        specialize (Hord k new Hk (proj2 (list_elem_of_In _ _) Hin)).
        unfold P, as_recent_as, newer_or_same in *. simpl in Hord.
        apply Z.leb_le. exact Hord. }
      assert (Hdrop : (1 <= length (List.filter P (drop maxUrls s)))%nat).
      { assert (In new (List.filter P (drop maxUrls s))) as Hn.
        { apply List.filter_In. split; [exact Hin|]. unfold P, as_recent_as.
          simpl. apply Z.leb_refl. }
        destruct (List.filter P (drop maxUrls s)); [destruct Hn | simpl; lia]. }
      assert (Hcount : length (List.filter P s)
                       = S (length (List.filter P urls))).
      { unfold s.
        rewrite (Permutation_length
                   (filter_perm P _ _ (sort_perm byLastExtractedDesc (urls ++ [new])))).
        rewrite List.filter_app, length_app. simpl. unfold P at 2.
        unfold as_recent_as. simpl. rewrite Z.leb_refl. simpl. lia. }
      rewrite <- (take_drop maxUrls s), List.filter_app, length_app, Htake in Hcount.
      rewrite length_take in Hcount.
      assert (length s = length (urls ++ [new])) as Hls.
      { apply Permutation_length, sort_perm. }
      unfold P in *. unfold maxUrls in *. lia.
    - destruct rest; simpl in Hs; [|discriminate Hs].
      destruct (List.filter _ (drop maxUrls s)); [|discriminate Hs].
      exact Hs. }
  pose proof (addExtractedUrl_bound urls u t1) as Hb.
  assert (Hpres : isUrlExtracted (addExtractedUrl urls u t1) u = true).
  { unfold isUrlExtracted. apply existsb_exists. exists new. split.
    - apply (proj1 (List.filter_In (fun e => str_eqb (url e) u) new _)).
      fold (entries_for u (addExtractedUrl urls u t1)). rewrite H1. left.
      reflexivity.
    - apply str_eqb_refl. }
  destruct (findIndex_present _ _ Hpres) as [i F].
  rewrite (addExtractedUrl_present _ u t2 i F Hb).
  split; [exact H1|]. split; [|split].
  - rewrite (entries_for_alter _ u i (touched t2) F) by reflexivity.
    rewrite H1. reflexivity.
  - apply length_alter.
  - intros Hroom. apply addExtractedUrl_absent_room; assumption.
Qed.

End UpsertTheorems.

(** ** Front matter: escaping *)

Section EscapeYaml.

Lemma replace_quotes_escape s :
  replace_all (fun c => cu_eqb c DQUOTE) [BACKSLASH; DQUOTE] s
  = escape_quotes s.
Proof.
  unfold replace_all. induction s as [|c s IH]; simpl; [reflexivity|].
  rewrite IH. destruct (cu_eqb c DQUOTE); reflexivity.
Qed.

Lemma escape_quotes_length s : (length s <= length (escape_quotes s))%nat.
Proof.
  induction s as [|c s IH]; simpl; [lia|].
  destruct (cu_eqb c DQUOTE); simpl; lia.
Qed.

Lemma includes_LF s : includes s [LF] = true <-> In LF s.
Proof.
  induction s as [|c s IH]; cbn [includes startsWith In orb andb].
  - split; [discriminate | tauto].
  - rewrite orb_true_iff, IH, andb_true_r, cu_eqb_eq.
    split; intros [E|E]; auto.
Qed.

Lemma is_yaml_special_In c : is_yaml_special c = true <-> In c yaml_special.
Proof.
  unfold is_yaml_special. rewrite existsb_exists. split.
  - intros (x & Hx & E). apply cu_eqb_eq in E. subst. exact Hx.
  - intros Hc. exists c. split; [exact Hc | apply cu_eqb_eq; reflexivity].
Qed.

Lemma quoting_test s :
  existsb is_yaml_special s || includes s [LF] = true <-> needs_quoting s.
Proof.
  unfold needs_quoting.
  rewrite orb_true_iff, includes_LF, existsb_exists, Exists_exists. split.
  - intros [(c & Hc & Hs)|H].
    + exists c. split; [apply list_elem_of_In, Hc|].
      right. apply is_yaml_special_In, Hs.
    + exists LF. split; [apply list_elem_of_In, H | left; reflexivity].
  - intros (c & Hc & [->|Hs]).
    + right. apply list_elem_of_In, Hc.
    + left. exists c. split; [apply list_elem_of_In, Hc|].
      apply is_yaml_special_In, Hs.
Qed.

(** [escapeYaml] tests for exactly the fifteen characters colon, double
    quote, single quote, bar, greater-than, braces, brackets, at,
    backtick, bang, percent, ampersand and star, and for a line feed; its
    result is the string between double quotes with every double quote
    inside preceded by a backslash if and only if the string holds one of
    them, and a string that holds none is returned as it is. *)
Lemma escapeYaml_by_test (s : jsstring) :
  yaml_special
  = [58; 34; 39; 124; 62; 123; 125; 91; 93; 64; 96; 33; 37; 38; 42]%N /\
  (escapeYaml s = double_quoted s <-> needs_quoting s) /\
  (~ needs_quoting s -> escapeYaml s = s).
Proof.
  split; [reflexivity|].
  assert (Hplain : ~ needs_quoting s -> escapeYaml s = s).
  { intros Hn. unfold escapeYaml. destruct s as [|c s]; [reflexivity|].
    simpl truthy. cbn [negb].
    destruct (existsb is_yaml_special (c :: s) || includes (c :: s) [LF]) eqn:E;
      [|reflexivity].
    exfalso. apply Hn, quoting_test, E. }
  split; [|exact Hplain]. split.
  - intros Hq. destruct (existsb is_yaml_special s || includes s [LF]) eqn:E.
    + apply quoting_test, E.
    + exfalso.
      assert (Hn : ~ needs_quoting s).
      { intros Hn. apply quoting_test in Hn. congruence. }
      rewrite (Hplain Hn) in Hq. apply (f_equal length) in Hq.
      unfold double_quoted in Hq. rewrite !length_app in Hq. simpl in Hq.
      pose proof (escape_quotes_length s). lia.
  - intros Hn. pose proof (proj2 (quoting_test s) Hn) as E.
    unfold escapeYaml. destruct s as [|c s].
    + inversion Hn.
    + simpl truthy. cbn [negb]. rewrite E, replace_quotes_escape. reflexivity.
Qed.

(** The renderer passes the title, the author and every item of the four
    lists through [escapeYaml]; the other fields are written as given. *)
Lemma formatYamlArray_items (arr : list jsstring) :
  arr <> [] ->
  formatYamlArray arr = lit "[" ++ join (lit ", ") (map escapeYaml arr) ++ lit "]".
Proof. destruct arr; [congruence | reflexivity]. Qed.

Lemma createMetadata_head `{JsRuntime} dateCaptured page url_ category
    geminiData metadata :
  createMetadata dateCaptured page url_ category geminiData = Ok metadata ->
  exists rest,
    metadata
    = lit "```yaml" ++ [LF] ++ lit "---" ++ [LF]
        ++ lit "title: " ++ escapeYaml (title page) ++ [LF]
        ++ lit "source: " ++ url_ ++ [LF] ++ rest.
Proof.
  unfold createMetadata.
  destruct (match publicationDate page with
            | Some p => if truthy p then Some p else None
            | None => None
            end) as [p|]; [destruct (dateISO p)|];
    destruct (urlHostname url_); try discriminate;
    intros [= <-]; eexists; reflexivity.
Qed.

Lemma quoting_test_asks (s : jsstring) :
  existsb is_yaml_special s || includes s [LF] = asks_for_quotes s.
Proof.
  unfold asks_for_quotes. induction s as [|c s IH]; [reflexivity|].
  cbn [existsb includes startsWith]. rewrite <- IH, andb_true_r.
  change (is_yaml_special c) with (existsb (N.eqb c) quoting_characters).
  change (cu_eqb LF c) with (10 =? c)%N. rewrite (N.eqb_sym 10 c).
  destruct (c =? 10)%N, (existsb (N.eqb c) quoting_characters),
    (existsb is_yaml_special s), (includes s [LF]); reflexivity.
Qed.

Lemma escapeYaml_yaml_value (s : jsstring) : escapeYaml s = yaml_value s.
Proof.
  unfold escapeYaml, yaml_value. rewrite quoting_test_asks.
  destruct s as [|c s]; [reflexivity|]. cbn [truthy negb].
  rewrite replace_quotes_escape. reflexivity.
Qed.

Lemma formatYamlArray_yaml_array (arr : list jsstring) :
  formatYamlArray arr = yaml_array arr.
Proof.
  destruct arr as [|x arr]; [reflexivity|].
  unfold formatYamlArray, yaml_array.
  rewrite (map_ext _ _ escapeYaml_yaml_value). reflexivity.
Qed.

Lemma asks_for_quotes_needs (s : jsstring) :
  asks_for_quotes s = true <-> needs_quoting s.
Proof. rewrite <- quoting_test_asks. apply quoting_test. Qed.

(** C8 (amended).  The front matter is the fence, fourteen
    entries written one to a line as key, colon, space and value, the
    closing fence and the title as a heading.  The title, the author
    (Unknown for none) and every item of the four arrays are written
    between double quotes, with every double quote inside preceded by a
    backslash, if and only if they hold a line feed or one of the fifteen
    characters colon, double quote, single quote, bar, greater-than,
    braces, brackets, at, backtick, bang, percent, ampersand and star, and
    are written as they are otherwise.  The source, the two dates, the
    domain, the category, the difficulty level and the summary are written
    as they are given, whatever they hold; the summary has two spaces put
    after each of its line feeds. *)
Theorem createMetadata_quotes_title_author_items `{JsRuntime}
    (dateCaptured : jsstring) (page : PageContent) (url_ category : jsstring)
    (geminiData : option EnrichmentResult) (metadata : jsstring) :
  createMetadata dateCaptured page url_ category geminiData = Ok metadata ->
  (exists datePublished hostname,
      urlHostname url_ = Ok hostname /\
      (datePublished = lit "unknown" \/
       exists p, publicationDate page = Some p /\
                 dateISO p = Ok datePublished) /\
      metadata
      = front_matter page
          (front_matter_entries page url_ datePublished dateCaptured
             hostname category geminiData)) /\
  (forall s, yaml_value s = double_quoted s <-> asks_for_quotes s = true) /\
  (forall s, asks_for_quotes s = false -> yaml_value s = s) /\
  (forall s, asks_for_quotes s = true
             <-> exists c, In c s /\ (c = 10%N \/ In c quoting_characters)).
Proof.
  intros Hm. split; [|split; [|split]].
  - revert Hm. unfold createMetadata.
    set (published := match publicationDate page with
                      | Some p => if truthy p then Some p else None
                      | None => None
                      end).
    assert (Hpub : forall p, published = Some p -> publicationDate page = Some p).
    { intros p. unfold published.
      destruct (publicationDate page) as [q|]; [|discriminate].
      destruct (truthy q); [tauto | discriminate]. }
    destruct published as [p|].
    + destruct (dateISO p) as [iso|e] eqn:Eiso; [|discriminate].
      destruct (urlHostname url_) as [hostname|e]; [|discriminate].
      intros [= <-].
      exists (if truthy iso then iso else lit "unknown"), hostname.
      split; [reflexivity|]. split.
      * destruct iso as [|c iso]; [left; reflexivity|].
        right. exists p. split; [apply Hpub; reflexivity | exact Eiso].
      * unfold front_matter, front_matter_entries.
        rewrite !escapeYaml_yaml_value, !formatYamlArray_yaml_array.
        cbn [flat_map fst snd]. rewrite <- !app_assoc.
        destruct (author page), geminiData as [g|]; cbn [from_option];
          try destruct (difficultyLevel g); reflexivity.
    + destruct (urlHostname url_) as [hostname|e]; [|discriminate].
      intros [= <-]. exists (lit "unknown"), hostname.
      split; [reflexivity|]. split; [left; reflexivity|].
      unfold front_matter, front_matter_entries.
      rewrite !escapeYaml_yaml_value, !formatYamlArray_yaml_array.
      cbn [flat_map fst snd]. rewrite <- !app_assoc.
      destruct (author page), geminiData as [g|]; cbn [from_option];
        try destruct (difficultyLevel g); reflexivity.
  - intros s. rewrite <- escapeYaml_yaml_value, asks_for_quotes_needs.
    apply escapeYaml_by_test.
  - intros s Hs. unfold yaml_value. rewrite Hs. reflexivity.
  - intros s. unfold asks_for_quotes. rewrite existsb_exists.
    split; intros (c & Hc & Hq); exists c; (split; [exact Hc|]).
    + apply orb_true_iff in Hq as [Hq|Hq].
      * left. apply N.eqb_eq, Hq.
      * right. apply existsb_exists in Hq as (x & Hx & E).
        apply N.eqb_eq in E. subst. exact Hx.
    + apply orb_true_iff. destruct Hq as [->|Hq]; [left; reflexivity|].
      right. apply existsb_exists. exists c.
      split; [exact Hq | apply N.eqb_refl].
Qed.

End EscapeYaml.

(** ** Category and file name *)

Section Classifier.
Context `{JsRuntime}.

Lemma scan_keywords_hit tl ul kws :
  scan_keywords tl ul kws = keyword_hit tl ul kws.
Proof.
  unfold keyword_hit. induction kws as [|k kws IH]; simpl; [reflexivity|].
  rewrite IH. destruct (includes tl k || includes ul k); reflexivity.
Qed.

Lemma scan_categories_find tl ul entries :
  scan_categories tl ul entries
  = option_map fst
      (List.find (fun entry => keyword_hit tl ul (snd entry)) entries).
Proof.
  induction entries as [|[c kws] entries IH]; simpl; [reflexivity|].
  rewrite scan_keywords_hit, IH.
  destruct (keyword_hit tl ul kws); reflexivity.
Qed.

(** C6. The categories are scanned in the declared order, architecture
    first and programming last; [detectCategory] depends on the title and
    the URL through their lower-cased forms only and returns the first
    category one of whose keywords is a substring of either, [general]
    when there is none.  For the title of the example and the URL
    https://x.test/a it returns architecture, although testing (by the
    URL) and devops (by the title) have a keyword that occurs too. *)
Theorem detectCategory_first_match :
  lower_on_ascii ->
  map fst patterns = declared_order /\
  (forall title_ url_,
      detectCategory title_ url_
      = classify (toLowerCase title_) (toLowerCase url_)) /\
  detectCategory (lit "Building Microservice Architecture with Docker")
                 (lit "https://x.test/a") = lit "architecture" /\
  (exists testing_keywords devops_keywords,
      patterns !! 1%nat = Some (lit "testing", testing_keywords) /\
      patterns !! 5%nat = Some (lit "devops", devops_keywords) /\
      keyword_hit
        (toLowerCase (lit "Building Microservice Architecture with Docker"))
        (toLowerCase (lit "https://x.test/a")) testing_keywords = true /\
      keyword_hit
        (toLowerCase (lit "Building Microservice Architecture with Docker"))
        (toLowerCase (lit "https://x.test/a")) devops_keywords = true).
Proof.
  intros Hlow. unfold lower_on_ascii in Hlow.
  split; [reflexivity|].
  assert (Hgen : forall title_ url_,
             detectCategory title_ url_
             = classify (toLowerCase title_) (toLowerCase url_)).
  { intros. unfold detectCategory, classify. rewrite scan_categories_find.
    destruct (List.find _ patterns); reflexivity. }
  split; [exact Hgen|]. split.
  - rewrite Hgen, !Hlow by reflexivity. vm_compute. reflexivity.
  - eexists _, _. split; [reflexivity|]. split; [reflexivity|].
    rewrite !Hlow by reflexivity. split; vm_compute; reflexivity.
Qed.

End Classifier.

Section Filename.
Context `{JsRuntime}.

Lemma forallb_range (f : Z -> bool) (lo hi : Z) :
  forallb f (map (fun i => lo + Z.of_nat i) (seq 0 (Z.to_nat (hi - lo))))
  = true ->
  forall z, lo <= z < hi -> f z = true.
Proof.
  intros Hall z Hz. rewrite forallb_forall in Hall. apply Hall.
  apply in_map_iff. exists (Z.to_nat (z - lo)). split; [lia|].
  apply in_seq. lia.
Qed.


Lemma four_digits y :
  1000 <= y <= 9999 ->
  String_of_Z y
  = [digit (y / 1000); digit (y / 100 mod 10); digit (y / 10 mod 10);
     digit (y mod 10)].
Proof.
  intros Hy. apply str_eqb_eq.
  apply (forallb_range
           (fun y => str_eqb (String_of_Z y)
                       [digit (y / 1000); digit (y / 100 mod 10);
                        digit (y / 10 mod 10); digit (y mod 10)]) 1000 10000);
    [vm_compute; reflexivity | lia].
Qed.

Lemma replaced_title_ascii (t : jsstring) :
  forallb is_ascii
    (replace_all (fun c => negb (filename_safe c)) (lit "_") t) = true.
Proof.
  unfold replace_all. induction t as [|c t IH]; simpl; [reflexivity|].
  destruct (filename_safe c) eqn:E; simpl.
  - rewrite IH, andb_true_r. unfold filename_safe in E. unfold is_ascii.
    apply N.ltb_lt.
    repeat (apply orb_true_iff in E as [E|E]);
      try (apply andb_true_iff in E as [_ E]);
      try (apply N.leb_le in E); try (apply N.eqb_eq in E); lia.
  - exact IH.
Qed.

Lemma safe_class_lower (c : codeunit) :
  filename_safe c = in_safe_class (ascii_lower c).
Proof.
  destruct (N.ltb_spec c 128) as [Hlt|Hge].
  - assert (Hall : forallb (fun n => Bool.eqb (filename_safe (N.of_nat n))
                                       (in_safe_class (ascii_lower (N.of_nat n))))
                     (seq 0 128) = true) by (vm_compute; reflexivity).
    rewrite forallb_forall in Hall.
    specialize (Hall (N.to_nat c)). rewrite N2Nat.id in Hall.
    apply Bool.eqb_prop, Hall, in_seq. lia.
  - assert (ascii_lower c = c) as ->.
    { unfold ascii_lower. rewrite (proj2 (N.leb_gt c 90)) by lia.
      rewrite andb_false_r. reflexivity. }
    unfold filename_safe, in_safe_class.
    repeat match goal with
           | |- context [N.leb ?a ?b] =>
               first [ rewrite (proj2 (N.leb_le a b)) by lia
                     | rewrite (proj2 (N.leb_gt a b)) by lia ]
           | |- context [N.eqb ?a ?b] =>
               rewrite (proj2 (N.eqb_neq a b)) by lia
           end.
    reflexivity.
Qed.

Lemma lowered_title (t : jsstring) :
  map ascii_lower (replace_all (fun c => negb (filename_safe c)) (lit "_") t)
  = safe_title t.
Proof.
  unfold replace_all, safe_title.
  induction t as [|c t IH]; simpl; [reflexivity|].
  rewrite <- safe_class_lower.
  destruct (filename_safe c); simpl; rewrite IH; reflexivity.
Qed.

Lemma formatDate_truthy ymd : truthy (formatDate ymd) = true.
Proof.
  destruct ymd as [[y m] d]. unfold formatDate.
  destruct (String_of_Z y); reflexivity.
Qed.




End Filename.

(** ** The fallback parser *)

Section Fallback.
Context `{JsRuntime}.

Lemma truthy_not_empty (g : jsstring) : truthy g = negb (str_eqb g []).
Proof. destruct g; reflexivity. Qed.

Lemma includes_bracket (g : jsstring) :
  includes g [LBRACKET] = existsb (N.eqb 91%N) g.
Proof.
  induction g as [|c g IH]; [reflexivity|].
  cbn [includes startsWith existsb]. rewrite IH, andb_true_r. reflexivity.
Qed.

Lemma replace_by_nothing (cls : codeunit -> bool) (g : jsstring) :
  replace_all cls [] g = List.filter (fun c => negb (cls c)) g.
Proof.
  unfold replace_all. induction g as [|c g IH]; [reflexivity|].
  cbn [flat_map List.filter]. rewrite IH. destruct (cls c); reflexivity.
Qed.

Lemma fallback_items_listed (g : jsstring) :
  clean_items (fallback_items g) = listed_items g.
Proof.
  unfold clean_items, fallback_items, listed_items.
  rewrite includes_bracket, replace_by_nothing.
  destruct (existsb (N.eqb 91%N) g);
    (apply filter_ext; intros x; rewrite truthy_not_empty; reflexivity).
Qed.

(** The loop over the two patterns of a field. *)
Lemma fallback_loop_pair (bracketed bare : regex) (fullText : jsstring) :
  fallback_loop [bracketed; bare] fullText []
  = match match_items bracketed fullText with
    | [] => match_items bare fullText
    | items => items
    end.
Proof.
  assert (Hone : forall pattern rest,
             fallback_loop (pattern :: rest) fullText []
             = match match_items pattern fullText with
               | [] => fallback_loop rest fullText []
               | items => items
               end).
  { intros pattern rest. unfold match_items. cbn [fallback_loop].
    destruct (regex_match pattern fullText) as [g|]; [|reflexivity].
    rewrite truthy_not_empty, fallback_items_listed.
    unfold not_none, is_none_word.
    destruct (str_eqb g []); cbn [negb andb orb]; [reflexivity|].
    destruct (str_eqb (toLowerCase g) (lit "none")); cbn [negb];
      [reflexivity|].
    destruct (listed_items g); reflexivity. }
  rewrite Hone. destruct (match_items bracketed fullText); [|reflexivity].
  rewrite Hone. destruct (match_items bare fullText); reflexivity.
Qed.

(** C9. When the answer does not hold the Metadata ... Content structure,
    each of the four list fields is searched for on the whole text, on its
    own: first with its bracketed pattern (the label, letter case aside and
    with its final s and its colon optional, then a list between brackets),
    then with its bare-line pattern (the label and the rest of the line);
    the field is what the first of the two gives that has items, the items
    being the parts between commas, trimmed, without the empty ones and
    the word none, and a group that is empty or the word none giving
    nothing.  The other fields keep their defaults.  The answer made
    of the line Tags: api, security lacks the structure and yields the tags
    api and security.  For each field a list between brackets is taken
    before a bare line that comes earlier in the text, a bare line is read
    when no list is between brackets, the word none is left out as a group
    and as an item, brackets in a bare line are dropped, and a line for one
    field leaves the others empty; each pattern is tried at its
    first match in the text only, so a line Tags: [none] or Tags: [] hides
    a later line of tags; the label Technology, which is not Technologie
    with or without an s, is not read. *)
Theorem fallback_parser_first_match :
  lower_on_ascii ->
  (forall text,
      regex_match re_metadata text = None ->
      technologies (parseGeminiText text)
      = fallback_by_words label_technologies text /\
      programmingLanguages (parseGeminiText text)
      = fallback_by_words label_languages text /\
      tags (parseGeminiText text) = fallback_by_words label_tags text /\
      keyConcepts (parseGeminiText text)
      = fallback_by_words label_concepts text /\
      codeExamples (parseGeminiText text) = false /\
      difficultyLevel (parseGeminiText text) = lit "intermediate" /\
      summary (parseGeminiText text) = []) /\
  (regex_match re_metadata (lit "Tags: api, security") = None /\
   tags (parseGeminiText (lit "Tags: api, security"))
   = [lit "api"; lit "security"] /\
   technologies (parseGeminiText (lit "Tags: api, security")) = [] /\
   programmingLanguages (parseGeminiText (lit "Tags: api, security")) = [] /\
   keyConcepts (parseGeminiText (lit "Tags: api, security")) = []) /\
  (tags (parseGeminiText
           (lit "Tags: x, y" ++ [LF] ++ lit "Tags: [a, b]"))
   = [lit "a"; lit "b"] /\
   technologies (parseGeminiText
                   (lit "Technologies: x, y" ++ [LF]
                      ++ lit "TECHNOLOGIE [Docker, Redis]"))
   = [lit "Docker"; lit "Redis"] /\
   programmingLanguages
     (parseGeminiText
        (lit "Programming Languages: x" ++ [LF]
           ++ lit "programming_language: [Go,Rust ]"))
   = [lit "Go"; lit "Rust"] /\
   keyConcepts (parseGeminiText
                  (lit "Key Concepts: x" ++ [LF]
                     ++ lit "KEY_CONCEPTS:[caching , sharding]"))
   = [lit "caching"; lit "sharding"]) /\
  (technologies (parseGeminiText (lit "Technologies: Docker, Redis"))
   = [lit "Docker"; lit "Redis"] /\
   technologies (parseGeminiText (lit "Technology: Docker, Redis")) = [] /\
   programmingLanguages
     (parseGeminiText (lit "Programming Languages: Go, Rust"))
   = [lit "Go"; lit "Rust"] /\
   keyConcepts (parseGeminiText (lit "key_concept caching,sharding"))
   = [lit "caching"; lit "sharding"]) /\
  (tags (parseGeminiText (lit "Tags: none")) = [] /\
   tags (parseGeminiText (lit "Tags: [None]")) = [] /\
   tags (parseGeminiText (lit "Tags: api, NONE, , security"))
   = [lit "api"; lit "security"] /\
   tags (parseGeminiText (lit "Tags: [none]" ++ [LF] ++ lit "Tags: api"))
   = [] /\
   tags (parseGeminiText (lit "Tags: []" ++ [LF] ++ lit "Tags: api"))
   = [] /\
   tags (parseGeminiText (lit "Tags: [a, b"))
   = [lit "a"; lit "b"] /\
   tags (parseGeminiText (lit "Tags: x [a], y"))
   = [lit "x a"; lit "y"]).
Proof.
  intros Hlow. unfold lower_on_ascii in Hlow.
  split.
  { intros text Hno. unfold parseGeminiText. rewrite Hno.
    cbn [technologies programmingLanguages tags keyConcepts codeExamples
         difficultyLevel summary].
    repeat split;
      match goal with
      | |- fallback_loop ?pats _ _ = fallback_by_words ?label _ =>
          change pats with [bracketed_list label; bare_line label];
          apply fallback_loop_pair
      end. }
  repeat split;
    vm_compute; rewrite ?Hlow by reflexivity; vm_compute; reflexivity.
Qed.

End Fallback.

(** ** The remote call with backoff *)

Section Backoff.
Context (env : Env).

Lemma attempt_503_retry attempt model apiKey parts w r :
  net env (fetched w) = Responded r -> status r = 503 ->
  (attempt < 7)%nat ->
  attempt_body env attempt model apiKey parts w
  = (Ok Continue,
     mkWorld (events w ++ [EFetch model apiKey parts]
                ++ [ESetTimeout
                      ((inject_Z (2 * 2 ^ Z.of_nat attempt)
                        + random env (drawn w)) * 1000)%Q])
             (S (fetched w)) (S (drawn w)) (extractedUrls w)).
Proof.
  intros Hnet Hst Hlt.
  unfold attempt_body, try_catch, bind, fetch. rewrite Hnet.
  unfold ok. rewrite Hst. simpl.
  destruct (Nat.eqb_spec attempt 7) as [->|_]; [lia|].
  unfold backoff_wait, bind, Math_random, sleep, emit, ret. simpl.
  rewrite <- app_assoc. reflexivity.
Qed.

Lemma attempt_503_last model apiKey parts w r :
  net env (fetched w) = Responded r -> status r = 503 ->
  attempt_body env 7 model apiKey parts w
  = (Ok (Return r),
     mkWorld (events w ++ [EFetch model apiKey parts])
             (S (fetched w)) (drawn w) (extractedUrls w)).
Proof.
  intros Hnet Hst.
  unfold attempt_body, try_catch, bind, fetch. rewrite Hnet.
  unfold ok. rewrite Hst. reflexivity.
Qed.

Lemma backoff_loop_503 (resp : nat -> Response) model apiKey parts :
  (forall n, (n < 8)%nat ->
             net env n = Responded (resp n) /\ status (resp n) = 503) ->
  forall remaining attempt w,
    (attempt + S remaining = 8)%nat ->
    fetched w = attempt -> drawn w = attempt ->
    backoff_loop env (S remaining) attempt model apiKey parts w
    = (Ok (Some (resp 7%nat)),
       mkWorld (events w
                  ++ flat_map (retried env model apiKey parts) (seq attempt remaining)
                  ++ [EFetch model apiKey parts])
               8 7 (extractedUrls w)).
Proof.
  intros Hnet. induction remaining as [|k IH]; intros attempt w Hsum Hf Hd.
  - assert (attempt = 7%nat) as -> by lia.
    destruct (Hnet 7%nat ltac:(lia)) as [Hn Hs].
    cbn [backoff_loop]. unfold bind at 1.
    rewrite (attempt_503_last model apiKey parts w (resp 7%nat))
      by (rewrite ?Hf; assumption).
    unfold ret. rewrite Hf, Hd. reflexivity.
  - destruct (Hnet attempt ltac:(lia)) as [Hn Hs].
    change (backoff_loop env (S (S k)) attempt model apiKey parts w)
      with (bind (attempt_body env attempt model apiKey parts)
              (fun t => match t with
                        | Return r => ret (Some r)
                        | Continue =>
                            backoff_loop env (S k) (S attempt) model apiKey parts
                        end) w).
    unfold bind at 1.
    rewrite (attempt_503_retry attempt model apiKey parts w (resp attempt))
      by (rewrite ?Hf; first [assumption | lia]).
    rewrite IH by (simpl; lia). simpl.
    rewrite Hd. unfold retried at 2, delay_seconds.
    rewrite <- !app_assoc. reflexivity.
Qed.

(** Whatever the network does, a turn of the loop makes one request. *)
Lemma attempt_body_one_fetch attempt model apiKey parts w o w' :
  attempt_body env attempt model apiKey parts w = (o, w') ->
  fetched w' = S (fetched w).
Proof.
  unfold attempt_body, try_catch, bind, fetch, backoff_wait, bind, Math_random,
    sleep, emit, ret, throw.
  destruct (net env (fetched w)) as [r|e];
    [destruct (ok r); [|destruct (status r =? 503)]|];
    try destruct (attempt =? maxRetries - 1)%nat;
    intros [= <- <-]; reflexivity.
Qed.

(** The eighth turn never asks for another one. *)
Lemma attempt_body_last_ends model apiKey parts w w' :
  attempt_body env 7 model apiKey parts w <> (Ok Continue, w').
Proof.
  unfold attempt_body, try_catch, bind, fetch, ret, throw.
  destruct (net env (fetched w)) as [r|e];
    [destruct (ok r); [|destruct (status r =? 503)]|];
    simpl; discriminate.
Qed.

(** The call makes at most 8 requests and never falls out of its loop:
    it ends with a response or with an error. *)
Lemma generateContentWithBackoff_ends model apiKey parts w o w' :
  generateContentWithBackoff env model apiKey parts w = (o, w') ->
  (fetched w' <= fetched w + 8)%nat /\ o <> Ok None.
Proof.
  unfold generateContentWithBackoff, maxRetries.
  assert (Hloop : forall remaining attempt w o w',
             (attempt + S remaining = 8)%nat ->
             backoff_loop env (S remaining) attempt model apiKey parts w
             = (o, w') ->
             (fetched w' <= fetched w + S remaining)%nat /\ o <> Ok None).
  { clear. induction remaining as [|k IH]; intros attempt w o w' Hsum;
      cbn [backoff_loop]; unfold bind at 1;
      destruct (attempt_body env attempt model apiKey parts w) as [t w1] eqn:E;
      pose proof (attempt_body_one_fetch _ _ _ _ _ _ _ E) as Hf;
      destruct t as [[r|]|e]; unfold ret.
    - intros [= <- <-]. split; [lia | discriminate].
    - assert (attempt = 7%nat) as -> by lia.
      exfalso. exact (attempt_body_last_ends _ _ _ _ _ E).
    - intros [= <- <-]. split; [lia | discriminate].
    - intros [= <- <-]. split; [lia | discriminate].
    - intros E2. apply IH in E2; [|lia]. split; [lia | apply E2].
    - intros [= <- <-]. split; [lia | discriminate]. }
  apply Hloop. reflexivity.
Qed.

(** C2. When every attempt is answered 503, the call makes exactly 8
    attempts: each of the first seven is followed by a wait of
    2 * 2^n seconds plus the jitter drawn for it, which lies in [0, 1),
    and the eighth hands its response back; no ninth request is made. *)
Theorem backoff_all_503_stops_after_8 (resp : nat -> Response)
    (model apiKey : jsstring) (parts : list part)
    (urls : list HistoryEntry) :
  (forall n, (n < 8)%nat ->
             net env n = Responded (resp n) /\ status (resp n) = 503) ->
  (forall n, (0 <= random env n)%Q /\ (random env n < 1)%Q) ->
  generateContentWithBackoff env model apiKey parts (initial urls)
  = (Ok (Some (resp 7%nat)),
     mkWorld (overloaded_trace env model apiKey parts) 8 7 urls) /\
  length (List.filter is_fetch (overloaded_trace env model apiKey parts)) = 8%nat /\
  (forall n, (n < 7)%nat ->
     nth_error (overloaded_trace env model apiKey parts) (2 * n + 1)
     = Some (ESetTimeout (delay_seconds env n * 1000)%Q) /\
     (inject_Z (2 * 2 ^ Z.of_nat n) <= delay_seconds env n)%Q /\
     (delay_seconds env n < inject_Z (2 * 2 ^ Z.of_nat n) + 1)%Q).
Proof.
  intros Hnet Hrnd. split; [|split].
  - unfold generateContentWithBackoff, maxRetries.
    rewrite (backoff_loop_503 resp model apiKey parts Hnet 7 0 (initial urls))
      by reflexivity.
    reflexivity.
  - reflexivity.
  - intros n Hn. destruct (Hrnd n) as [H0 H1]. split; [|split].
    + do 7 (destruct n as [|n]; [reflexivity|]). lia.
    + unfold delay_seconds.
      rewrite <- (Qplus_0_r (inject_Z (2 * 2 ^ Z.of_nat n))) at 1.
      apply Qplus_le_r. exact H0.
    + unfold delay_seconds. apply Qplus_lt_r. exact H1.
Qed.

End Backoff.

(** ** The background pipeline *)

Section Pipeline.
Context `{JsRuntime} (env : Env).

Lemma quiet_refl w : quiet w w.
Proof. split; [reflexivity|]. exists []. rewrite app_nil_r. auto. Qed.

Lemma quiet_trans w1 w2 w3 : quiet w1 w2 -> quiet w2 w3 -> quiet w1 w3.
Proof.
  intros [E1 (es1 & Ev1 & F1)] [E2 (es2 & Ev2 & F2)]. split; [congruence|].
  exists (es1 ++ es2). rewrite Ev2, Ev1, <- app_assoc, forallb_app, F1, F2. auto.
Qed.

Lemma quiet_downloaded w w' : quiet w w' -> downloaded w' = downloaded w.
Proof.
  intros [_ (es & Ev & F)]. unfold downloaded. rewrite Ev, omap_app.
  assert (E : omap (fun e => match e with
                             | EDownload c _ _ => Some c
                             | _ => None
                             end) es = []).
  { clear Ev. induction es as [|e es IH]; [reflexivity|]. simpl in F.
    apply andb_true_iff in F as [Fe F]. destruct e; try discriminate Fe;
      simpl; apply IH, F. }
  rewrite E, app_nil_r. reflexivity.
Qed.

Lemma attempt_body_quiet attempt model apiKey parts w o w' :
  attempt_body env attempt model apiKey parts w = (o, w') -> quiet w w'.
Proof.
  unfold attempt_body, try_catch, bind, fetch, backoff_wait, bind, Math_random,
    sleep, emit, ret, throw.
  destruct (net env (fetched w)) as [r|e];
    [destruct (ok r); [|destruct (status r =? 503)]|];
    try destruct (attempt =? maxRetries - 1)%nat;
    intros [= <- <-]; (split; [reflexivity|]); simpl;
    eexists; (split; [rewrite <- ?app_assoc; reflexivity | reflexivity]).
Qed.

Lemma backoff_loop_quiet remaining : forall attempt model apiKey parts w o w',
  backoff_loop env remaining attempt model apiKey parts w = (o, w') ->
  quiet w w'.
Proof.
  induction remaining as [|k IH]; intros attempt model apiKey parts w o w'.
  - intros [= <- <-]. apply quiet_refl.
  - cbn [backoff_loop]. unfold bind at 1.
    destruct (attempt_body env attempt model apiKey parts w) as [t w1] eqn:E.
    apply attempt_body_quiet in E.
    destruct t as [[r|]|e].
    + intros [= <- <-]. exact E.
    + intros E2. apply IH in E2. exact (quiet_trans _ _ _ E E2).
    + intros [= <- <-]. exact E.
Qed.

(** The enrichment call touches neither the download sink nor the
    history, whatever its outcome. *)
Lemma improve_quiet markdown apiKey images_ model w o w' :
  improveMarkdownWithGemini env markdown apiKey images_ model w = (o, w') ->
  quiet w w'.
Proof.
  unfold improveMarkdownWithGemini.
  destruct (truthy apiKey); simpl.
  2:{ intros [= <- <-]. apply quiet_refl. }
  unfold try_catch, bind at 1, generateContentWithBackoff.
  match goal with
  | |- context [backoff_loop env ?n ?a ?m ?k ?p w] =>
      destruct (backoff_loop env n a m k p w) as [r w1] eqn:E
  end.
  apply backoff_loop_quiet in E.
  destruct r as [[r|]|e]; unfold throw, ret.
  - destruct (ok r); simpl; [destruct (body_json r)|];
      intros [= <- <-]; exact E.
  - intros [= <- <-]. exact E.
  - intros [= <- <-]. exact E.
Qed.

Lemma improve_without_key markdown images_ model w :
  improveMarkdownWithGemini env markdown [] images_ model w
  = (Throw (JsError (lit "Gemini API key not configured")), w).
Proof. reflexivity. Qed.

(** With a key, a service that answers 503 to all 8 attempts makes the
    enrichment call throw the API error. *)
Lemma improve_overloaded (resp : nat -> Response) markdown apiKey images_
    model urls :
  truthy apiKey = true ->
  (forall n, (n < 8)%nat ->
             net env n = Responded (resp n) /\ status (resp n) = 503) ->
  fst (improveMarkdownWithGemini env markdown apiKey images_ model
         (initial urls))
  = Throw (JsError (lit "Gemini API error: " ++ String_of_Z 503 ++ lit " - "
                      ++ body_text (resp 7%nat))).
Proof.
  intros Hkey Hnet. unfold improveMarkdownWithGemini. rewrite Hkey.
  cbn [negb]. unfold try_catch, bind at 1, generateContentWithBackoff,
    maxRetries.
  rewrite (backoff_loop_503 env resp _ _ _ Hnet 7 0 (initial urls))
    by reflexivity.
  destruct (Hnet 7%nat ltac:(lia)) as [_ Hs].
  unfold ok. rewrite Hs. reflexivity.
Qed.

(** What the background pipeline does when the enrichment call throws,
    the configuration error included: it delivers nothing.  It triggers
    no download and leaves the history as it was, shows the notification
    Extraction Failed with the message of the error after Error:, sends
    the completion message with success false, and throws the error
    again. *)
Lemma enrichment_failure_aborts_delivery (request : Request)
    (w w1 : World) (e : jserror) :
  improveMarkdownWithGemini env (req_markdown request) (req_apiKey request)
    (images (req_pageContent request)) (req_model request) w
  = (Throw e, w1) ->
  processAndDownloadWithGemini env request w
  = (Throw e,
     mkWorld (events w1
                ++ [ENotify (lit "Extraction Failed")
                      (lit "Error: " ++ message e);
                    ESendMessage false (message e)])
             (fetched w1) (drawn w1) (extractedUrls w1)) /\
  downloaded (snd (processAndDownloadWithGemini env request w))
  = downloaded w /\
  extractedUrls (snd (processAndDownloadWithGemini env request w))
  = extractedUrls w /\
  (req_apiKey request = [] ->
   e = JsError (lit "Gemini API key not configured")).
Proof.
  intros Himp.
  assert (Hrun : processAndDownloadWithGemini env request w
    = (Throw e,
       mkWorld (events w1
                  ++ [ENotify (lit "Extraction Failed")
                        (lit "Error: " ++ message e);
                      ESendMessage false (message e)])
               (fetched w1) (drawn w1) (extractedUrls w1))).
  { unfold processAndDownloadWithGemini, try_catch. unfold bind at 1.
    rewrite Himp. unfold bind, notify, sendProcessingComplete, emit, throw.
    simpl. rewrite <- app_assoc. reflexivity. }
  pose proof (improve_quiet _ _ _ _ _ _ _ Himp) as Hq.
  split; [exact Hrun|]. rewrite Hrun. simpl. split; [|split].
  - rewrite <- (quiet_downloaded _ _ Hq). unfold downloaded. simpl.
    rewrite omap_app. simpl. apply app_nil_r.
  - apply Hq.
  - intros Hkey. rewrite Hkey, improve_without_key in Himp. congruence.
Qed.

(** An answer whose Content section is blank is parsed into a result
    with an empty content. *)
Lemma blank_section_empty_content (text g : jsstring) :
  regex_match re_content text = Some g -> trim g = [] ->
  content (parseGeminiText text) = [].
Proof.
  intros Hc Hg. unfold parseGeminiText. rewrite Hc, Hg.
  destruct (regex_match re_metadata text); reflexivity.
Qed.

(** The fallback that the pipeline does have.  When the enrichment call
    returns a result whose content is empty or white space only, the
    front matter renders and the history can be written, the pipeline
    runs to its end and the text it delivers is the front matter followed
    by the pre-enrichment Markdown. *)
Lemma blank_content_falls_back_to_markdown (request : Request)
    (w w1 : World) (enriched : EnrichmentResult) (metadata : jsstring) :
  improveMarkdownWithGemini env (req_markdown request) (req_apiKey request)
    (images (req_pageContent request)) (req_model request) w
  = (Ok (mkReply (Some enriched)), w1) ->
  trim (content enriched) = [] ->
  createMetadata (nowISO env) (req_pageContent request) (req_url request)
    (req_category request) (Some enriched) = Ok metadata ->
  storage env = StorageServes ->
  fst (processAndDownloadWithGemini env request w) = Ok tt /\
  contentToUse_of (content enriched) (req_markdown request)
  = req_markdown request /\
  downloaded (snd (processAndDownloadWithGemini env request w))
  = downloaded w ++ [toWellFormed (metadata ++ req_markdown request)].
Proof.
  intros Himp Hblank Hmeta Hst.
  assert (Hbody : contentToUse_of (content enriched) (req_markdown request)
                  = req_markdown request).
  { unfold contentToUse_of. rewrite Hblank. simpl.
    rewrite orb_true_r. reflexivity. }
  pose proof (improve_quiet _ _ _ _ _ _ _ Himp) as Hq.
  assert (Hrun : processAndDownloadWithGemini env request w
    = (Ok tt,
       mkWorld
         (events w1
            ++ [EDownload (toWellFormed (metadata ++ req_markdown request))
                  (req_filename request) true;
                EStorageSet
                  (addExtractedUrl (extractedUrls w1) (req_url request)
                     (now env));
                ENotify (lit "Page Extraction Complete")
                  (lit "File " ++ [DQUOTE] ++ req_filename request
                     ++ [DQUOTE] ++ lit " has been downloaded successfully.");
                ESendMessage true (req_filename request)])
         (fetched w1) (drawn w1)
         (addExtractedUrl (extractedUrls w1) (req_url request) (now env)))).
  { unfold processAndDownloadWithGemini, try_catch. unfold bind at 1.
    rewrite Himp. cbn [improvedMarkdown]. unfold bind at 1. unfold bind at 1.
    unfold lift at 1. rewrite Hmeta, Hbody.
    unfold bind, ret, download, storeExtractedUrl, notify,
      sendProcessingComplete, emit. rewrite Hst.
    cbn [events fetched drawn extractedUrls].
    rewrite <- !app_assoc. reflexivity. }
  rewrite Hrun. cbn [fst snd]. split; [reflexivity|]. split; [exact Hbody|].
  rewrite <- (quiet_downloaded _ _ Hq). unfold downloaded.
  cbn [events]. rewrite omap_app. reflexivity.
Qed.

End Pipeline.


(** ** History: invariants, lookups and trims *)

Section HistoryExtras.

Implicit Types (urls : list HistoryEntry) (u v : jsstring) (t : Z).

Lemma map_url_alter urls i f :
  (forall e, url (f e) = url e) ->
  map url (alter f i urls) = map url urls.
Proof.
  intros Hf. revert i. induction urls as [|e l IH]; intros [|i]; simpl;
    try reflexivity.
  - rewrite Hf. reflexivity.
  - f_equal. apply IH.
Qed.

Lemma isUrlExtracted_In urls u :
  isUrlExtracted urls u = true <-> In u (map url urls).
Proof.
  unfold isUrlExtracted. rewrite existsb_exists, in_map_iff. split.
  - intros (e & He & E). apply str_eqb_eq in E. eauto.
  - intros (e & E & He). exists e. split; [exact He|].
    apply str_eqb_eq. exact E.
Qed.

Lemma map_url_upserted urls u t :
  map url (upserted urls u t)
  = if isUrlExtracted urls u then map url urls else map url urls ++ [u].
Proof.
  unfold upserted.
  destruct (findIndex (fun item => str_eqb (url item) u) urls) as [i|] eqn:F.
  - assert (isUrlExtracted urls u = true) as ->.
    { destruct (isUrlExtracted urls u) eqn:E; [reflexivity|].
      apply findIndex_None in E. congruence. }
    rewrite !map_url_alter by reflexivity. reflexivity.
  - apply findIndex_None in F. unfold isUrlExtracted. rewrite F.
    rewrite map_app. reflexivity.
Qed.

Lemma keepLastNUrls_sub n urls :
  exists dropped, keepLastNUrls n urls ++ dropped ≡ₚ urls /\
    Forall (fun kept =>
              Forall (fun e => lastExtracted e <= lastExtracted kept) dropped)
           (keepLastNUrls n urls).
Proof.
  unfold keepLastNUrls. destruct (n <? length urls)%nat.
  - exists (drop n (sort byLastExtractedDesc urls)). rewrite take_drop.
    split; [apply sort_perm|].
    pose proof (sort_sorted urls) as Hs.
    rewrite <- (take_drop n) in Hs.
    apply StronglySorted_app in Hs as (Hall & _ & _).
    apply Forall_forall. intros kept Hk. apply Forall_forall. intros e He.
    apply (Hall kept e); assumption.
  - exists []. rewrite app_nil_r. split; [reflexivity|].
    apply Forall_forall. intros; constructor.
Qed.

Lemma addExtractedUrl_keepLast urls u t :
  addExtractedUrl urls u t = keepLastNUrls 100 (upserted urls u t).
Proof. reflexivity. Qed.

(** Unique URLs and counts of at least one are kept by a trim. *)
Lemma keepLastNUrls_wf n urls :
  NoDup (map url urls) -> Forall (fun e => 1 <= count e) urls ->
  NoDup (map url (keepLastNUrls n urls)) /\
  Forall (fun e => 1 <= count e) (keepLastNUrls n urls).
Proof.
  intros Hnd Hc. destruct (keepLastNUrls_sub n urls) as (dropped & Hp & _).
  split.
  - assert (Hp' : map url (keepLastNUrls n urls) ++ map url dropped
                  ≡ₚ map url urls).
    { rewrite <- map_app. apply Permutation_map, Hp. }
    rewrite <- Hp' in Hnd. apply NoDup_app in Hnd. apply Hnd.
  - rewrite <- Hp in Hc. apply Forall_app in Hc. apply Hc.
Qed.

(** X1. A history whose URLs are pairwise different and whose counts are
    at least one stays so under every record operation. *)
Theorem addExtractedUrl_keeps_unique_urls urls u t :
  NoDup (map url urls) ->
  Forall (fun e => 1 <= count e) urls ->
  NoDup (map url (addExtractedUrl urls u t)) /\
  Forall (fun e => 1 <= count e) (addExtractedUrl urls u t).
Proof.
  intros Hnd Hc. rewrite addExtractedUrl_keepLast.
  apply keepLastNUrls_wf.
  - rewrite map_url_upserted. destruct (isUrlExtracted urls u) eqn:E;
      [exact Hnd|].
    apply NoDup_app. split; [exact Hnd|]. split; [|apply NoDup_singleton].
    intros x Hx Hx'. apply list_elem_of_In in Hx'. destruct Hx' as [<-|[]].
    apply list_elem_of_In, isUrlExtracted_In in Hx. congruence.
  - unfold upserted.
    destruct (findIndex (fun item => str_eqb (url item) u) urls) as [i|].
    + rewrite list_alter_alter_eq. apply Forall_alter; [exact Hc|].
      intros e He. simpl.
      destruct (Z.eqb_spec (count e) 0); lia.
    + apply Forall_app. split; [exact Hc|]. repeat constructor. simpl. lia.
Qed.

(** X2. A record operation never makes another URL appear: a URL found
    afterwards is the one recorded or was there before.  While the list
    stays within 100 entries the lookup is exact: the recorded URL is
    found and every other URL is found as before. *)
Theorem isUrlExtracted_after_record urls u v t :
  (length urls < 100)%nat ->
  (forall urls' w, isUrlExtracted (addExtractedUrl urls' u t) w = true ->
                   w = u \/ isUrlExtracted urls' w = true) /\
  isUrlExtracted (addExtractedUrl urls u t) v
  = str_eqb u v || isUrlExtracted urls v.
Proof.
  intros Hlen. split.
  - intros urls' w Hw. apply isUrlExtracted_In in Hw.
    rewrite addExtractedUrl_keepLast in Hw.
    destruct (keepLastNUrls_sub 100 (upserted urls' u t)) as (dropped & Hp & _).
    assert (In w (map url (upserted urls' u t))) as Hin.
    { apply (Permutation_in w (Permutation_map url Hp)).
      rewrite map_app. apply in_or_app. left. exact Hw. }
    rewrite map_url_upserted in Hin.
    destruct (isUrlExtracted urls' u).
    + right. apply isUrlExtracted_In, Hin.
    + apply in_app_or in Hin as [Hin|[<-|[]]]; [right | left; reflexivity].
      apply isUrlExtracted_In, Hin.
  - assert (Hno : addExtractedUrl urls u t = upserted urls u t).
    { rewrite addExtractedUrl_unfold.
      destruct (Nat.ltb_spec maxUrls (length (upserted urls u t))) as [H|H];
        [|reflexivity].
      assert (length (map url (upserted urls u t)) <= S (length urls))%nat.
      { rewrite map_url_upserted. destruct (isUrlExtracted urls u);
          rewrite ?length_app, !length_map; simpl; lia. }
      rewrite length_map in *. unfold maxUrls in H. lia. }
    rewrite Hno.
    apply eq_true_iff_eq. rewrite orb_true_iff, !isUrlExtracted_In, str_eqb_eq.
    rewrite map_url_upserted. destruct (isUrlExtracted urls u) eqn:E.
    + apply isUrlExtracted_In in E. split; [auto|].
      intros [<-|Hv]; assumption.
    + rewrite in_app_iff. simpl. tauto.
Qed.

(** X3. [keepLastNUrls(n)] leaves the smaller of [n] and the length; what
    it keeps, with what it drops, is the list it was given, and nothing
    dropped is more recent than anything kept.  Trimming to [n] and then
    to [m <= n] is trimming to [m], so a second trim to the same size
    changes nothing. *)
Theorem keepLastNUrls_laws (n m : nat) urls :
  (m <= n)%nat ->
  length (keepLastNUrls n urls) = Nat.min n (length urls) /\
  (exists dropped, keepLastNUrls n urls ++ dropped ≡ₚ urls /\
     Forall (fun kept =>
               Forall (fun e => lastExtracted e <= lastExtracted kept) dropped)
            (keepLastNUrls n urls)) /\
  keepLastNUrls m (keepLastNUrls n urls) = keepLastNUrls m urls /\
  keepLastNUrls n (keepLastNUrls n urls) = keepLastNUrls n urls.
Proof.
  intros Hmn.
  assert (Hlen : forall k l, length (keepLastNUrls k l) = Nat.min k (length l)).
  { intros k l. unfold keepLastNUrls.
    destruct (Nat.ltb_spec k (length l)).
    - rewrite length_take, (Permutation_length (sort_perm _ _)). lia.
    - lia. }
  assert (Hcomp : forall k, (k <= n)%nat ->
            keepLastNUrls k (keepLastNUrls n urls) = keepLastNUrls k urls).
  { intros k Hk. unfold keepLastNUrls at 1 3. rewrite Hlen.
    unfold keepLastNUrls.
    destruct (Nat.ltb_spec n (length urls)) as [Hn|Hn].
    - assert (Hs : StronglySorted newer_or_same
                     (take n (sort byLastExtractedDesc urls))).
      { pose proof (sort_sorted urls) as Hs.
        rewrite <- (take_drop n) in Hs.
        apply StronglySorted_app in Hs. apply Hs. }
      destruct (Nat.ltb_spec k (Nat.min n (length urls))) as [Hk'|Hk'].
      + rewrite (sort_sorted_id _ Hs), take_take.
        replace (Nat.min k n) with k by lia.
        destruct (Nat.ltb_spec k (length urls)); [reflexivity | lia].
      + assert (k = n) as -> by lia.
        destruct (Nat.ltb_spec n (length urls)); [reflexivity | lia].
    - replace (Nat.min n (length urls)) with (length urls) by lia.
      reflexivity. }
  split; [apply Hlen|]. split; [apply keepLastNUrls_sub|].
  split; [apply Hcomp, Hmn | apply Hcomp; lia].
Qed.

End HistoryExtras.

(** ** The remote call: any network *)

Section BackoffExtras.
Context (env : Env).

Lemma attempt_retry attempt model apiKey parts w :
  retryable (net env (fetched w)) = true ->
  (attempt < 7)%nat ->
  attempt_body env attempt model apiKey parts w
  = (Ok Continue,
     mkWorld (events w ++ [EFetch model apiKey parts]
                ++ [ESetTimeout
                      ((inject_Z (2 * 2 ^ Z.of_nat attempt)
                        + random env (drawn w)) * 1000)%Q])
             (S (fetched w)) (S (drawn w)) (extractedUrls w)).
Proof.
  intros Hr Hlt.
  unfold attempt_body, try_catch, bind, fetch.
  destruct (net env (fetched w)) as [r|e]; simpl in Hr.
  - apply andb_true_iff in Hr as [Hok Hst].
    apply negb_true_iff in Hok. rewrite Hok, Hst. simpl.
    destruct (Nat.eqb_spec attempt 7) as [->|_]; [lia|].
    unfold backoff_wait, bind, Math_random, sleep, emit, ret. simpl.
    rewrite <- app_assoc. reflexivity.
  - simpl. destruct (Nat.eqb_spec attempt 7) as [->|_]; [lia|].
    unfold backoff_wait, bind, Math_random, sleep, emit, ret. simpl.
    rewrite <- app_assoc. reflexivity.
Qed.

Lemma attempt_final attempt model apiKey parts w r :
  net env (fetched w) = Responded r ->
  retryable (Responded r) = false ->
  attempt_body env attempt model apiKey parts w
  = (Ok (Return r),
     mkWorld (events w ++ [EFetch model apiKey parts])
             (S (fetched w)) (drawn w) (extractedUrls w)).
Proof.
  intros Hnet Hr. unfold attempt_body, try_catch, bind, fetch. rewrite Hnet.
  simpl in Hr. destruct (ok r); [reflexivity|].
  simpl in Hr. rewrite Hr. reflexivity.
Qed.

Lemma attempt_eighth model apiKey parts w :
  retryable (net env (fetched w)) = true ->
  attempt_body env 7 model apiKey parts w
  = (match net env (fetched w) with
     | Responded r => Ok (Return r)
     | Rejected e => Throw e
     end,
     mkWorld (events w ++ [EFetch model apiKey parts])
             (S (fetched w)) (drawn w) (extractedUrls w)).
Proof.
  intros Hr. unfold attempt_body, try_catch, bind, fetch.
  destruct (net env (fetched w)) as [r|e]; simpl in Hr; [|reflexivity].
  apply andb_true_iff in Hr as [Hok Hst].
  apply negb_true_iff in Hok. rewrite Hok, Hst. reflexivity.
Qed.

Lemma seq_cons_S (a n : nat) : seq a (S n) = a :: seq (S a) n.
Proof. reflexivity. Qed.

Lemma backoff_loop_final model apiKey parts k r :
  (k < 8)%nat ->
  (forall n, (n < k)%nat -> retryable (net env n) = true) ->
  net env k = Responded r -> retryable (Responded r) = false ->
  forall j attempt remaining w,
    (attempt + j = k)%nat -> (attempt + S remaining = 8)%nat ->
    fetched w = attempt -> drawn w = attempt ->
    backoff_loop env (S remaining) attempt model apiKey parts w
    = (Ok (Some r),
       mkWorld (events w
                  ++ flat_map (retried env model apiKey parts) (seq attempt j)
                  ++ [EFetch model apiKey parts])
               (S k) k (extractedUrls w)).
Proof.
  intros Hk Hretry Hnet Hfinal.
  induction j as [|j IH]; intros attempt remaining w Hj Hsum Hf Hd.
  - assert (attempt = k) as -> by lia.
    cbn [backoff_loop]. unfold bind at 1.
    rewrite (attempt_final k model apiKey parts w r)
      by (rewrite ?Hf; assumption).
    unfold ret. rewrite Hf, Hd. reflexivity.
  - destruct remaining as [|remaining]; [lia|].
    change (backoff_loop env (S (S remaining)) attempt model apiKey parts w)
      with (bind (attempt_body env attempt model apiKey parts)
              (fun t => match t with
                        | Return r => ret (Some r)
                        | Continue =>
                            backoff_loop env (S remaining) (S attempt) model
                              apiKey parts
                        end) w).
    unfold bind at 1.
    rewrite (attempt_retry attempt model apiKey parts w)
      by (rewrite ?Hf; first [apply Hretry; lia | lia]).
    rewrite IH by (simpl; lia). simpl.
    rewrite Hd. unfold retried at 2, delay_seconds.
    rewrite <- !app_assoc. reflexivity.
Qed.

Lemma backoff_loop_exhausted model apiKey parts :
  (forall n, (n < 8)%nat -> retryable (net env n) = true) ->
  forall remaining attempt w,
    (attempt + S remaining = 8)%nat ->
    fetched w = attempt -> drawn w = attempt ->
    backoff_loop env (S remaining) attempt model apiKey parts w
    = (last_answer (net env 7),
       mkWorld (events w
                  ++ flat_map (retried env model apiKey parts)
                       (seq attempt remaining)
                  ++ [EFetch model apiKey parts])
               8 7 (extractedUrls w)).
Proof.
  intros Hretry. induction remaining as [|k IH]; intros attempt w Hsum Hf Hd.
  - assert (attempt = 7%nat) as -> by lia.
    cbn [backoff_loop]. unfold bind at 1.
    rewrite (attempt_eighth model apiKey parts w)
      by (rewrite Hf; apply Hretry; lia).
    rewrite Hf, Hd. destruct (net env 7); reflexivity.
  - change (backoff_loop env (S (S k)) attempt model apiKey parts w)
      with (bind (attempt_body env attempt model apiKey parts)
              (fun t => match t with
                        | Return r => ret (Some r)
                        | Continue =>
                            backoff_loop env (S k) (S attempt) model apiKey parts
                        end) w).
    unfold bind at 1.
    rewrite (attempt_retry attempt model apiKey parts w)
      by (rewrite ?Hf; first [apply Hretry; lia | lia]).
    rewrite IH by (simpl; lia). simpl.
    rewrite Hd. unfold retried at 2, delay_seconds.
    rewrite <- !app_assoc. reflexivity.
Qed.

(** X4. The call hands back the first answer that is neither a 503 nor a
    network failure, as soon as it comes: when the first [k < 8] requests
    are answered by such failures and request [k] is answered otherwise
    (a success or any other HTTP status), that response is returned after
    [k + 1] requests and [k] waits, the wait after attempt [n] being
    2 * 2^n seconds plus the jitter drawn; an error status other than 503
    is thus never retried. *)
Theorem backoff_returns_first_final_answer (model apiKey : jsstring)
    (parts : list part) (urls : list HistoryEntry) (k : nat) (r : Response) :
  (k < 8)%nat ->
  (forall n, (n < k)%nat -> retryable (net env n) = true) ->
  net env k = Responded r ->
  retryable (Responded r) = false ->
  generateContentWithBackoff env model apiKey parts (initial urls)
  = (Ok (Some r),
     mkWorld (retry_trace env model apiKey parts k
                ++ [EFetch model apiKey parts]) (S k) k urls).
Proof.
  intros Hk Hretry Hnet Hfinal.
  unfold generateContentWithBackoff, maxRetries.
  rewrite (backoff_loop_final model apiKey parts k r Hk Hretry Hnet Hfinal
             k 0 7 (initial urls)) by (simpl; lia).
  reflexivity.
Qed.

(** X5. When all 8 requests are answered by a 503 or a network failure,
    the call makes 8 requests and 7 waits and ends on the eighth answer:
    it returns that response if it is a 503 and throws that error if the
    request failed. *)
Theorem backoff_exhausted_ends_on_eighth (model apiKey : jsstring)
    (parts : list part) (urls : list HistoryEntry) :
  (forall n, (n < 8)%nat -> retryable (net env n) = true) ->
  generateContentWithBackoff env model apiKey parts (initial urls)
  = (last_answer (net env 7),
     mkWorld (retry_trace env model apiKey parts 7
                ++ [EFetch model apiKey parts]) 8 7 urls).
Proof.
  intros Hretry. unfold generateContentWithBackoff, maxRetries.
  rewrite (backoff_loop_exhausted model apiKey parts Hretry 7 0 (initial urls))
    by reflexivity.
  reflexivity.
Qed.

End BackoffExtras.

(** ** The enrichment call: outcomes *)

Section ImproveExtras.
Context `{JsRuntime} (env : Env).

(** X6. With an API key, the enrichment call is decided by the first
    answer that is neither a 503 nor a network failure (request [k < 8]):
    a success with a text is parsed and returned; a success whose body
    is not JSON, is [null] or has a first part without a text throws the
    error of the platform ([response.json()] rejecting, or the
    [TypeError] of reading [candidates] of [null] or of using the missing
    text); a success with any other body that lacks
    [candidates[0].content.parts[0]] throws the invalid-structure error;
    and any other status throws the API error with the status and the
    body; [k + 1] requests are made. *)
Theorem improve_decided_by_final_answer (markdown apiKey : jsstring)
    (images_ : list ImageSample) (model : option jsstring)
    (urls : list HistoryEntry) (k : nat) (r : Response) :
  truthy apiKey = true ->
  (k < 8)%nat ->
  (forall n, (n < k)%nat -> retryable (net env n) = true) ->
  net env k = Responded r ->
  retryable (Responded r) = false ->
  fst (improveMarkdownWithGemini env markdown apiKey images_ model
         (initial urls))
  = (if ok r then
       match body_json r with
       | JsonText text => Ok (mkReply (Some (parseGeminiText text)))
       | JsonUnexpected =>
           Throw (JsError (lit "Invalid response structure from Gemini API"))
       | JsonInvalid e | JsonNull e | JsonNoText e => Throw e
       end
     else Throw (JsError (lit "Gemini API error: "
                            ++ String_of_Z (status r) ++ lit " - "
                            ++ body_text r))) /\
  fetched (snd (improveMarkdownWithGemini env markdown apiKey images_ model
                  (initial urls))) = S k.
Proof.
  intros Hkey Hk Hretry Hnet Hfinal.
  assert (E : exists o trace,
             improveMarkdownWithGemini env markdown apiKey images_ model
               (initial urls) = (o, mkWorld trace (S k) k urls) /\
             o = (if ok r then
                    match body_json r with
                    | JsonText text =>
                        Ok (mkReply (Some (parseGeminiText text)))
                    | JsonUnexpected =>
                        Throw (JsError
                                 (lit "Invalid response structure from Gemini API"))
                    | JsonInvalid e | JsonNull e | JsonNoText e => Throw e
                    end
                  else Throw (JsError (lit "Gemini API error: "
                                         ++ String_of_Z (status r) ++ lit " - "
                                         ++ body_text r)))).
  { unfold improveMarkdownWithGemini. rewrite Hkey. cbn [negb].
    unfold try_catch, bind at 1.
    unfold generateContentWithBackoff, maxRetries.
    match goal with
    | |- context [backoff_loop env 8 0 ?m apiKey ?p] =>
        generalize p; generalize m
    end.
    intros model' parts.
    rewrite (backoff_loop_final env model' apiKey parts k r Hk Hretry Hnet
               Hfinal k 0 7 (initial urls)) by (simpl; lia).
    cbv beta iota. destruct (ok r); cbn [negb];
      [destruct (body_json r)|]; unfold throw, ret;
      eexists _, _; split; reflexivity. }
  destruct E as (o & trace & -> & ->). split; reflexivity.
Qed.

(** X7. With an API key, when all 8 requests are answered by a 503 or a
    network failure, the enrichment call never returns: it throws the API
    error 503 with the body of the eighth response, or the error of the
    eighth request. *)
Theorem improve_exhausted_throws (markdown apiKey : jsstring)
    (images_ : list ImageSample) (model : option jsstring)
    (urls : list HistoryEntry) :
  truthy apiKey = true ->
  (forall n, (n < 8)%nat -> retryable (net env n) = true) ->
  fst (improveMarkdownWithGemini env markdown apiKey images_ model
         (initial urls))
  = Throw (match net env 7 with
           | Responded r =>
               JsError (lit "Gemini API error: " ++ String_of_Z 503
                          ++ lit " - " ++ body_text r)
           | Rejected e => e
           end) /\
  fetched (snd (improveMarkdownWithGemini env markdown apiKey images_ model
                  (initial urls))) = 8%nat.
Proof.
  intros Hkey Hretry.
  assert (E : exists trace,
             improveMarkdownWithGemini env markdown apiKey images_ model
               (initial urls)
             = (Throw (match net env 7 with
                       | Responded r =>
                           JsError (lit "Gemini API error: " ++ String_of_Z 503
                                      ++ lit " - " ++ body_text r)
                       | Rejected e => e
                       end), mkWorld trace 8 7 urls)).
  { unfold improveMarkdownWithGemini. rewrite Hkey. cbn [negb].
    unfold try_catch, bind at 1.
    unfold generateContentWithBackoff, maxRetries.
    match goal with
    | |- context [backoff_loop env 8 0 ?m apiKey ?p] =>
        generalize p; generalize m
    end.
    intros model' parts.
    rewrite (backoff_loop_exhausted env model' apiKey parts Hretry 7 0
               (initial urls)) by reflexivity.
    pose proof (Hretry 7%nat ltac:(lia)) as H7.
    destruct (net env 7) as [r|e]; cbn [last_answer retryable] in *;
      cbv beta iota; [|unfold throw; eexists; reflexivity].
    apply andb_true_iff in H7 as [Hok Hst]. apply negb_true_iff in Hok.
    apply Z.eqb_eq in Hst. rewrite Hok, Hst. cbn [negb]. unfold throw.
    eexists; reflexivity. }
  destruct E as (trace & ->). split; reflexivity.
Qed.

End ImproveExtras.

(** ** The budget of an enrichment call *)

Section BudgetExtras.
Context `{JsRuntime} (env : Env).

Lemma attempt_body_counts attempt model apiKey parts w o w' :
  attempt_body env attempt model apiKey parts w = (o, w') ->
  fetched w' = S (fetched w) /\
  drawn w' = (if match o with Ok Continue => true | _ => false end
              then S (drawn w) else drawn w).
Proof.
  unfold attempt_body, try_catch, bind, fetch, backoff_wait, bind, Math_random,
    sleep, emit, ret, throw.
  destruct (net env (fetched w)) as [r|e];
    [destruct (ok r); [|destruct (status r =? 503)]|];
    try destruct (attempt =? maxRetries - 1)%nat;
    intros [= <- <-]; split; reflexivity.
Qed.

Lemma backoff_loop_counts model apiKey parts :
  forall remaining attempt w o w',
    (attempt + S remaining = 8)%nat ->
    backoff_loop env (S remaining) attempt model apiKey parts w = (o, w') ->
    (fetched w < fetched w' <= fetched w + S remaining)%nat /\
    (fetched w' - fetched w = S (drawn w' - drawn w))%nat /\
    (drawn w <= drawn w')%nat.
Proof.
  induction remaining as [|k IH]; intros attempt w o w' Hsum;
    cbn [backoff_loop]; unfold bind at 1;
    destruct (attempt_body env attempt model apiKey parts w) as [t w1] eqn:E;
    pose proof (attempt_body_counts _ _ _ _ _ _ _ E) as [Hf Hd];
    destruct t as [[r|]|e]; unfold ret.
  - intros [= <- <-]. lia.
  - assert (attempt = 7%nat) as -> by lia.
    exfalso. exact (attempt_body_last_ends _ _ _ _ _ _ E).
  - intros [= <- <-]. lia.
  - intros [= <- <-]. lia.
  - intros E2. apply IH in E2; [|lia]. lia.
  - intros [= <- <-]. lia.
Qed.

Lemma improve_counts markdown apiKey images_ model w o w' :
  truthy apiKey = true ->
  improveMarkdownWithGemini env markdown apiKey images_ model w = (o, w') ->
  (fetched w < fetched w' <= fetched w + 8)%nat /\
  (fetched w' - fetched w = S (drawn w' - drawn w))%nat.
Proof.
  intros Hkey. unfold improveMarkdownWithGemini. rewrite Hkey. cbn [negb].
  unfold try_catch, bind at 1, generateContentWithBackoff, maxRetries.
  match goal with
  | |- context [backoff_loop env 8 0 ?m ?k ?p w] =>
      destruct (backoff_loop env 8 0 m k p w) as [r w1] eqn:L
  end.
  apply backoff_loop_counts in L as (L1 & L2 & _); [|reflexivity].
  destruct r as [[r|]|e]; unfold throw.
  - destruct (ok r); cbn [negb].
    + destruct (body_json r); unfold throw, ret; intros [= <- <-]; lia.
    + intros [= <- <-]. lia.
  - intros [= <- <-]. lia.
  - intros [= <- <-]. lia.
Qed.

(** X8. Whatever the network answers, an enrichment call with a key
    makes at least one request and at most eight, draws one jitter for
    each request but the last, triggers no download and leaves the
    history as it is. *)
Theorem improve_request_budget (markdown apiKey : jsstring)
    (images_ : list ImageSample) (model : option jsstring) (w : World) :
  truthy apiKey = true ->
  (fetched w
   < fetched (snd (improveMarkdownWithGemini env markdown apiKey images_
                     model w))
   <= fetched w + 8)%nat /\
  (fetched (snd (improveMarkdownWithGemini env markdown apiKey images_
                   model w)) - fetched w
   = S (drawn (snd (improveMarkdownWithGemini env markdown apiKey images_
                      model w)) - drawn w))%nat /\
  downloaded (snd (improveMarkdownWithGemini env markdown apiKey images_
                     model w)) = downloaded w /\
  extractedUrls (snd (improveMarkdownWithGemini env markdown apiKey images_
                        model w)) = extractedUrls w.
Proof.
  intros Hkey.
  destruct (improveMarkdownWithGemini env markdown apiKey images_ model w)
    as [o w'] eqn:E.
  pose proof (improve_quiet _ _ _ _ _ _ _ _ E) as Hq.
  destruct (improve_counts _ _ _ _ _ _ _ Hkey E) as [Hc1 Hc2].
  cbn [snd]. split; [exact Hc1|]. split; [exact Hc2|]. split.
  - apply quiet_downloaded, Hq.
  - apply Hq.
Qed.

End BudgetExtras.

(** ** The parsers: what the lists hold *)

Section ParserExtras.
Context `{JsRuntime}.

Lemma trimStart_suffix (s : jsstring) : exists pre, s = pre ++ trimStart s.
Proof.
  induction s as [|c s [pre IH]]; simpl; [exists []; reflexivity|].
  destruct (is_space c).
  - exists (c :: pre). simpl. congruence.
  - exists []. reflexivity.
Qed.

Lemma trimStart_head (s : jsstring) c :
  head (trimStart s) = Some c -> is_space c = false.
Proof.
  induction s as [|x s IH]; simpl; [discriminate|].
  destruct (is_space x) eqn:E; [exact IH|].
  simpl. intros [= <-]. exact E.
Qed.

Lemma trim_prefix (s : jsstring) : exists suf, trimStart s = trim s ++ suf.
Proof.
  unfold trim, trimEnd.
  destruct (trimStart_suffix (rev (trimStart s))) as [pre E].
  exists (rev pre).
  rewrite <- (rev_involutive (trimStart s)) at 1.
  rewrite E at 1. rewrite rev_app_distr. reflexivity.
Qed.

Lemma last_rev {A} (l : list A) : last (rev l) = head l.
Proof.
  destruct l as [|x l]; [reflexivity|]. simpl. apply last_snoc.
Qed.

Lemma trim_trimmed (s : jsstring) : trimmed (trim s).
Proof.
  split; intros c Hc.
  - destruct (trim_prefix s) as [suf E].
    apply (trimStart_head s). rewrite E.
    destruct (trim s); [discriminate | exact Hc].
  - unfold trim, trimEnd in Hc. rewrite last_rev in Hc.
    apply (trimStart_head _ _ Hc).
Qed.

Lemma trim_In (s : jsstring) c : In c (trim s) -> In c s.
Proof.
  intros Hc. destruct (trim_prefix s) as [suf E].
  destruct (trimStart_suffix s) as [pre E'].
  rewrite E', E. apply in_or_app. right. apply in_or_app. left. exact Hc.
Qed.

Lemma split_on_no_sep (sep : codeunit) (s : jsstring) :
  Forall (fun piece => ~ In sep piece) (split_on sep s).
Proof.
  induction s as [|c s IH]; simpl; [repeat constructor; intros []|].
  destruct (cu_eqb c sep) eqn:E.
  - constructor; [intros [] | exact IH].
  - destruct (split_on sep s) as [|piece rest]; [repeat constructor|].
    + intros [->|[]]. rewrite (proj2 (cu_eqb_eq sep sep) eq_refl) in E.
      discriminate.
    + inversion IH as [|? ? Hp Hr]; subst. constructor; [|exact Hr].
      intros [->|Hin]; [|exact (Hp Hin)].
      rewrite (proj2 (cu_eqb_eq sep sep) eq_refl) in E. discriminate.
Qed.

Lemma clean_items_clean (items : list jsstring) :
  Forall (fun piece => ~ In COMMA piece) items ->
  Forall clean_item (clean_items items).
Proof.
  intros Hitems. unfold clean_items. apply Forall_forall. intros x Hx.
  apply list_elem_of_In, List.filter_In in Hx as [Hx Hkeep].
  apply andb_true_iff in Hkeep as [Hne Hnone].
  apply in_map_iff in Hx as (y & <- & Hy).
  rewrite Forall_forall in Hitems.
  repeat split.
  - intros E. rewrite E in Hne. discriminate.
  - apply trim_trimmed.
  - apply trim_trimmed.
  - intros Hc. apply trim_In in Hc.
    exact (Hitems y (proj2 (list_elem_of_In _ _) Hy) Hc).
  - intros E. unfold not_none in Hnone. rewrite E in Hnone. discriminate.
Qed.

Lemma fallback_items_no_comma (g : jsstring) :
  Forall (fun piece => ~ In COMMA piece) (fallback_items g).
Proof.
  unfold fallback_items. destruct (includes g [LBRACKET]);
    apply split_on_no_sep.
Qed.

Lemma primary_list_clean re text : Forall clean_item (primary_list re text).
Proof.
  unfold primary_list. destruct (regex_match re text) as [g|]; [|constructor].
  destruct (truthy g && not_none g); [|constructor].
  apply clean_items_clean, split_on_no_sep.
Qed.

Lemma fallback_loop_clean pats text : forall field,
  Forall clean_item field -> Forall clean_item (fallback_loop pats text field).
Proof.
  induction pats as [|p pats IH]; intros field Hf; simpl; [exact Hf|].
  destruct (regex_match p text) as [g|]; [|apply IH, Hf].
  destruct (truthy g && not_none g); [|apply IH, Hf].
  pose proof (clean_items_clean _ (fallback_items_no_comma g)) as Hc.
  destruct (0 <? length (clean_items (fallback_items g)))%nat;
    [exact Hc | apply IH, Hc].
Qed.

(** X9. Whatever the answer of the model, every item of the four parsed
    lists (technologies, programming languages, tags, key concepts) is
    not empty, has no white space at either end, holds no comma and is not
    the word none in any letter case; this holds for the primary and for
    the fallback parser. *)
Theorem parsed_items_are_clean (text : jsstring) :
  Forall (Forall clean_item) (list_fields (parseGeminiText text)).
Proof.
  unfold parseGeminiText, list_fields.
  destruct (regex_match re_metadata text);
    cbn [technologies programmingLanguages tags keyConcepts];
    repeat constructor;
    first [apply primary_list_clean | apply fallback_loop_clean; constructor].
Qed.

End ParserExtras.

(** ** The matcher *)

Section RegexFacts.

Lemma run_star_cons p re c s cap :
  run (Star p :: re) (c :: s) cap
  = if p c then
      match run (Star p :: re) s (push c cap) with
      | Some r => Some r
      | None => run re (c :: s) cap
      end
    else run re (c :: s) cap.
Proof. reflexivity. Qed.

Lemma run_star_nil p re cap : run (Star p :: re) [] cap = run re [] cap.
Proof. reflexivity. Qed.

Lemma run_lazy_unfold p re s cap :
  run (StarLazy p :: re) s cap
  = match run re s cap with
    | Some r => Some r
    | None =>
        match s with
        | c :: s' => if p c then run (StarLazy p :: re) s' (push c cap)
                     else None
        | [] => None
        end
    end.
Proof. destruct s; reflexivity. Qed.

Lemma read_word_NotYet w s s' cap :
  read_word w s NotYet = Some (s', cap) -> cap = NotYet.
Proof.
  revert s. induction w as [|p w IH]; intros s; simpl.
  - intros [= _ <-]. reflexivity.
  - destruct s as [|c s]; [discriminate|]. destruct (p c); [|discriminate].
    apply IH.
Qed.

Lemma first_word_NotYet k ws s r :
  first_word k ws s NotYet = Some r -> exists s', k s' NotYet = Some r.
Proof.
  induction ws as [|w ws IH]; simpl; [discriminate|].
  destruct (read_word w s NotYet) as [[s' cap]|] eqn:E; [|exact IH].
  apply read_word_NotYet in E as ->.
  destruct (k s' NotYet) eqn:K; [|exact IH].
  intros [= <-]. eauto.
Qed.

(** Before the group opens nothing is captured: a match of the whole
    pattern holds a match of what follows a groupless prefix. *)
Lemma run_groupless pre re r :
  groupless pre = true ->
  forall s, run (pre ++ re) s NotYet = Some r ->
            exists s', run re s' NotYet = Some r.
Proof.
  induction pre as [|a pre IH]; intros Hg s; [simpl; eauto|].
  simpl in Hg. apply andb_true_iff in Hg as [Ha Hg].
  specialize (IH Hg). destruct a; try discriminate Ha.
  - simpl. destruct s as [|c s]; [discriminate|].
    destruct (p c); [apply IH | discriminate].
  - simpl. destruct s as [|c s]; [apply IH|].
    destruct (p c); [|apply IH].
    destruct (run (pre ++ re) s NotYet) eqn:E.
    + intros [= <-]. apply (IH _ E).
    + apply IH.
  - change ((Star p :: pre) ++ re) with (Star p :: pre ++ re).
    induction s as [|c s IHs].
    + rewrite run_star_nil. apply IH.
    + rewrite run_star_cons. destruct (p c); [|apply IH].
      simpl push.
      destruct (run (Star p :: pre ++ re) s NotYet) eqn:E.
      * intros [= <-]. apply IHs. reflexivity.
      * apply IH.
  - change ((StarLazy p :: pre) ++ re) with (StarLazy p :: pre ++ re).
    induction s as [|c s IHs]; rewrite run_lazy_unfold.
    + destruct (run (pre ++ re) [] NotYet) eqn:E; [|discriminate].
      intros [= <-]. apply (IH _ E).
    + destruct (run (pre ++ re) (c :: s) NotYet) eqn:E.
      * intros [= <-]. apply (IH _ E).
      * destruct (p c); [apply IHs | discriminate].
  - simpl. intros Hw. apply first_word_NotYet in Hw as [s' Hs'].
    apply (IH _ Hs').
Qed.

Lemma search_run re s r :
  search re s = Some r -> exists s', run re s' NotYet = Some r.
Proof.
  induction s as [|c s IH]; simpl.
  - destruct (run re [] NotYet) eqn:E; [|discriminate].
    intros [= <-]. eauto.
  - destruct (run re (c :: s) NotYet) eqn:E; [|exact IH].
    intros [= <-]. eauto.
Qed.

Lemma read_word_Opened w : forall s s' acc cap,
  read_word w s (Opened acc) = Some (s', cap) ->
  exists g, cap = Opened (rev g ++ acc) /\
            Forall2 (fun p c => p c = true) w g.
Proof.
  induction w as [|p w IH]; intros s s' acc cap; simpl.
  - intros [= _ <-]. exists []. split; [reflexivity | constructor].
  - destruct s as [|c s]; [discriminate|]. destruct (p c) eqn:E; [|discriminate].
    intros Hr. apply IH in Hr as (g & -> & Hg).
    exists (c :: g). split; [|constructor; assumption].
    simpl. rewrite <- app_assoc. reflexivity.
Qed.

(** The group of a pattern that ends in one alternation holds one of the
    alternatives, character class by character class. *)
Lemma group_of_words pre ws s g :
  groupless pre = true ->
  regex_match (pre ++ [GOpen; Words ws; GClose]) s = Some g ->
  exists w, In w ws /\ Forall2 (fun p c => p c = true) w g.
Proof.
  intros Hg. unfold regex_match.
  destruct (search _ s) as [r|] eqn:E; [|discriminate].
  apply search_run in E as [s1 E].
  apply (run_groupless pre _ r Hg) in E as [s2 E].
  simpl in E.
  assert (Hr : exists w g', In w ws /\ r = Closed g' /\
                            Forall2 (fun p c => p c = true) w g').
  { revert E. clear. induction ws as [|w ws IH]; simpl; [discriminate|].
    destruct (read_word w s2 (Opened [])) as [[s3 cap]|] eqn:R.
    - apply read_word_Opened in R as (g' & -> & Hw).
      simpl. intros [= <-]. exists w, g'. split; [left; reflexivity|].
      rewrite app_nil_r, rev_involutive. auto.
    - intros E. destruct (IH E) as (w' & g' & Hin & Hr & Hw).
      exists w', g'. split; [right; exact Hin | auto]. }
  destruct Hr as (w & g' & Hin & -> & Hw). intros [= <-]. eauto.
Qed.

Lemma star_group p : forall s acc r,
  run [Star p; GClose] s (Opened acc) = Some r ->
  exists g, r = Closed (rev acc ++ g) /\ forallb p g = true.
Proof.
  induction s as [|c s IH]; intros acc r.
  - rewrite run_star_nil. simpl. intros [= <-]. exists [].
    rewrite app_nil_r. auto.
  - rewrite run_star_cons. destruct (p c) eqn:E.
    + simpl push.
      destruct (run [Star p; GClose] s (Opened (c :: acc))) eqn:R.
      * intros [= <-]. apply IH in R as (g & -> & Hg).
        exists (c :: g). simpl. rewrite <- app_assoc, E. auto.
      * simpl. intros [= <-]. exists []. rewrite app_nil_r. auto.
    + simpl. intros [= <-]. exists []. rewrite app_nil_r. auto.
Qed.

(** The group of a pattern that ends in one class repeated once or more
    is a string of that class that is not empty. *)
Lemma group_of_plus pre p s g :
  groupless pre = true ->
  regex_match (pre ++ [GOpen; One p; Star p; GClose]) s = Some g ->
  g <> [] /\ forallb p g = true.
Proof.
  intros Hg. unfold regex_match.
  destruct (search _ s) as [r|] eqn:E; [|discriminate].
  apply search_run in E as [s1 E].
  apply (run_groupless pre _ r Hg) in E as [s2 E].
  change (run [GOpen; One p; Star p; GClose] s2 NotYet)
    with (match s2 with
          | c :: s' => if p c then run [Star p; GClose] s' (Opened [c])
                       else None
          | [] => None
          end) in E.
  destruct s2 as [|c s2]; [discriminate|].
  destruct (p c) eqn:Pc; [|discriminate].
  apply star_group in E as (g' & -> & Hg').
  intros [= <-]. simpl. rewrite Pc. split; [discriminate | exact Hg'].
Qed.

Lemma ci_lower_letter c x :
  is_lower_letter c = true -> ci c x = true ->
  is_ascii x = true /\ ascii_lower x = c.
Proof.
  unfold is_lower_letter, ci, cu_eqb, ascii_upper, is_ascii, ascii_lower.
  intros Hc. apply andb_true_iff in Hc as [Hc1 Hc2].
  apply N.leb_le in Hc1, Hc2. rewrite (proj2 (N.leb_le 97 c) Hc1).
  rewrite (proj2 (N.leb_le c 122) Hc2). simpl.
  destruct (N.leb_spec 97 x), (N.leb_spec x 122); simpl;
    intros E; apply N.eqb_eq in E;
    destruct (N.leb_spec 65 x), (N.leb_spec x 90); simpl;
    split; try (apply N.ltb_lt); lia.
Qed.

Lemma wordi_lower (w g : jsstring) :
  forallb is_lower_letter w = true ->
  Forall2 (fun p c => p c = true) (map ci w) g ->
  forallb is_ascii g = true /\ map ascii_lower g = w.
Proof.
  revert g. induction w as [|c w IH]; intros g Hw Hg; simpl in *.
  - inversion Hg. auto.
  - apply andb_true_iff in Hw as [Hc Hw].
    inversion Hg as [|? x ? g' Hx Hg']; subst.
    destruct (ci_lower_letter c x Hc Hx) as [Ha Hl].
    destruct (IH g' Hw Hg') as [Ha' Hl'].
    simpl. rewrite Ha, Ha', Hl, Hl'. auto.
Qed.

End RegexFacts.

Section ParserFields.
Context `{JsRuntime}.

(** X10. Whatever the answer of the model, the parsed difficulty level is
    one of beginner, intermediate and advanced, in lower case, and the
    parsed summary has no white space at either end. *)
Theorem parsed_difficulty_is_a_level (text : jsstring) :
  lower_on_ascii ->
  In (difficultyLevel (parseGeminiText text)) difficulty_levels /\
  trimmed (summary (parseGeminiText text)).
Proof.
  intros Hlow. unfold lower_on_ascii in Hlow. unfold parseGeminiText.
  destruct (regex_match re_metadata text) as [metadataText|];
    cbn [difficultyLevel summary].
  2:{ split; [right; left; reflexivity | split; discriminate]. }
  split.
  - destruct (regex_match re_difficulty metadataText) as [g|] eqn:E;
      [|right; left; reflexivity].
    change re_difficulty
      with ((stri "Difficulty_Level:" ++ [Star is_space])
              ++ [GOpen;
                  Words [wordi "beginner"; wordi "intermediate";
                         wordi "advanced"];
                  GClose]) in E.
    apply group_of_words in E as (w & Hw & Hg); [|reflexivity].
    assert (Hcase : forall word,
               forallb is_lower_letter (lit word) = true ->
               w = wordi word -> toLowerCase g = lit word).
    { intros word Hl ->. destruct (wordi_lower _ _ Hl Hg) as [Ha Hm].
      rewrite Hlow by exact Ha. exact Hm. }
    destruct Hw as [<-|[<-|[<-|[]]]].
    + left. symmetry. apply Hcase; reflexivity.
    + right; left. symmetry. apply Hcase; reflexivity.
    + right; right; left. symmetry. apply Hcase; reflexivity.
  - destruct (regex_match re_summary metadataText);
      [apply trim_trimmed | split; discriminate].
Qed.

End ParserFields.

(** ** Values of the front matter *)

Section YamlExtras.

Lemma escape_quotes_inj a : forall b,
  escape_quotes a = escape_quotes b -> a = b.
Proof.
  assert (Hhead : forall s, escape_quotes s = [] -> s = []).
  { intros [|c s]; simpl; [reflexivity|].
    destruct (cu_eqb c DQUOTE); discriminate. }
  assert (Hq : forall s t, escape_quotes s <> DQUOTE :: t).
  { intros [|c s] t; simpl; [discriminate|].
    destruct (cu_eqb c DQUOTE) eqn:E; [discriminate|].
    intros [= -> _]. unfold cu_eqb in E. rewrite N.eqb_refl in E.
    discriminate. }
  induction a as [|c a IH]; intros [|d b]; simpl.
  - reflexivity.
  - destruct (cu_eqb d DQUOTE); discriminate.
  - destruct (cu_eqb c DQUOTE); discriminate.
  - destruct (cu_eqb c DQUOTE) eqn:Ec, (cu_eqb d DQUOTE) eqn:Ed.
    + apply cu_eqb_eq in Ec, Ed. subst. intros [= E]. f_equal. apply IH, E.
    + intros [= <- E]. symmetry in E. exfalso. exact (Hq _ _ E).
    + intros [= -> E]. exfalso. exact (Hq _ _ E).
    + intros [= -> E]. f_equal. apply IH, E.
Qed.

Lemma escapeYaml_cases s :
  (needs_quoting s /\ escapeYaml s = double_quoted s) \/
  (~ needs_quoting s /\ escapeYaml s = s).
Proof.
  destruct (existsb is_yaml_special s || includes s [LF]) eqn:E.
  - left. pose proof (proj1 (quoting_test s) E) as Hn. split; [exact Hn|].
    unfold escapeYaml. destruct s as [|c s]; [inversion Hn|].
    simpl truthy. cbn [negb]. rewrite E, replace_quotes_escape. reflexivity.
  - right.
    assert (Hn : ~ needs_quoting s).
    { intros Hn. apply quoting_test in Hn. congruence. }
    split; [exact Hn|]. unfold escapeYaml. destruct s as [|c s]; [reflexivity|].
    simpl truthy. cbn [negb]. rewrite E. reflexivity.
Qed.

Lemma quoted_needs_quoting s : needs_quoting (double_quoted s).
Proof.
  unfold needs_quoting, double_quoted. simpl. apply Exists_cons_hd.
  right. unfold yaml_special. simpl. auto.
Qed.

Lemma escapeYaml_inj a b : escapeYaml a = escapeYaml b -> a = b.
Proof.
  destruct (escapeYaml_cases a) as [[Ha ->]|[Ha ->]],
           (escapeYaml_cases b) as [[Hb ->]|[Hb ->]].
  - unfold double_quoted. simpl. intros [= E].
    apply app_inj_tail in E as [E _]. apply escape_quotes_inj, E.
  - intros <-. exfalso. apply Hb, quoted_needs_quoting.
  - intros ->. exfalso. apply Ha, quoted_needs_quoting.
  - auto.
Qed.

Lemma escape_quotes_In c s :
  In c (escape_quotes s) -> c = BACKSLASH \/ In c s.
Proof.
  induction s as [|d s IH]; simpl; [tauto|].
  destruct (cu_eqb d DQUOTE) eqn:E; simpl.
  - apply cu_eqb_eq in E as ->. intros [<-|[<-|Hc]]; auto.
    destruct (IH Hc); auto.
  - intros [<-|Hc]; auto. destruct (IH Hc); auto.
Qed.

Lemma escapeYaml_plain x : plain_item x -> plain_item (escapeYaml x).
Proof.
  intros [Hne Hc]. destruct (escapeYaml_cases x) as [[_ ->]|[_ ->]].
  - split; [discriminate|]. unfold double_quoted. simpl.
    intros [E|Hin]; [discriminate E|].
    apply in_app_iff in Hin as [Hin|[E|[]]]; [|discriminate E].
    apply escape_quotes_In in Hin as [E|Hin]; [discriminate E | auto].
  - split; assumption.
Qed.

(** Two strings without a comma, each followed by nothing or by a comma
    and more, are equal when the whole texts are. *)
Lemma first_field x : forall y r1 r2,
  ~ In COMMA x -> ~ In COMMA y ->
  (r1 = [] \/ exists t, r1 = COMMA :: t) ->
  (r2 = [] \/ exists t, r2 = COMMA :: t) ->
  x ++ r1 = y ++ r2 -> x = y /\ r1 = r2.
Proof.
  induction x as [|c x IH]; intros [|d y] r1 r2 Hx Hy H1 H2; simpl.
  - auto.
  - intros ->. destruct H1 as [E|[t E]]; [discriminate E|].
    injection E as -> _. exfalso. apply Hy. left. reflexivity.
  - intros <-. destruct H2 as [E|[t E]]; [discriminate E|].
    injection E as -> _. exfalso. apply Hx. left. reflexivity.
  - intros [= -> E].
    destruct (IH y r1 r2) as [-> ->]; auto.
    + intros Hin. apply Hx. right. exact Hin.
    + intros Hin. apply Hy. right. exact Hin.
Qed.

Lemma join_cons sep x l :
  join sep (x :: l) = x ++ match l with [] => [] | _ => sep ++ join sep l end.
Proof. destruct l; simpl; [rewrite app_nil_r|]; reflexivity. Qed.

Lemma join_plain_inj sp xs : forall ys,
  Forall plain_item xs -> Forall plain_item ys ->
  join (COMMA :: sp) xs = join (COMMA :: sp) ys -> xs = ys.
Proof.
  induction xs as [|x xs IH]; intros [|y ys] Hxs Hys.
  - reflexivity.
  - rewrite join_cons. simpl. intros E. symmetry in E.
    apply app_eq_nil in E as [E _]. inversion Hys as [|? ? [Hne _] _]; subst.
    contradiction.
  - rewrite join_cons. simpl. intros E.
    apply app_eq_nil in E as [E _]. inversion Hxs as [|? ? [Hne _] _]; subst.
    contradiction.
  - rewrite !join_cons. intros E.
    inversion Hxs as [|? ? [_ Hx] Hxs']; subst.
    inversion Hys as [|? ? [_ Hy] Hys']; subst.
    apply first_field in E as [-> E]; try assumption.
    + f_equal. destruct xs as [|x' xs], ys as [|y' ys];
        try reflexivity; try discriminate E.
      injection E as E. apply app_inv_head in E. apply IH; assumption.
    + destruct xs; [left|right]; eauto.
    + destruct ys; [left|right]; eauto.
Qed.

(** X11. The front matter writes its values without loss.  Two different
    strings never get the same text from [escapeYaml]; and two lists of
    items that are not empty and hold no comma, as the parser of the
    answer produces them, are written as the same array only when they
    are the same list. *)
Theorem front_matter_values_are_faithful (xs ys : list jsstring) :
  Forall plain_item xs -> Forall plain_item ys ->
  (forall a b, escapeYaml a = escapeYaml b -> a = b) /\
  (formatYamlArray xs = formatYamlArray ys -> xs = ys).
Proof.
  intros Hxs Hys. split; [exact escapeYaml_inj|].
  assert (Hmap : forall l, Forall plain_item l ->
                           Forall plain_item (map escapeYaml l)).
  { intros l Hl. apply Forall_map. eapply Forall_impl; [exact Hl|].
    intros x. apply escapeYaml_plain. }
  assert (Hnil : forall x l, Forall plain_item (x :: l) ->
                 formatYamlArray (x :: l) <> lit "[]").
  { intros x l Hl E. unfold formatYamlArray in E.
    change (lit "[]") with (lit "[" ++ [] ++ lit "]") in E.
    apply app_inv_head, app_inv_tail in E.
    change (map escapeYaml (x :: l)) with (escapeYaml x :: map escapeYaml l)
      in E.
    rewrite join_cons in E. apply app_eq_nil in E as [E _].
    inversion Hl as [|? ? Hx _]; subst.
    apply escapeYaml_plain in Hx as [Hne _]. contradiction. }
  destruct xs as [|x xs], ys as [|y ys].
  - reflexivity.
  - intros E. symmetry in E. exfalso. exact (Hnil _ _ Hys E).
  - intros E. exfalso. exact (Hnil _ _ Hxs E).
  - unfold formatYamlArray. intros E.
    apply app_inv_head, app_inv_tail in E.
    apply join_plain_inj in E; [| apply Hmap; assumption ..].
    revert E. generalize (x :: xs) (y :: ys). clear.
    induction l as [|a l IH]; intros [|b l']; simpl; try discriminate.
    + reflexivity.
    + intros [= E1 E2]. f_equal; [apply escapeYaml_inj, E1 | apply IH, E2].
Qed.

End YamlExtras.

(** ** The characters of the file name *)

Section FilenameExtras.
Context `{JsRuntime}.

Lemma digit_safe d : 0 <= d <= 9 -> in_safe_class (digit d) = true.
Proof.
  intros Hd. assert (Hc : d = 0 \/ d = 1 \/ d = 2 \/ d = 3 \/ d = 4 \/ d = 5
                          \/ d = 6 \/ d = 7 \/ d = 8 \/ d = 9) by lia.
  repeat (destruct Hc as [->|Hc]; [reflexivity|]). subst. reflexivity.
Qed.

Lemma digits_fuel_safe fuel : forall n acc,
  0 <= n -> forallb in_safe_class acc = true ->
  forallb in_safe_class (digits_fuel fuel n acc) = true.
Proof.
  induction fuel as [|f IH]; intros n acc Hn Hacc; simpl; [exact Hacc|].
  destruct (Z.ltb_spec n 10).
  - simpl. rewrite digit_safe by lia. exact Hacc.
  - apply IH; [apply Z.div_pos; lia|].
    simpl. rewrite digit_safe; [exact Hacc|].
    pose proof (Z.mod_pos_bound n 10). lia.
Qed.

Lemma String_of_Z_safe n : forallb in_safe_class (String_of_Z n) = true.
Proof.
  unfold String_of_Z. destruct (Z.ltb_spec n 0).
  - rewrite forallb_app. change (forallb in_safe_class (lit "-")) with true.
    apply digits_fuel_safe; [lia | reflexivity].
  - apply digits_fuel_safe; [lia | reflexivity].
Qed.

Lemma padStart2_safe s :
  forallb in_safe_class s = true -> forallb in_safe_class (padStart2 s) = true.
Proof. destruct s as [|c [|d s]]; simpl; auto. Qed.

Lemma formatDate_safe ymd : forallb in_safe_class (formatDate ymd) = true.
Proof.
  destruct ymd as [[y m] d]. unfold formatDate.
  rewrite !forallb_app, String_of_Z_safe, !padStart2_safe
    by apply String_of_Z_safe.
  reflexivity.
Qed.

Lemma scan_categories_declared tl ul entries c :
  scan_categories tl ul entries = Some c -> In c (map fst entries).
Proof.
  induction entries as [|[c' kws] entries IH]; simpl; [discriminate|].
  destruct (scan_keywords tl ul kws); [intros [= ->]; auto | auto].
Qed.

Lemma detectCategory_declared title_ url_ :
  In (detectCategory title_ url_) (map fst patterns ++ [lit "general"]).
Proof.
  unfold detectCategory. apply in_app_iff.
  destruct (scan_categories _ _ patterns) as [c|] eqn:E.
  - left. eapply scan_categories_declared, E.
  - right. left. reflexivity.
Qed.

Lemma safe_title_safe t : forallb in_safe_class (safe_title t) = true.
Proof.
  unfold safe_title. induction t as [|c t IH]; simpl; [reflexivity|].
  rewrite IH, andb_true_r.
  destruct (in_safe_class (ascii_lower c)) eqn:E; [exact E | reflexivity].
Qed.

(** X12. Whatever the title, the URL and the dates, the file name is made
    of lower-case letters, digits, underscores, dots and hyphens only: it
    holds no slash, no backslash, no colon and no white space; it ends
    with the extension md, and its category is one of the eleven declared
    ones or general. *)
Theorem generateFilename_is_safe (today : Z * Z * Z) (page : PageContent)
    (url_ : jsstring) :
  lower_on_ascii ->
  forallb in_safe_class (generateFilename today page url_) = true /\
  (forall c, In c (generateFilename today page url_) ->
             c <> 47%N /\ c <> 92%N /\ c <> 58%N /\ is_space c = false) /\
  (exists stem, generateFilename today page url_ = stem ++ lit ".md") /\
  In (detectCategory (title page) url_)
     (declared_order ++ [lit "general"]).
Proof.
  intros Hlow. unfold lower_on_ascii in Hlow.
  assert (Hgen : generateFilename today page url_
                 = filename_spec today page url_).
  { unfold generateFilename, filename_spec, filename_date.
    rewrite Hlow by apply replaced_title_ascii. rewrite lowered_title.
    f_equal.
    - destruct (publicationDate page) as [[|c p]|]; simpl; try reflexivity.
      destruct (dateLocal (c :: p)); [|reflexivity].
      rewrite formatDate_truthy. reflexivity.
    - do 3 f_equal. destruct (safe_title (title page)); reflexivity. }
  assert (Hcat : In (detectCategory (title page) url_)
                    (declared_order ++ [lit "general"])).
  { apply detectCategory_declared. }
  assert (Hsafe : forallb in_safe_class (generateFilename today page url_)
                  = true).
  { rewrite Hgen. unfold filename_spec.
    rewrite !forallb_app, formatDate_safe. simpl.
    assert (Hc : forallb in_safe_class (detectCategory (title page) url_)
                 = true).
    { assert (Hall : forallb (forallb in_safe_class)
                       (declared_order ++ [lit "general"]) = true)
        by (vm_compute; reflexivity).
      rewrite forallb_forall in Hall. apply Hall, Hcat. }
    rewrite Hc. simpl.
    pose proof (safe_title_safe (title page)) as Ht.
    destruct (safe_title (title page)); [reflexivity|].
    rewrite Ht. reflexivity. }
  split; [exact Hsafe|]. split; [|split; [|exact Hcat]].
  - intros c Hc. rewrite forallb_forall in Hsafe. specialize (Hsafe c Hc).
    revert Hsafe. unfold in_safe_class, is_space, cu_eqb.
    rewrite !orb_true_iff, !andb_true_iff, !N.leb_le, !N.eqb_eq.
    intros Hs.
    assert (Hr : (45 <= c <= 122)%N) by lia.
    repeat split; try lia.
    repeat match goal with
           | |- context [(c =? ?k)%N] =>
               destruct (N.eqb_spec c k); [lia|]
           | |- context [(?a <=? c)%N] =>
               destruct (N.leb_spec a c); [|]
           | |- context [(c <=? ?a)%N] =>
               destruct (N.leb_spec c a); [|]
           end; simpl; try reflexivity; lia.
  - rewrite Hgen. unfold filename_spec. eexists.
    rewrite !app_assoc. reflexivity.
Qed.

End FilenameExtras.

(** ** The end of a background run *)

Section PipelineExtras.
Context `{JsRuntime} (env : Env).

Lemma createMetadata_bad_date dateCaptured page u category geminiData p e :
  publicationDate page = Some p -> truthy p = true -> dateISO p = Throw e ->
  createMetadata dateCaptured page u category geminiData = Throw e.
Proof.
  intros Hp Ht He. unfold createMetadata. rewrite Hp, Ht, He. reflexivity.
Qed.

Ltac run_to_end :=
  unfold bind, download, storeExtractedUrl, notify, sendProcessingComplete,
    emit, ret, throw, delivered, reported;
  cbn [events fetched drawn extractedUrls].

Lemma pipeline_cases (request : Request) (w w' : World) (o : outcome unit) :
  processAndDownloadWithGemini env request w = (o, w') ->
  exists o1 w1,
    improveMarkdownWithGemini env (req_markdown request) (req_apiKey request)
      (images (req_pageContent request)) (req_model request) w = (o1, w1) /\
    ((exists body,
        o = Ok tt /\ storage env = StorageServes /\
        w' = mkWorld (events w1
                        ++ delivered env request (extractedUrls w1) body)
               (fetched w1) (drawn w1)
               (addExtractedUrl (extractedUrls w1) (req_url request)
                  (now env)))
     \/
     (exists e,
        o = Throw e /\
        w' = mkWorld (events w1 ++ reported e) (fetched w1) (drawn w1)
               (extractedUrls w1))
     \/
     (exists e body,
        o = Throw e /\ storage_rejects env e /\
        w' = mkWorld (events w1
                        ++ unrecorded env request (extractedUrls w1) body e)
               (fetched w1) (drawn w1) (extractedUrls w1))).
Proof.
  destruct (improveMarkdownWithGemini env (req_markdown request)
              (req_apiKey request) (images (req_pageContent request))
              (req_model request) w) as [o1 w1] eqn:Himp.
  intros Hrun. exists o1, w1. split; [reflexivity|]. revert Hrun.
  unfold processAndDownloadWithGemini, try_catch. unfold bind at 1.
  rewrite Himp. destruct o1 as [result|e].
  2:{ run_to_end. intros [= <- <-]. right. left. exists e.
      split; [reflexivity|]. rewrite <- app_assoc. reflexivity. }
  unfold bind at 1.
  assert (Hdeliver : forall body,
    (let (o0, w0) :=
       (download body (req_filename request) ;;;
        storeExtractedUrl env (req_url request) ;;;
        notify (lit "Page Extraction Complete")
          (lit "File " ++ [DQUOTE] ++ req_filename request ++ [DQUOTE]
             ++ lit " has been downloaded successfully.") ;;;
        sendProcessingComplete true (req_filename request)) w1 in
     match o0 with
     | Ok a => (Ok a, w0)
     | Throw error =>
         (notify (lit "Extraction Failed") (lit "Error: " ++ message error) ;;;
          sendProcessingComplete false (message error) ;;;
          throw error) w0
     end) = (o, w') ->
    (exists body0,
        o = Ok tt /\ storage env = StorageServes /\
        w' = mkWorld (events w1
                        ++ delivered env request (extractedUrls w1) body0)
               (fetched w1) (drawn w1)
               (addExtractedUrl (extractedUrls w1) (req_url request)
                  (now env)))
     \/
     (exists e,
        o = Throw e /\
        w' = mkWorld (events w1 ++ reported e) (fetched w1) (drawn w1)
               (extractedUrls w1))
     \/
     (exists e body0,
        o = Throw e /\ storage_rejects env e /\
        w' = mkWorld (events w1
                        ++ unrecorded env request (extractedUrls w1) body0 e)
               (fetched w1) (drawn w1) (extractedUrls w1))).
  { intros body. run_to_end. unfold unrecorded, storage_rejects, reported.
    destruct (storage env) as [|e|e] eqn:Hs;
      cbn [events fetched drawn extractedUrls]; intros [= <- <-].
    - left. exists (toWellFormed body). split; [reflexivity|].
      split; [reflexivity|]. rewrite <- !app_assoc. reflexivity.
    - right. right. exists e, (toWellFormed body). split; [reflexivity|].
      split; [left; reflexivity|]. rewrite <- !app_assoc. reflexivity.
    - right. right. exists e, (toWellFormed body). split; [reflexivity|].
      split; [right; reflexivity|]. rewrite <- !app_assoc. reflexivity. }
  destruct (improvedMarkdown result) as [enriched|].
  - unfold bind at 1, lift.
    destruct (createMetadata _ _ _ _ (Some enriched)) as [md|e].
    + unfold ret at 1. unfold bind at 1. apply Hdeliver.
    + run_to_end. intros [= <- <-]. right. left. exists e.
      split; [reflexivity|]. rewrite <- app_assoc. reflexivity.
  - unfold bind at 1, lift.
    destruct (createMetadata _ _ _ _ None) as [md|e].
    + unfold ret at 1. unfold bind at 1. apply Hdeliver.
    + run_to_end. intros [= <- <-]. right. left. exists e.
      split; [reflexivity|]. rewrite <- app_assoc. reflexivity.
Qed.

(** X13. Every run of the background pipeline ends in one of three ways
    after its requests and waits.  It returns: then the history could be
    written, and the run has triggered one download under the requested
    file name, written the history with the URL recorded, shown the
    completion notification and sent the completion message with success
    true, in this order.  Or it throws before it delivers: then it has
    shown the failure notification and sent the completion message with
    success false, both with the message of the error it throws, and has
    triggered no download.  Or it throws the rejection of the storage:
    then it has triggered the download, asked for the write if the write
    is what was rejected, and reported the failure in the same way.  In
    every run that throws the history is left as it was. *)
Theorem pipeline_ends_one_way (request : Request) (w : World) :
  exists trace,
    forallb network_only trace = true /\
    ((exists body,
        fst (processAndDownloadWithGemini env request w) = Ok tt /\
        storage env = StorageServes /\
        events (snd (processAndDownloadWithGemini env request w))
        = events w ++ trace
            ++ delivered env request (extractedUrls w) body /\
        extractedUrls (snd (processAndDownloadWithGemini env request w))
        = addExtractedUrl (extractedUrls w) (req_url request) (now env))
     \/
     (exists e,
        fst (processAndDownloadWithGemini env request w) = Throw e /\
        events (snd (processAndDownloadWithGemini env request w))
        = events w ++ trace ++ reported e /\
        extractedUrls (snd (processAndDownloadWithGemini env request w))
        = extractedUrls w)
     \/
     (exists e body,
        fst (processAndDownloadWithGemini env request w) = Throw e /\
        storage_rejects env e /\
        events (snd (processAndDownloadWithGemini env request w))
        = events w ++ trace
            ++ unrecorded env request (extractedUrls w) body e /\
        extractedUrls (snd (processAndDownloadWithGemini env request w))
        = extractedUrls w)).
Proof.
  destruct (processAndDownloadWithGemini env request w) as [o w'] eqn:Hrun.
  destruct (pipeline_cases _ _ _ _ Hrun) as (o1 & w1 & Himp & Hcases).
  destruct (improve_quiet _ _ _ _ _ _ _ _ Himp) as (Hu & trace & He & Hn).
  exists trace. split; [exact Hn|]. cbn [fst snd].
  destruct Hcases
    as [(body & -> & Hs & ->)|[(e & -> & ->)|(e & body & -> & Hs & ->)]];
    cbn [events extractedUrls].
  - left. exists body. rewrite He, Hu, <- app_assoc. auto.
  - right. left. exists e. rewrite He, Hu, <- app_assoc. auto.
  - right. right. exists e, body. rewrite He, Hu, <- app_assoc. auto.
Qed.

(** X14. A page whose publication date is not empty and is rejected by
    the conversion to an ISO string cannot be delivered by the background
    pipeline: whatever the network answers, the run throws, triggers no
    download and leaves the history as it was; when the enrichment itself
    succeeded, the error thrown is the one of the date conversion. *)
Theorem unparseable_date_aborts_delivery (request : Request) (w : World)
    (p : jsstring) (e : jserror) :
  publicationDate (req_pageContent request) = Some p ->
  truthy p = true ->
  dateISO p = Throw e ->
  exists e' w',
    processAndDownloadWithGemini env request w = (Throw e', w') /\
    downloaded w' = downloaded w /\
    extractedUrls w' = extractedUrls w /\
    (forall reply w1,
        improveMarkdownWithGemini env (req_markdown request)
          (req_apiKey request) (images (req_pageContent request))
          (req_model request) w = (Ok reply, w1) ->
        e' = e).
Proof.
  intros Hp Ht He.
  destruct (improveMarkdownWithGemini env (req_markdown request)
              (req_apiKey request) (images (req_pageContent request))
              (req_model request) w) as [o w1] eqn:Himp.
  pose proof (improve_quiet _ _ _ _ _ _ _ _ Himp) as Hq.
  pose proof (quiet_downloaded _ _ Hq) as Hd. destruct Hq as [Hu _].
  unfold processAndDownloadWithGemini, try_catch. unfold bind at 1.
  rewrite Himp.
  assert (Hdl : forall e0,
    downloaded (mkWorld ((events w1 ++ [ENotify (lit "Extraction Failed")
                                          (lit "Error: " ++ message e0)])
                           ++ [ESendMessage false (message e0)])
                  (fetched w1) (drawn w1) (extractedUrls w1))
    = downloaded w).
  { intros e0. rewrite <- Hd. unfold downloaded. simpl.
    rewrite !omap_app. simpl. rewrite !app_nil_r. reflexivity. }
  destruct o as [result|e0].
  2:{ eexists _, _. simpl. split; [reflexivity|].
      split; [apply Hdl|]. split; [exact Hu | discriminate]. }
  unfold bind at 1.
  assert (Hm : forall g, createMetadata (nowISO env) (req_pageContent request)
                           (req_url request) (req_category request) g
                         = Throw e).
  { intros g. eapply createMetadata_bad_date; eassumption. }
  destruct (improvedMarkdown result) as [enriched|];
    unfold bind at 1, lift; rewrite Hm; simpl;
    (eexists _, _; split; [reflexivity|];
     split; [apply Hdl|]; split; [exact Hu | reflexivity]).
Qed.

End PipelineExtras.

(** ** The listener of the background script *)

Section ListenerExtras.
Context `{JsRuntime} (env : Env).


End ListenerExtras.

(** ** The bytes of the download *)

Section BinaryExtras.

Lemma binary_loop_all data_ : forall turns i,
  0 <= i ->
  Z.of_nat (length data_) - i <= Z.of_nat turns * chunkSize ->
  binary_loop turns data_ i (take (Z.to_nat i) data_) = data_.
Proof.
  unfold chunkSize.
  induction turns as [|turns IH]; intros i H0 Hi; cbn [binary_loop];
    unfold chunkSize.
  - apply take_ge. lia.
  - destruct (Z.ltb_spec i (Z.of_nat (length data_))) as [Hlt|Hge];
      [|apply take_ge; lia].
    rewrite take_take_drop, <- Z2Nat.inj_add by lia.
    apply IH; lia.
Qed.

(** X16. The loop that turns the encoded bytes into the text for the
    base64 encoder, 8192 bytes at a time, loses, repeats and reorders
    nothing: whatever the length, the text is the bytes themselves, and
    it is complete after as many turns as there are blocks of 8192. *)
Theorem binary_of_is_the_bytes (data_ : list codeunit) :
  binary_of data_ = data_ /\
  (forall turns, Z.of_nat (length data_) <= Z.of_nat turns * 8192 ->
                 binary_loop turns data_ 0 [] = data_).
Proof.
  split.
  - unfold binary_of.
    apply (binary_loop_all data_ (length data_) 0); unfold chunkSize; lia.
  - intros turns Hl.
    apply (binary_loop_all data_ turns 0); unfold chunkSize; lia.
Qed.

End BinaryExtras.

(** ** The code-block rule *)

(** X17. For a [pre] element with a [code] element, the rule writes a line
    feed, the opening fence with the language, a line feed, the code
    without white space at either end, a line feed, the closing fence and
    a line feed; the language is empty or made of letters, digits and
    underscores only, so it can hold neither white space nor a backtick;
    the code is the text of the [code] element, or the converted content
    when that text is empty. *)
Theorem enhancedCodeBlock_fence (content : jsstring) (el : CodeElement) :
  exists lang,
    enhancedCodeBlock content (Some el)
    = [LF] ++ lit "```" ++ lang ++ [LF]
        ++ trim (if truthy (textContent el) then textContent el else content)
        ++ [LF] ++ lit "```" ++ [LF] /\
    forallb is_word lang = true /\
    (forall c, In c lang -> is_space c = false /\ c <> 96%N).
Proof.
  unfold enhancedCodeBlock.
  assert (Hw : forall lang, forallb is_word lang = true ->
               forall c, In c lang -> is_space c = false /\ c <> 96%N).
  { intros lang Hl c Hc. rewrite forallb_forall in Hl.
    specialize (Hl c Hc). revert Hl. unfold is_word, is_space, cu_eqb.
    rewrite !orb_true_iff, !andb_true_iff, !N.leb_le, N.eqb_eq.
    intros Hl. split; [|lia].
    repeat match goal with
           | |- context [(c =? ?k)%N] =>
               destruct (N.eqb_spec c k); [lia|]
           | |- context [(?a <=? c)%N] =>
               destruct (N.leb_spec a c); [|]
           | |- context [(c <=? ?a)%N] =>
               destruct (N.leb_spec c a); [|]
           end; simpl; try reflexivity; lia. }
  destruct (regex_match re_lang (className el)) as [g|] eqn:E.
  - exists g. split; [reflexivity|].
    change re_lang
      with ([Words [map exactly (lit "lang"); map exactly (lit "language")];
             One (exactly 45%N)]
              ++ [GOpen; One is_word; Star is_word; GClose]) in E.
    apply group_of_plus in E as [_ Hg]; [|reflexivity].
    split; [exact Hg | exact (Hw g Hg)].
  - exists []. split; [reflexivity|]. split; [reflexivity|]. intros c [].
Qed.

(** ** Images *)

Section ImageExtras.

Lemma sampleImages_closed imgs : forall acc n,
  sampleImages imgs acc n = acc ++ take (5 - n) (omap sample_of imgs).
Proof.
  induction imgs as [|img imgs IH]; intros acc n.
  - simpl. rewrite take_nil, app_nil_r. reflexivity.
  - cbn [sampleImages].
    change (omap sample_of (img :: imgs))
      with (match sample_of img with
            | Some y => y :: omap sample_of imgs
            | None => omap sample_of imgs
            end).
    destruct (Nat.leb_spec 5 n) as [Hn|Hn].
    + replace (5 - n)%nat with 0%nat by lia. rewrite take_0, app_nil_r.
      reflexivity.
    + unfold sample_of at 1.
      destruct ((img_width img <? 100) || (img_height img <? 100));
        [apply IH|].
      destruct (img_data img) as [d|]; cbn [option_map]; [|apply IH].
      rewrite IH, <- app_assoc.
      replace (5 - n)%nat with (S (5 - S n)) by lia. reflexivity.
Qed.

(** X18. The images handed on with the page are the first five, in the
    order of the document, of the elements that are at least 100 wide and
    100 high and whose pixels can be read back; smaller elements and
    elements that cannot be read are passed over without using up one of
    the five places, and every sample is labelled as a JPEG. *)
Theorem sampled_images_are_the_first_five (imgs : list ImgElement) :
  sampleImages imgs [] 0 = take 5 (omap sample_of imgs) /\
  (length (sampleImages imgs [] 0) <= 5)%nat /\
  Forall (fun s => mimeType s = lit "image/jpeg") (sampleImages imgs [] 0) /\
  (forall img, sample_of img <> None <->
               100 <= img_width img /\ 100 <= img_height img /\
               img_data img <> None).
Proof.
  rewrite sampleImages_closed. simpl. split; [reflexivity|].
  split; [rewrite length_take; lia|]. split.
  - apply Forall_take. induction imgs as [|img imgs IH]; simpl;
      [constructor|].
    unfold sample_of at 1.
    destruct ((img_width img <? 100) || (img_height img <? 100)); [exact IH|].
    destruct (img_data img); simpl; [constructor; [reflexivity | exact IH]
                                    | exact IH].
  - intros img. unfold sample_of.
    destruct (Z.ltb_spec (img_width img) 100),
             (Z.ltb_spec (img_height img) 100); simpl;
      try (split; [congruence | lia]).
    destruct (img_data img); simpl; split; try congruence; try lia.
    + intros _. repeat split; try lia. discriminate.
    + intros (_ & _ & Hd). congruence.
Qed.

End ImageExtras.

(** ** The click on the extract button *)

Section ClickExtras.
Context `{JsRuntime} (turndown : jsstring -> jsstring).

Lemma validateTab_Ok tab :
  validateTab tab = Ok tt <->
  exists t n, tab = Some t /\ internal_page t = false /\
              tab_id t = VNumber n /\ n <> 0.
Proof.
  unfold validateTab. destruct tab as [t|].
  2:{ split; [discriminate | intros (t & n & E & _); discriminate E]. }
  destruct (internal_page t) eqn:Hi.
  { split; [discriminate | intros (t' & n & [= <-] & E & _); congruence]. }
  destruct (tab_id t) as [|n|s] eqn:Eid; simpl.
  - split; [discriminate | intros (t' & n & [= <-] & _ & E & _)].
    rewrite Eid in E. discriminate E.
  - destruct (Z.eqb_spec n 0) as [->|Hn]; simpl.
    + split; [discriminate | intros (t' & n & [= <-] & _ & E & Hn)].
      rewrite Eid in E. injection E as <-. contradiction.
    + split; [|reflexivity]. intros _. exists t, n. rewrite Eid. auto.
  - split; [destruct (truthy s); discriminate|].
    intros (t' & n & [= <-] & _ & E & _). rewrite Eid in E. discriminate E.
Qed.

Ltac click_leaf :=
  let e := fresh "e" in
  let E := fresh "E" in
  intros e E; cbn [caught negb] in E;
  first
    [ discriminate E
    | cbn [history popup_events app negb];
      split; [reflexivity|];
      split; [intros request Hin;
              repeat (destruct Hin as [Hin|Hin]; [discriminate Hin|]);
              exact Hin|];
      first [ left; reflexivity | right; left; eexists; reflexivity ] ].

(** X19. The click handler touches nothing without a page it may read.
    It injects the script only into a tab whose URL starts neither with
    chrome:// nor with about: and whose id is a number other than zero;
    on a browser-internal page it shows the error of such pages and does
    nothing else.  Whenever it ends in its catch block it has sent no
    message and left the history as it was, and it has triggered a
    download only when the error it shows is the rejection of the storage
    that was to record the URL: after the injection it has then triggered
    the download and, if the write is what was rejected, asked for the
    write. *)
Theorem click_guard (c : Click) (urls : list HistoryEntry) :
  (popup_events (extractClick turndown c urls) <> [] ->
   exists tab n,
     click_tab c = Some tab /\ internal_page tab = false /\
     tab_id tab = VNumber n /\ n <> 0 /\
     head (popup_events (extractClick turndown c urls))
     = Some (PExecuteScript (VNumber n))) /\
  (forall tab,
     click_tab c = Some tab -> internal_page tab = true ->
     extractClick turndown c urls
     = mkClickResult
         (Throw (JsError
                   (lit "Cannot extract content from browser-internal pages.")))
         [] urls) /\
  (forall e,
     caught (extractClick turndown c urls) = Throw e ->
     history (extractClick turndown c urls) = urls /\
     (forall request,
        ~ In (PSendMessage request)
             (popup_events (extractClick turndown c urls))) /\
     (popup_events (extractClick turndown c urls) = [] \/
      (exists id, popup_events (extractClick turndown c urls)
                  = [PExecuteScript id]) \/
      (click_storage c = GetRejects e /\
       exists id content_ filename,
         popup_events (extractClick turndown c urls)
         = [PExecuteScript id; PDownload content_ filename true]) \/
      (click_storage c = SetRejects e /\
       exists tab url_ content_ filename,
         click_tab c = Some tab /\ tab_url tab = Some url_ /\
         popup_events (extractClick turndown c urls)
         = [PExecuteScript (tab_id tab); PDownload content_ filename true;
            PStorageSet (addExtractedUrl urls url_ (click_now c))]))).
Proof.
  split; [|split].
  - unfold extractClick.
    destruct (validateTab (click_tab c)) as [[]|e] eqn:V; [|simpl; congruence].
    apply validateTab_Ok in V as (t & n & -> & Hi & Hid & Hn).
    intros _. exists t, n. split; [reflexivity|].
    do 3 (split; [assumption|]). rewrite <- Hid.
    destruct (click_script c) as [[page|]|e]; try reflexivity.
    destruct (truthy (html page)); [|reflexivity]. cbn [negb].
    destruct (tab_url t) as [u|]; [|reflexivity].
    destruct (useGemini (click_settings c)
              && truthy (geminiApiKey (click_settings c))); [reflexivity|].
    destruct (createMetadata _ _ _ _ None) as [md|e]; [|reflexivity].
    unfold downloadFile. destruct (click_spread c _); [reflexivity|].
    destruct (click_storage c); reflexivity.
  - intros tab Ht Hi. unfold extractClick, validateTab. rewrite Ht, Hi.
    reflexivity.
  - unfold extractClick.
    destruct (validateTab (click_tab c)) as [[]|e0]; [|click_leaf].
    destruct (click_tab c) as [t|]; [|click_leaf].
    destruct (click_script c) as [[page|]|e0]; try click_leaf.
    destruct (truthy (html page)); cbn [negb]; [|click_leaf].
    destruct (tab_url t) as [u|] eqn:Hu; [|click_leaf].
    destruct (useGemini (click_settings c)
              && truthy (geminiApiKey (click_settings c))); [click_leaf|].
    destruct (createMetadata _ _ _ _ None) as [md|e0]; [|click_leaf].
    unfold downloadFile. destruct (click_spread c _) as [e0|]; [click_leaf|].
    destruct (click_storage c) as [|e0|e0] eqn:Hs; [click_leaf| |];
      intros e E; injection E as <-; cbn [history popup_events app];
      (split; [reflexivity|]);
      (split; [intros request Hin;
               repeat (destruct Hin as [Hin|Hin]; [discriminate Hin|]);
               exact Hin|]).
    + right. right. left. split; [reflexivity|].
      eexists _, _, _. reflexivity.
    + right. right. right. split; [reflexivity|].
      exists t, u. eexists _, _. split; [reflexivity|].
      split; [exact Hu | reflexivity].
Qed.

(** X20. A click whose try block runs to its end has read a page with
    markup from a tab with a URL, and has done one of two things after
    the injection.  With the enrichment switched on and a key stored, it
    has sent one request to the background, with the page, the URL, the
    category and the file name computed for them, the converted markup,
    the key and a model that is not empty, and has neither downloaded
    nor written the history itself.  Otherwise the bytes could be spread
    and the storage served the calls, and the click has triggered the
    download of the front matter without enrichment followed by the
    converted markup, as the encoder writes them, under the computed
    file name, and then written the history with the URL recorded. *)
Theorem click_hands_off_or_delivers (c : Click) (urls : list HistoryEntry) :
  caught (extractClick turndown c urls) = Ok tt ->
  exists tab url_ page,
    click_tab c = Some tab /\ tab_url tab = Some url_ /\
    click_script c = Ok (Some page) /\ truthy (html page) = true /\
    (if useGemini (click_settings c)
        && truthy (geminiApiKey (click_settings c))
     then
       exists model,
         truthy model = true /\
         (truthy (geminiModel (click_settings c)) = true ->
          model = geminiModel (click_settings c)) /\
         popup_events (extractClick turndown c urls)
         = [PExecuteScript (tab_id tab);
            PSendMessage
              (mkRequest page url_ (detectCategory (title page) url_)
                 (turndown (html page))
                 (generateFilename (click_today c) page url_)
                 (geminiApiKey (click_settings c)) (Some model))] /\
         history (extractClick turndown c urls) = urls
     else
       exists metadata,
         createMetadata (click_nowISO c) page url_
           (detectCategory (title page) url_) None = Ok metadata /\
         click_spread c (metadata ++ turndown (html page)) = None /\
         click_storage c = StorageServes /\
         popup_events (extractClick turndown c urls)
         = [PExecuteScript (tab_id tab);
            PDownload (toWellFormed (metadata ++ turndown (html page)))
              (generateFilename (click_today c) page url_) true;
            PStorageSet (addExtractedUrl urls url_ (click_now c))] /\
         history (extractClick turndown c urls)
         = addExtractedUrl urls url_ (click_now c)).
Proof.
  unfold extractClick.
  destruct (validateTab (click_tab c)) as [[]|e0]; [|discriminate].
  destruct (click_tab c) as [t|]; [|discriminate].
  destruct (click_script c) as [[page|]|e0]; try discriminate.
  destruct (truthy (html page)) eqn:Hh; cbn [negb]; [|discriminate].
  destruct (tab_url t) as [u|] eqn:Hu; [|discriminate].
  destruct (useGemini (click_settings c)
            && truthy (geminiApiKey (click_settings c))).
  - intros _. exists t, u, page. split; [reflexivity|].
    split; [exact Hu|]. split; [reflexivity|].
    split; [exact Hh|].
    exists (if truthy (geminiModel (click_settings c))
            then geminiModel (click_settings c) else lit "gemini-2.5-pro").
    split; [|split; [|split; reflexivity]].
    + destruct (truthy (geminiModel (click_settings c))) eqn:E;
        [exact E | reflexivity].
    + intros E. rewrite E. reflexivity.
  - destruct (createMetadata _ _ _ _ None) as [md|e0] eqn:Hm; [|discriminate].
    unfold downloadFile.
    destruct (click_spread c _) as [e0|] eqn:Hsp; [discriminate|].
    destruct (click_storage c) as [|e0|e0] eqn:Hst; try discriminate.
    intros _. exists t, u, page. split; [reflexivity|].
    split; [exact Hu|]. split; [reflexivity|].
    split; [exact Hh|]. exists md. split; [exact Hm|].
    split; [exact Hsp|]. split; [reflexivity|]. split; reflexivity.
Qed.

End ClickExtras.

(** ** From the click to the background run *)

Section HandOffExtras.
Context `{JsRuntime} (turndown : jsstring -> jsstring) (env : Env).

Lemma click_request_shape (c : Click) (urls : list HistoryEntry)
    (request : Request) :
  In (PSendMessage request) (popup_events (extractClick turndown c urls)) ->
  exists tab url_ page,
    click_tab c = Some tab /\ tab_url tab = Some url_ /\
    click_script c = Ok (Some page) /\
    truthy (req_apiKey request) = true /\
    req_pageContent request = page /\
    req_url request = url_ /\
    req_markdown request = turndown (html page) /\
    req_category request = detectCategory (title page) url_ /\
    req_filename request = generateFilename (click_today c) page url_.
Proof.
  unfold extractClick.
  destruct (validateTab (click_tab c)) as [[]|e0]; [|intros []].
  destruct (click_tab c) as [t|]; [|intros []].
  destruct (click_script c) as [[page|]|e0];
    try (intros [E|[]]; discriminate E).
  destruct (truthy (html page)); cbn [negb];
    [|intros [E|[]]; discriminate E].
  destruct (tab_url t) as [u|] eqn:Hu; [|intros [E|[]]; discriminate E].
  assert (Hdirect : forall request,
    In (PSendMessage request)
       (popup_events
          match createMetadata (click_nowISO c) page u
                  (detectCategory (title page) u) None with
          | Throw e => mkClickResult (Throw e) [PExecuteScript (tab_id t)] urls
          | Ok metadata =>
              match downloadFile (click_spread c)
                      (generateFilename (click_today c) page u)
                      (metadata ++ turndown (html page)) with
              | Throw e =>
                  mkClickResult (Throw e) [PExecuteScript (tab_id t)] urls
              | Ok triggered =>
                  match click_storage c with
                  | StorageServes =>
                      mkClickResult (Ok tt)
                        ([PExecuteScript (tab_id t)] ++
                         [triggered;
                          PStorageSet
                            (addExtractedUrl urls u (click_now c))])
                        (addExtractedUrl urls u (click_now c))
                  | GetRejects e =>
                      mkClickResult (Throw e)
                        ([PExecuteScript (tab_id t)] ++ [triggered]) urls
                  | SetRejects e =>
                      mkClickResult (Throw e)
                        ([PExecuteScript (tab_id t)] ++
                         [triggered;
                          PStorageSet
                            (addExtractedUrl urls u (click_now c))])
                        urls
                  end
              end
          end) -> False).
  { intros rq. destruct (createMetadata _ _ _ _ None);
      [|intros [E|[]]; discriminate E].
    unfold downloadFile. destruct (click_spread c _);
      [intros [E|[]]; discriminate E|].
    destruct (click_storage c); cbn [popup_events app];
      intros Hin; repeat (destruct Hin as [Hin|Hin]; [discriminate Hin|]);
      exact Hin. }
  destruct (useGemini (click_settings c)) eqn:Hg; cbn [andb].
  2:{ intros Hin. exfalso. exact (Hdirect _ Hin). }
  destruct (truthy (geminiApiKey (click_settings c))) eqn:Hk.
  2:{ intros Hin. exfalso. exact (Hdirect _ Hin). }
  intros [E|[E|[]]]; [discriminate E|]. injection E as <-.
  exists t, u, page. cbn. auto 10.
Qed.

(** X21. The request that a click hands to the background keeps the
    click: the background run on it makes at least one request to the
    model and at most eight, and when it returns it has triggered the
    download under the file name that the popup computed for the page and
    the URL of the tab, and has recorded that URL in the history. *)
Theorem handed_off_run_keeps_the_click (c : Click) (urls : list HistoryEntry)
    (request : Request) (w : World) :
  In (PSendMessage request) (popup_events (extractClick turndown c urls)) ->
  exists tab url_ page,
    click_tab c = Some tab /\ tab_url tab = Some url_ /\
    click_script c = Ok (Some page) /\
    (fetched w
     < fetched (snd (processAndDownloadWithGemini env request w))
     <= fetched w + 8)%nat /\
    (fst (processAndDownloadWithGemini env request w) = Ok tt ->
     exists trace body,
       forallb network_only trace = true /\
       events (snd (processAndDownloadWithGemini env request w))
       = events w ++ trace
           ++ [EDownload body (generateFilename (click_today c) page url_)
                 true;
               EStorageSet
                 (addExtractedUrl (extractedUrls w) url_ (now env));
               ENotify (lit "Page Extraction Complete")
                 (lit "File " ++ [DQUOTE]
                    ++ generateFilename (click_today c) page url_
                    ++ [DQUOTE] ++ lit " has been downloaded successfully.");
               ESendMessage true
                 (generateFilename (click_today c) page url_)]).
Proof.
  intros Hsent.
  destruct (click_request_shape c urls request Hsent)
    as (tab & u & page & Ht & Hu & Hs & Hkey & Hp & Hurl & Hmd & Hcat & Hfn).
  exists tab, u, page. do 3 (split; [assumption|]).
  destruct (processAndDownloadWithGemini env request w) as [o w'] eqn:Hrun.
  destruct (pipeline_cases _ _ _ _ _ Hrun) as (o1 & w1 & Himp & Hcases).
  destruct (improve_quiet _ _ _ _ _ _ _ _ Himp) as (Hq & trace & He & Hn).
  destruct (improve_counts _ _ _ _ _ _ _ _ Hkey Himp) as [Hc _].
  cbn [fst snd]. split.
  - destruct Hcases
      as [(body & -> & _ & ->)|[(e & -> & ->)|(e & body & -> & _ & ->)]];
      exact Hc.
  - intros ->.
    destruct Hcases
      as [(body & _ & _ & ->)|[(e & E & _)|(e & body & E & _)]];
      [|discriminate E|discriminate E].
    exists trace, body. split; [exact Hn|]. cbn [events].
    unfold delivered. rewrite He, Hq, Hurl, Hfn, <- app_assoc. reflexivity.
Qed.

End HandOffExtras.

(** ** Enrichment from the popup *)

Section PopupEnrichmentExtras.
Context `{JsRuntime} (env : Env).

(** Whether the front matter can be written depends on the publication
    date and the URL only. *)
Lemma createMetadata_any_data dateCaptured page url_ category g g' metadata :
  createMetadata dateCaptured page url_ category g = Ok metadata ->
  exists metadata',
    createMetadata dateCaptured page url_ category g' = Ok metadata'.
Proof.
  unfold createMetadata.
  destruct (match publicationDate page with
            | Some p => if truthy p then Some p else None
            | None => None
            end) as [p|]; [destruct (dateISO p)|];
    destruct (urlHostname url_); try discriminate;
    intros _; eexists; reflexivity.
Qed.

(** X24. [improveWithGeminiIfEnabled], which nothing calls, is where an
    enrichment failure is not fatal: whenever the front matter without
    enrichment can be written, the function returns a document, and it
    triggers no download and leaves the history as it is.  The document
    is that front matter followed by the Markdown when the enrichment is
    switched off or has no key, and when the enrichment call throws; it
    is the enriched front matter followed by the content of the answer
    when that content is not empty; and when that content is empty it is
    the front matter without enrichment followed by the text
    [[object Object]], not by the Markdown. *)
Theorem improveWithGeminiIfEnabled_degrades (settings : Settings)
    (page : PageContent) (url_ category markdown : jsstring)
    (images_ : list ImageSample) (w : World) (metadata : jsstring) :
  createMetadata (nowISO env) page url_ category None = Ok metadata ->
  exists text,
    fst (improveWithGeminiIfEnabled env settings page url_ category markdown
           images_ w) = Ok text /\
    quiet w (snd (improveWithGeminiIfEnabled env settings page url_ category
                    markdown images_ w)) /\
    (if useGemini settings && truthy (geminiApiKey settings) then
       match fst (improveMarkdownWithGemini env markdown
                    (geminiApiKey settings) images_
                    (Some (if truthy (geminiModel settings)
                           then geminiModel settings
                           else lit "gemini-2.5-pro")) w) with
       | Throw _ => text = metadata ++ markdown
       | Ok reply =>
           match improvedMarkdown reply with
           | Some result =>
               if truthy (content result) then
                 exists enrichedMetadata,
                   createMetadata (nowISO env) page url_ category
                     (Some result) = Ok enrichedMetadata /\
                   text = enrichedMetadata ++ content result
               else text = metadata ++ lit "[object Object]"
           | None => text = metadata ++ markdown
           end
       end
     else text = metadata ++ markdown).
Proof.
  intros Hbasic.
  destruct (improveWithGeminiIfEnabled env settings page url_ category
              markdown images_ w) as [o' w'] eqn:Hrun.
  revert Hrun. unfold improveWithGeminiIfEnabled. cbn [fst snd].
  destruct (useGemini settings); cbn [negb orb andb].
  2:{ unfold bind, lift, ret. rewrite Hbasic. intros [= <- <-].
      exists (metadata ++ markdown). split; [reflexivity|].
      split; [apply quiet_refl | reflexivity]. }
  destruct (truthy (geminiApiKey settings)); cbn [negb].
  2:{ unfold bind, lift, ret. rewrite Hbasic. intros [= <- <-].
      exists (metadata ++ markdown). split; [reflexivity|].
      split; [apply quiet_refl | reflexivity]. }
  unfold onMessage.
  destruct (improveMarkdownWithGemini env markdown (geminiApiKey settings)
              images_
              (Some (if truthy (geminiModel settings)
                     then geminiModel settings else lit "gemini-2.5-pro")) w)
    as [o w1] eqn:Himp.
  pose proof (improve_quiet _ _ _ _ _ _ _ _ Himp) as Hq.
  unfold bind at 1. unfold try_catch at 1. unfold bind at 1.
  unfold try_catch at 1. unfold bind at 1. rewrite Himp. cbn [fst].
  destruct o as [reply|e].
  2:{ unfold ret, throw, bind, lift. rewrite Hbasic. intros [= <- <-].
      exists (metadata ++ markdown). auto. }
  unfold ret at 1. cbv beta iota.
  destruct (improvedMarkdown reply) as [result|].
  2:{ unfold ret, throw, bind, lift. rewrite Hbasic. intros [= <- <-].
      exists (metadata ++ markdown). auto. }
  destruct (truthy (content result)).
  - destruct (createMetadata_any_data _ _ _ _ None (Some result) _ Hbasic)
      as [em Hem].
    unfold ret, bind, lift. rewrite Hem. intros [= <- <-].
    exists (em ++ content result). split; [reflexivity|]. split; [exact Hq|].
    exists em. auto.
  - unfold ret, bind, lift. rewrite Hbasic. intros [= <- <-].
    exists (metadata ++ lit "[object Object]"). auto.
Qed.

End PopupEnrichmentExtras.

(** ** The options page *)

Section OptionsExtras.

Lemma existsb_str_In x l : existsb (str_eqb x) l = true <-> In x l.
Proof.
  rewrite existsb_exists. split.
  - intros (y & Hy & E). apply str_eqb_eq in E as ->. exact Hy.
  - intros Hx. exists x. split; [exact Hx | apply str_eqb_refl].
Qed.

Lemma removeCustomModel_In name models m :
  In m (removeCustomModel name models) <-> In m models /\ m <> name.
Proof.
  unfold removeCustomModel. rewrite List.filter_In, negb_true_iff. split.
  - intros [Hm E]. split; [exact Hm|]. intros ->.
    rewrite str_eqb_refl in E. discriminate.
  - intros [Hm Hne]. split; [exact Hm|].
    destruct (str_eqb m name) eqn:E; [|reflexivity].
    apply str_eqb_eq in E. contradiction.
Qed.

Lemma removeCustomModel_absent name models :
  ~ In name models -> removeCustomModel name models = models.
Proof.
  unfold removeCustomModel. induction models as [|m models IH]; simpl;
    [reflexivity|].
  intros Hn. destruct (str_eqb m name) eqn:E; simpl.
  - apply str_eqb_eq in E. exfalso. apply Hn. left. exact E.
  - f_equal. apply IH. intros Hin. apply Hn. right. exact Hin.
Qed.

Lemma trim_idem s : trim (trim s) = trim s.
Proof.
  destruct (trim_trimmed s) as [Hh Hl].
  remember (trim s) as x eqn:Ex. clear Ex s.
  unfold trim.
  assert (Hs : trimStart x = x).
  { destruct x as [|c x]; [reflexivity|]. simpl.
    rewrite (Hh c eq_refl). reflexivity. }
  rewrite Hs. unfold trimEnd. rewrite <- (rev_involutive x) at 2. f_equal.
  rewrite <- (rev_involutive x) in Hl.
  destruct (rev x) as [|c y] eqn:Er; [reflexivity|]. simpl.
  assert (Hc : is_space c = false).
  { apply Hl. simpl. rewrite last_snoc. reflexivity. }
  rewrite Hc. reflexivity.
Qed.

(** X22. The options page keeps the stored list of custom models in
    order: adding through the input field and removing by name leave it
    without a name twice and with every name trimmed, starting with
    gemini- and different from the built-in models; a rejected input
    leaves the list as it is; a name that was added is the last one of
    the list and removing it gives the list back; and a removed name is
    no longer in the list, the other names staying in their order. *)
Theorem custom_models_stay_well_kept (input name : jsstring)
    (customModels : list jsstring) :
  well_kept customModels ->
  well_kept (fst (addCustomModel input customModels)) /\
  well_kept (removeCustomModel name customModels) /\
  (fst (addCustomModel input customModels) = customModels \/
   fst (addCustomModel input customModels) = customModels ++ [trim input] /\
   snd (addCustomModel input customModels)
   = (lit "Custom model added successfully!", StSuccess) /\
   removeCustomModel (trim input) (fst (addCustomModel input customModels))
   = customModels) /\
  ~ In name (removeCustomModel name customModels) /\
  (forall m, m <> name ->
             (In m (removeCustomModel name customModels) <->
              In m customModels)).
Proof.
  intros [Hnd Hall]. split; [|split; [|split; [|split]]].
  - unfold addCustomModel.
    destruct (truthy (trim input)); cbn [negb fst]; [|split; assumption].
    destruct (startsWith (lit "gemini-") (trim input)) eqn:Hp; cbn [negb fst];
      [|split; assumption].
    destruct (existsb (str_eqb (trim input)) DEFAULT_MODELS) eqn:Hd;
      cbn [orb fst]; [split; assumption|].
    destruct (existsb (str_eqb (trim input)) customModels) eqn:Hc;
      cbn [fst]; [split; assumption|].
    assert (Hnd' : ~ In (trim input) DEFAULT_MODELS).
    { intros Hin. apply existsb_str_In in Hin. congruence. }
    assert (Hnc : ~ In (trim input) customModels).
    { intros Hin. apply existsb_str_In in Hin. congruence. }
    split.
    + apply NoDup_app. split; [exact Hnd|]. split.
      * intros x Hx Hx'. apply list_elem_of_In in Hx, Hx'.
        destruct Hx' as [<-|[]]. contradiction.
      * apply NoDup_singleton.
    + apply Forall_app. split; [exact Hall|]. constructor; [|constructor].
      split; [exact Hp|]. split; [apply trim_idem | exact Hnd'].
  - unfold removeCustomModel. split.
    + apply NoDup_ListNoDup. apply List.NoDup_filter.
      apply NoDup_ListNoDup, Hnd.
    + rewrite Forall_forall in Hall. apply Forall_forall. intros m Hm.
      apply list_elem_of_In, List.filter_In in Hm as [Hm _].
      apply Hall, list_elem_of_In, Hm.
  - unfold addCustomModel.
    destruct (truthy (trim input)); cbn [negb fst snd]; [|left; reflexivity].
    destruct (startsWith (lit "gemini-") (trim input)); cbn [negb fst snd];
      [|left; reflexivity].
    destruct (existsb (str_eqb (trim input)) DEFAULT_MODELS);
      cbn [orb fst snd]; [left; reflexivity|].
    destruct (existsb (str_eqb (trim input)) customModels) eqn:Hc;
      cbn [fst snd]; [left; reflexivity|].
    right. split; [reflexivity|]. split; [reflexivity|].
    assert (Hnc : ~ In (trim input) customModels).
    { intros Hin. apply existsb_str_In in Hin. congruence. }
    unfold removeCustomModel. rewrite List.filter_app. simpl.
    rewrite str_eqb_refl. simpl. rewrite app_nil_r.
    apply removeCustomModel_absent, Hnc.
  - intros Hin. apply removeCustomModel_In in Hin as [_ Hne]. congruence.
  - intros m Hne. rewrite removeCustomModel_In. tauto.
Qed.

(** X23. The button of the options page that keeps the last 100 entries
    stores what [keepLastNUrls] with 100 stores; but when it trims, its
    message always says that 0 older entries were removed, although the
    entries beyond the 100 most recent ones, at least one, were. *)
Theorem keepLast100_reports_zero (urls : list HistoryEntry) :
  fst (keepLast100 urls) = keepLastNUrls 100 urls /\
  ((100 < length urls)%nat ->
   snd (keepLast100 urls)
   = (lit "Kept last 100 URLs, removed 0 older entries.", StSuccess) /\
   length (fst (keepLast100 urls)) = 100%nat /\
   (0 < length urls - length (fst (keepLast100 urls)))%nat) /\
  ((length urls <= 100)%nat ->
   keepLast100 urls
   = (urls, (lit "Already have 100 or fewer URLs in history.", StInfo))).
Proof.
  unfold keepLast100, keepLastNUrls.
  destruct (Nat.ltb_spec 100 (length urls)) as [Hlt|Hle]; cbn [fst snd].
  - split; [reflexivity|]. split; [|lia]. intros _.
    assert (Hlen : length (take 100 (sort byLastExtractedDesc urls)) = 100%nat).
    { rewrite length_take, (Permutation_length (sort_perm _ urls)). lia. }
    rewrite Hlen. split; [reflexivity|]. split; [reflexivity | lia].
  - split; [reflexivity|]. split; [lia|]. reflexivity.
Qed.

End OptionsExtras.
(** * The properties on the sample inputs *)

Lemma distinctb_NoDup (l : list jsstring) : distinctb l = true -> NoDup l.
Proof.
  induction l as [|x l IH]; simpl; intros E; constructor.
  - apply andb_true_iff in E as [E _]. intros Hin.
    apply negb_true_iff in E.
    assert (existsb (str_eqb x) l = true); [|congruence].
    apply existsb_exists. exists x. split;
      [apply list_elem_of_In, Hin | apply str_eqb_refl].
  - apply IH. apply andb_true_iff in E. apply E.
Qed.

Lemma sample_lower : @lower_on_ascii sampleRuntime.
Proof. intros s _. reflexivity. Defined.

(** C4 on 101 sample URLs. *)
Lemma history_bounded_most_recent_witness :
  length sample_reqs = 101%nat /\
  NoDup (map fst sample_reqs) /\
  length (record_all [] sample_reqs) = 100%nat /\
  exists evicted,
    evicted :: record_all [] sample_reqs ≡ₚ map fresh sample_reqs /\
    Forall (fun kept => lastExtracted evicted <= lastExtracted kept)
           (record_all [] sample_reqs).
Proof.
  assert (Hlen : length sample_reqs = 101%nat) by reflexivity.
  assert (Hnd : NoDup (map fst sample_reqs))
    by (apply distinctb_NoDup; vm_compute; reflexivity).
  destruct (history_bounded_most_recent sample_reqs Hlen Hnd)
    as (_ & _ & Hhundred & Hevicted & _).
  split; [exact Hlen|]. split; [exact Hnd|]. split; [exact Hhundred|].
  exact Hevicted.
Defined.

(** There the URL recorded first is the one dropped. *)
Example sample_reqs_drop_the_first :
  record_all [] sample_reqs = rev (map fresh (drop 1 sample_reqs)).
Proof. vm_compute. reflexivity. Qed.

(** C10 on the history at capacity: the entry of page 7 is rewritten. *)
Lemma record_existing_changes_one_entry_witness :
  isUrlExtracted full_history (sample_url 7) = true /\
  (length full_history <= 100)%nat /\
  exists i e,
    full_history !! i = Some e /\ url e = sample_url 7 /\
    addExtractedUrl full_history (sample_url 7) 9000
    = <[i := mkEntry (url e) (firstExtracted e) 9000
                     ((if count e =? 0 then 1 else count e) + 1)]>
        full_history /\
    (forall j, j <> i ->
       addExtractedUrl full_history (sample_url 7) 9000 !! j
       = full_history !! j) /\
    length (addExtractedUrl full_history (sample_url 7) 9000)
    = length full_history.
Proof.
  assert (Hin : isUrlExtracted full_history (sample_url 7) = true)
    by (vm_compute; reflexivity).
  assert (Hlen : (length full_history <= 100)%nat) by (simpl; lia).
  split; [exact Hin|]. split; [exact Hlen|].
  exact (record_existing_changes_one_entry full_history (sample_url 7) 9000
           Hin Hlen).
Defined.

(** C5 as stated fails on the history at capacity when the clock reads
    an instant older than every stored one: the new URL is pushed, sorted
    last and cut off, so after the call it has no entry, and a second call
    (here with the clock set right) stores count 1, not 2. *)
Lemma record_at_capacity_drops_new_url :
  length full_history = 100%nat /\
  isUrlExtracted full_history new_url = false /\
  entries_for new_url (addExtractedUrl full_history new_url 1000) = [] /\
  entries_for new_url
    (addExtractedUrl (addExtractedUrl full_history new_url 1000) new_url 1000)
  = [] /\
  entries_for new_url
    (addExtractedUrl (addExtractedUrl full_history new_url 1000) new_url 9000)
  = [mkEntry new_url 9000 9000 1].
Proof. repeat split; vm_compute; reflexivity. Qed.

(** C5 (amended) on the history at capacity with a clock ahead of it. *)
Lemma record_twice_upserts_witness :
  isUrlExtracted full_history new_url = false /\
  (length (List.filter (as_recent_as 9000) full_history) < 100)%nat /\
  entries_for new_url (addExtractedUrl full_history new_url 9000)
  = [mkEntry new_url 9000 9000 1] /\
  entries_for new_url
    (addExtractedUrl (addExtractedUrl full_history new_url 9000) new_url 9500)
  = [mkEntry new_url 9000 9500 2].
Proof.
  assert (Habs : isUrlExtracted full_history new_url = false)
    by (vm_compute; reflexivity).
  assert (Hfew : (length (List.filter (as_recent_as 9000) full_history)
                  < 100)%nat) by (vm_compute; lia).
  destruct (record_twice_upserts full_history new_url 9000 9500 Habs Hfew)
    as (H1 & H2 & _).
  split; [exact Habs|]. split; [exact Hfew|]. split; [exact H1 | exact H2].
Defined.

(** C2 on the network that always answers 503. *)
Lemma backoff_all_503_witness :
  (forall n, (n < 8)%nat ->
     net (env_of (Responded overloaded_response)) n
     = Responded overloaded_response /\
     status overloaded_response = 503) /\
  (forall n, (0 <= random (env_of (Responded overloaded_response)) n)%Q /\
             (random (env_of (Responded overloaded_response)) n < 1)%Q) /\
  generateContentWithBackoff (env_of (Responded overloaded_response))
    defaultModel (lit "key") [PText (lit "prompt")] (initial [])
  = (Ok (Some overloaded_response),
     mkWorld (overloaded_trace (env_of (Responded overloaded_response))
                defaultModel (lit "key") [PText (lit "prompt")]) 8 7 []) /\
  length (List.filter is_fetch
            (overloaded_trace (env_of (Responded overloaded_response))
               defaultModel (lit "key") [PText (lit "prompt")])) = 8%nat.
Proof.
  assert (Hnet : forall n, (n < 8)%nat ->
            net (env_of (Responded overloaded_response)) n
            = Responded overloaded_response /\
            status overloaded_response = 503)
    by (intros; split; reflexivity).
  assert (Hrnd : forall n,
            (0 <= random (env_of (Responded overloaded_response)) n)%Q /\
            (random (env_of (Responded overloaded_response)) n < 1)%Q)
    by (intros; split; [discriminate | reflexivity]).
  destruct (backoff_all_503_stops_after_8
              (env_of (Responded overloaded_response))
              (fun _ => overloaded_response) defaultModel (lit "key")
              [PText (lit "prompt")] [] Hnet Hrnd) as (Hrun & Hcount & _).
  split; [exact Hnet|]. split; [exact Hrnd|]. split; [exact Hrun | exact Hcount].
Defined.

(** The waits of that run, in seconds: 2.5, 4.5, 8.5, ..., 128.5. *)
Example overloaded_delays :
  map (delay_seconds (env_of (Responded overloaded_response))) (seq 0 7)
  = [(5 # 2); (9 # 2); (17 # 2); (33 # 2); (65 # 2); (129 # 2); (257 # 2)]%Q.
Proof. vm_compute. reflexivity. Qed.

(** C1.  The code breaks the claim: without an API key, and with a key
    against a service that answers 503 to all 8 attempts, the enrichment
    call throws and the background run ends with the notification and the
    message of failure, no download triggered and nothing recorded,
    although the front matter without enrichment can be written for the
    page; [improveWithGeminiIfEnabled] of the popup, at the same inputs,
    returns that front matter followed by the pre-enrichment Markdown. *)
Theorem enrichment_failure_triggers_no_download :
  (let run := @processAndDownloadWithGemini sampleRuntime
                (env_of (Responded overloaded_response))
                (sample_request (lit "# Notes") []) (initial []) in
   fst run = Throw (JsError (lit "Gemini API key not configured")) /\
   downloaded (snd run) = [] /\
   extractedUrls (snd run) = [] /\
   events (snd run)
   = [ENotify (lit "Extraction Failed")
        (lit "Error: Gemini API key not configured");
      ESendMessage false (lit "Gemini API key not configured")]) /\
  (let run := @processAndDownloadWithGemini sampleRuntime
                (env_of (Responded overloaded_response))
                (sample_request (lit "# Notes") (lit "key")) (initial []) in
   fst run = Throw (JsError (lit "Gemini API error: 503 - overloaded")) /\
   downloaded (snd run) = [] /\
   extractedUrls (snd run) = [] /\
   length (List.filter is_fetch (events (snd run))) = 8%nat) /\
  (exists metadata,
     @createMetadata sampleRuntime
       (nowISO (env_of (Responded overloaded_response))) sample_page
       (lit "https://x.test/a") (lit "testing") None = Ok metadata /\
     fst (@improveWithGeminiIfEnabled sampleRuntime
            (env_of (Responded overloaded_response))
            (mkSettings true (lit "key") []) sample_page
            (lit "https://x.test/a") (lit "testing") (lit "# Notes") []
            (initial []))
     = Ok (metadata ++ lit "# Notes")).
Proof.
  split; [|split].
  - cbv zeta. repeat split; vm_compute; reflexivity.
  - cbv zeta. repeat split; vm_compute; reflexivity.
  - eexists. split; vm_compute; reflexivity.
Qed.

(** C3.  The code breaks the claim on an answer that ends with the header
    of the Content section, so that its Content body is empty: the
    metadata are parsed, but the pattern of the content asks for a line
    feed after the header and does not match, the content of the result
    is then the whole answer, which is not blank, and the run delivers
    the front matter followed by the answer, not by the pre-enrichment
    Markdown. *)
Theorem empty_content_section_delivers_raw_answer :
  let request := sample_request (lit "# Notes") (lit "key") in
  let env := env_of (Responded cut_response) in
  let enriched := @parseGeminiText sampleRuntime cut_text in
  let run := @processAndDownloadWithGemini sampleRuntime env request
               (initial []) in
  cut_text
  = lit "## Metadata" ++ [LF] ++ lit "Tags: [api]" ++ [LF; LF]
      ++ lit "## Content" /\
  regex_match re_metadata cut_text = Some (lit "Tags: [api]") /\
  regex_match re_content cut_text = None /\
  tags enriched = [lit "api"] /\
  content enriched = cut_text /\
  fst (@improveMarkdownWithGemini sampleRuntime env (req_markdown request)
         (req_apiKey request) (images (req_pageContent request))
         (req_model request) (initial []))
  = Ok (mkReply (Some enriched)) /\
  exists metadata,
    @createMetadata sampleRuntime (nowISO env) (req_pageContent request)
      (req_url request) (req_category request) (Some enriched) = Ok metadata /\
    fst run = Ok tt /\
    downloaded (snd run) = [metadata ++ cut_text] /\
    downloaded (snd run) <> [metadata ++ lit "# Notes"].
Proof.
  cbv zeta. do 6 (split; [vm_compute; reflexivity|]).
  eexists. split; [vm_compute; reflexivity|].
  split; [vm_compute; reflexivity|]. split; [vm_compute; reflexivity|].
  vm_compute. discriminate.
Qed.

(** On an answer whose Content section is a line of spaces the fallback
    is taken. *)
Example blank_content_section_delivers_markdown :
  let request := sample_request (lit "# Notes") (lit "key") in
  let run := @processAndDownloadWithGemini sampleRuntime
               (env_of (Responded blank_response)) request (initial []) in
  content (@parseGeminiText sampleRuntime blank_text) = [] /\
  fst run = Ok tt /\
  map (fun body => drop (length body - 7) body) (downloaded (snd run))
  = [lit "# Notes"].
Proof. cbv zeta. repeat split; vm_compute; reflexivity. Qed.

(** C6 on the ASCII runtime. *)
Lemma detectCategory_first_match_witness :
  @lower_on_ascii sampleRuntime /\
  map fst patterns = declared_order /\
  (forall title_ url_,
      @detectCategory sampleRuntime title_ url_
      = classify (map ascii_lower title_) (map ascii_lower url_)) /\
  @detectCategory sampleRuntime
    (lit "Building Microservice Architecture with Docker")
    (lit "https://x.test/a") = lit "architecture".
Proof.
  destruct (@detectCategory_first_match sampleRuntime sample_lower)
    as (Horder & Hgen & Hexample & _).
  split; [exact sample_lower|]. split; [exact Horder|].
  split; [exact Hgen | exact Hexample].
Defined.



(** C8 on the sample page: the title, which holds a colon, is written
    between double quotes. *)
Lemma createMetadata_quotes_title_author_items_witness :
  exists metadata,
    @createMetadata sampleRuntime (lit "2026-01-10T09:00:00.000Z") sample_page
      (lit "https://x.test/a") (lit "testing") None = Ok metadata /\
    metadata
    = front_matter sample_page
        (front_matter_entries sample_page (lit "https://x.test/a")
           (lit "unknown") (lit "2026-01-10T09:00:00.000Z") (lit "x.test")
           (lit "testing") None) /\
    split_on LF metadata !! 2%nat
    = Some (lit "title: " ++ [DQUOTE] ++ lit "Notes: a draft" ++ [DQUOTE]).
Proof.
  eexists. split; [reflexivity|].
  destruct (@createMetadata_quotes_title_author_items sampleRuntime
              (lit "2026-01-10T09:00:00.000Z") sample_page
              (lit "https://x.test/a") (lit "testing") None _ eq_refl)
    as ((datePublished & hostname & Hhost & Hdate & Hmeta) & _).
  split; [|vm_compute; reflexivity].
  injection Hhost as <-.
  destruct Hdate as [->|(p & Hp & _)]; [|discriminate Hp].
  rewrite Hmeta. vm_compute. reflexivity.
Defined.

(** The claim C8 at the source of the sample page: the URL holds a colon,
    so the claim has it between double quotes, and the front matter has it
    as it is. *)
Lemma source_is_written_unquoted :
  asks_for_quotes (lit "https://x.test/a") = true /\
  exists metadata,
    @createMetadata sampleRuntime (lit "2026-01-10T09:00:00.000Z") sample_page
      (lit "https://x.test/a") (lit "testing") None = Ok metadata /\
    split_on LF metadata !! 3%nat = Some (lit "source: https://x.test/a") /\
    split_on LF metadata !! 3%nat
    <> Some (lit "source: " ++ double_quoted (lit "https://x.test/a")).
Proof.
  split; [reflexivity|]. eexists. split; [reflexivity|].
  split; [vm_compute; reflexivity | vm_compute; discriminate].
Defined.

(** C9 on the ASCII runtime. *)
Lemma fallback_parser_first_match_witness :
  @lower_on_ascii sampleRuntime /\
  regex_match re_metadata (lit "Tags: api, security") = None /\
  tags (@parseGeminiText sampleRuntime (lit "Tags: api, security"))
  = [lit "api"; lit "security"].
Proof.
  destruct (@fallback_parser_first_match sampleRuntime sample_lower)
    as (_ & (Hno & Htags & _) & _).
  split; [exact sample_lower|]. split; [exact Hno | exact Htags].
Defined.

(** The title of the YAML example of the spec, with a colon and a quote,
    and a plain title. *)
Example escapeYaml_examples :
  escapeYaml (lit "Rust: the " ++ [DQUOTE] ++ lit "book" ++ [DQUOTE])
  = [DQUOTE] ++ lit "Rust: the " ++ [BACKSLASH; DQUOTE] ++ lit "book"
      ++ [BACKSLASH; DQUOTE] ++ [DQUOTE] /\
  escapeYaml (lit "Plain title") = lit "Plain title".
Proof. split; vm_compute; reflexivity. Qed.

(** X1 on the history of two entries. *)
Lemma addExtractedUrl_keeps_unique_urls_witness :
  NoDup (map url short_history) /\
  Forall (fun e => 1 <= count e) short_history /\
  NoDup (map url (addExtractedUrl short_history (sample_url 2) 40)) /\
  Forall (fun e => 1 <= count e)
         (addExtractedUrl short_history (sample_url 2) 40).
Proof.
  assert (Hnd : NoDup (map url short_history))
    by (apply distinctb_NoDup; vm_compute; reflexivity).
  assert (Hc : Forall (fun e => 1 <= count e) short_history)
    by (repeat constructor; simpl; lia).
  split; [exact Hnd|]. split; [exact Hc|].
  exact (addExtractedUrl_keeps_unique_urls short_history (sample_url 2) 40
           Hnd Hc).
Defined.

(** X2 on the history of two entries. *)
Lemma isUrlExtracted_after_record_witness :
  (length short_history < 100)%nat /\
  isUrlExtracted (addExtractedUrl short_history new_url 40) (sample_url 1)
  = str_eqb new_url (sample_url 1) || isUrlExtracted short_history (sample_url 1).
Proof.
  assert (Hlen : (length short_history < 100)%nat) by (simpl; lia).
  split; [exact Hlen|].
  exact (proj2 (isUrlExtracted_after_record short_history new_url
                  (sample_url 1) 40 Hlen)).
Defined.

(** X3 on the history at capacity, trimmed to 50 after 100. *)
Lemma keepLastNUrls_laws_witness :
  (50 <= 100)%nat /\
  length (keepLastNUrls 100 full_history)
  = Nat.min 100 (length full_history) /\
  keepLastNUrls 50 (keepLastNUrls 100 full_history)
  = keepLastNUrls 50 full_history.
Proof.
  assert (Hmn : (50 <= 100)%nat) by lia.
  destruct (keepLastNUrls_laws 100 50 full_history Hmn)
    as (Hlen & _ & Htwice & _).
  split; [exact Hmn|]. split; [exact Hlen | exact Htwice].
Defined.

(** X4 on a network that is offline twice and then denies the request. *)
Lemma backoff_returns_first_final_answer_witness :
  (2 < 8)%nat /\
  (forall n, (n < 2)%nat ->
     retryable (net (env_after 2 offline (Responded denied_response)) n)
     = true) /\
  net (env_after 2 offline (Responded denied_response)) 2
  = Responded denied_response /\
  retryable (Responded denied_response) = false /\
  generateContentWithBackoff
    (env_after 2 offline (Responded denied_response)) defaultModel
    (lit "key") [PText (lit "prompt")] (initial [])
  = (Ok (Some denied_response),
     mkWorld (retry_trace (env_after 2 offline (Responded denied_response))
                defaultModel (lit "key") [PText (lit "prompt")] 2
                ++ [EFetch defaultModel (lit "key") [PText (lit "prompt")]])
       3 2 []).
Proof.
  assert (Hk : (2 < 8)%nat) by lia.
  assert (Hretry : forall n, (n < 2)%nat ->
            retryable (net (env_after 2 offline (Responded denied_response)) n)
            = true).
  { intros n Hn. destruct n as [|[|n]]; [reflexivity | reflexivity | lia]. }
  assert (Hnet : net (env_after 2 offline (Responded denied_response)) 2
                 = Responded denied_response) by reflexivity.
  assert (Hfinal : retryable (Responded denied_response) = false)
    by reflexivity.
  split; [exact Hk|]. split; [exact Hretry|]. split; [exact Hnet|].
  split; [exact Hfinal|].
  exact (backoff_returns_first_final_answer
           (env_after 2 offline (Responded denied_response)) defaultModel
           (lit "key") [PText (lit "prompt")] [] 2 denied_response
           Hk Hretry Hnet Hfinal).
Defined.

(** X5 on a network that stays offline. *)
Lemma backoff_exhausted_ends_on_eighth_witness :
  (forall n, (n < 8)%nat -> retryable (net (env_of offline) n) = true) /\
  generateContentWithBackoff (env_of offline) defaultModel (lit "key")
    [PText (lit "prompt")] (initial [])
  = (Throw (JsError (lit "Failed to fetch")),
     mkWorld (retry_trace (env_of offline) defaultModel (lit "key")
                [PText (lit "prompt")] 7
                ++ [EFetch defaultModel (lit "key") [PText (lit "prompt")]])
       8 7 []).
Proof.
  assert (Hretry : forall n, (n < 8)%nat ->
            retryable (net (env_of offline) n) = true)
    by (intros; reflexivity).
  split; [exact Hretry|].
  exact (backoff_exhausted_ends_on_eighth (env_of offline) defaultModel
           (lit "key") [PText (lit "prompt")] [] Hretry).
Defined.

(** X6 on a network that is offline twice and then denies the request. *)
Lemma improve_decided_by_final_answer_witness :
  truthy (lit "key") = true /\
  (2 < 8)%nat /\
  (forall n, (n < 2)%nat ->
     retryable (net (env_after 2 offline (Responded denied_response)) n)
     = true) /\
  net (env_after 2 offline (Responded denied_response)) 2
  = Responded denied_response /\
  retryable (Responded denied_response) = false /\
  fst (@improveMarkdownWithGemini sampleRuntime
         (env_after 2 offline (Responded denied_response)) (lit "# Notes")
         (lit "key") [] None (initial []))
  = Throw (JsError (lit "Gemini API error: 403 - denied")).
Proof.
  assert (Hkey : truthy (lit "key") = true) by reflexivity.
  assert (Hk : (2 < 8)%nat) by lia.
  assert (Hretry : forall n, (n < 2)%nat ->
            retryable (net (env_after 2 offline (Responded denied_response)) n)
            = true).
  { intros n Hn. destruct n as [|[|n]]; [reflexivity | reflexivity | lia]. }
  assert (Hnet : net (env_after 2 offline (Responded denied_response)) 2
                 = Responded denied_response) by reflexivity.
  assert (Hfinal : retryable (Responded denied_response) = false)
    by reflexivity.
  split; [exact Hkey|]. split; [exact Hk|]. split; [exact Hretry|].
  split; [exact Hnet|]. split; [exact Hfinal|].
  exact (proj1 (@improve_decided_by_final_answer sampleRuntime
                  (env_after 2 offline (Responded denied_response))
                  (lit "# Notes") (lit "key") [] None [] 2 denied_response
                  Hkey Hk Hretry Hnet Hfinal)).
Defined.

(** X7 on a network that stays offline. *)
Lemma improve_exhausted_throws_witness :
  truthy (lit "key") = true /\
  (forall n, (n < 8)%nat -> retryable (net (env_of offline) n) = true) /\
  fst (@improveMarkdownWithGemini sampleRuntime (env_of offline)
         (lit "# Notes") (lit "key") [] None (initial []))
  = Throw (JsError (lit "Failed to fetch")) /\
  fetched (snd (@improveMarkdownWithGemini sampleRuntime (env_of offline)
                  (lit "# Notes") (lit "key") [] None (initial [])))
  = 8%nat.
Proof.
  assert (Hkey : truthy (lit "key") = true) by reflexivity.
  assert (Hretry : forall n, (n < 8)%nat ->
            retryable (net (env_of offline) n) = true)
    by (intros; reflexivity).
  split; [exact Hkey|]. split; [exact Hretry|].
  exact (@improve_exhausted_throws sampleRuntime (env_of offline)
           (lit "# Notes") (lit "key") [] None [] Hkey Hretry).
Defined.

(** X10 on the ASCII runtime and an answer in the expected format. *)
Lemma parsed_difficulty_is_a_level_witness :
  @lower_on_ascii sampleRuntime /\
  In (difficultyLevel (@parseGeminiText sampleRuntime full_text))
     difficulty_levels /\
  trimmed (summary (@parseGeminiText sampleRuntime full_text)).
Proof.
  split; [exact sample_lower|].
  exact (@parsed_difficulty_is_a_level sampleRuntime full_text sample_lower).
Defined.

(** There the level is written in lower case, the summary is trimmed
    and the item none is left out. *)
Example full_text_parsed :
  difficultyLevel (@parseGeminiText sampleRuntime full_text) = lit "advanced" /\
  summary (@parseGeminiText sampleRuntime full_text) = lit "Two lines." /\
  technologies (@parseGeminiText sampleRuntime full_text)
  = [lit "Rocq"; lit "OCaml"] /\
  content (@parseGeminiText sampleRuntime full_text) = lit "Body".
Proof. repeat split; vm_compute; reflexivity. Qed.

(** X14 on the page dated in free text, with a network that answers in
    the expected format. *)
Lemma unparseable_date_aborts_delivery_witness :
  publicationDate (req_pageContent undated_request) = Some (lit "last spring") /\
  truthy (lit "last spring") = true /\
  @dateISO datelessRuntime (lit "last spring")
  = Throw (JsError (lit "Invalid time value")) /\
  exists e' w',
    @processAndDownloadWithGemini datelessRuntime
      (env_of (Responded full_response)) undated_request (initial [])
    = (Throw e', w') /\
    downloaded w' = downloaded (initial []) /\
    extractedUrls w' = extractedUrls (initial []).
Proof.
  assert (Hp : publicationDate (req_pageContent undated_request)
               = Some (lit "last spring")) by reflexivity.
  assert (Ht : truthy (lit "last spring") = true) by reflexivity.
  assert (He : @dateISO datelessRuntime (lit "last spring")
               = Throw (JsError (lit "Invalid time value"))) by reflexivity.
  split; [exact Hp|]. split; [exact Ht|]. split; [exact He|].
  destruct (@unparseable_date_aborts_delivery datelessRuntime
              (env_of (Responded full_response)) undated_request (initial [])
              _ _ Hp Ht He) as (e' & w' & Hrun & Hd & Hu & _).
  exists e', w'. split; [exact Hrun|]. split; [exact Hd | exact Hu].
Defined.

(** There the enrichment succeeds and the file name takes the current
    date, but the run fails with the error of the date. *)
Example undated_page_is_named_but_not_delivered :
  @generateFilename datelessRuntime (2026, 0, 10) undated_page
    (lit "https://x.test/a")
  = lit "2026-01-10_testing_notes__a_draft.md" /\
  fst (@processAndDownloadWithGemini datelessRuntime
         (env_of (Responded full_response)) undated_request (initial []))
  = Throw (JsError (lit "Invalid time value")).
Proof. split; vm_compute; reflexivity. Qed.

(** X11 on two lists of two items. *)
Lemma front_matter_values_are_faithful_witness :
  Forall plain_item [lit "c#"; lit "a: b"] /\
  Forall plain_item [lit "c#"; lit "a b"] /\
  (formatYamlArray [lit "c#"; lit "a: b"] = formatYamlArray [lit "c#"; lit "a b"]
   -> [lit "c#"; lit "a: b"] = [lit "c#"; lit "a b"]).
Proof.
  assert (Hx : Forall plain_item [lit "c#"; lit "a: b"]).
  { repeat constructor; try discriminate; simpl; intuition discriminate. }
  assert (Hy : Forall plain_item [lit "c#"; lit "a b"]).
  { repeat constructor; try discriminate; simpl; intuition discriminate. }
  split; [exact Hx|]. split; [exact Hy|].
  exact (proj2 (front_matter_values_are_faithful _ _ Hx Hy)).
Defined.

(** Items with a comma are beyond it: these two lists are written as the
    same array. *)
Example formatYamlArray_joins_on_commas :
  formatYamlArray [lit "a, b"] = formatYamlArray [lit "a"; lit "b"].
Proof. vm_compute. reflexivity. Qed.

(** X8 on the network that always answers 503. *)
Lemma improve_request_budget_witness :
  truthy (lit "key") = true /\
  (fetched (initial [])
   < fetched (snd (@improveMarkdownWithGemini sampleRuntime
                     (env_of (Responded overloaded_response)) (lit "# Notes")
                     (lit "key") [] None (initial [])))
   <= fetched (initial []) + 8)%nat.
Proof.
  assert (Hkey : truthy (lit "key") = true) by reflexivity.
  split; [exact Hkey|].
  exact (proj1 (@improve_request_budget sampleRuntime
                  (env_of (Responded overloaded_response)) (lit "# Notes")
                  (lit "key") [] None (initial []) Hkey)).
Defined.

(** X12 on the ASCII runtime and a title with a path in it. *)
Lemma generateFilename_is_safe_witness :
  @lower_on_ascii sampleRuntime /\
  forallb in_safe_class
    (@generateFilename sampleRuntime (2026, 0, 10)
       (mkPage (lit "../../etc/passwd: A Tale") (lit "<p>x</p>") []
          (lit "Unknown") None)
       (lit "https://x.test/a")) = true.
Proof.
  split; [exact sample_lower|].
  exact (proj1 (@generateFilename_is_safe sampleRuntime (2026, 0, 10)
                  (mkPage (lit "../../etc/passwd: A Tale") (lit "<p>x</p>") []
                     (lit "Unknown") None)
                  (lit "https://x.test/a") sample_lower)).
Defined.

(** X20 on the sample click with the enrichment switched off. *)
Lemma click_hands_off_or_delivers_witness :
  caught (@extractClick sampleRuntime sample_turndown (sample_click false) [])
  = Ok tt /\
  exists tab url_ page,
    click_tab (sample_click false) = Some tab /\ tab_url tab = Some url_ /\
    click_script (sample_click false) = Ok (Some page) /\
    truthy (html page) = true.
Proof.
  assert (Hc : caught (@extractClick sampleRuntime sample_turndown
                         (sample_click false) []) = Ok tt)
    by (vm_compute; reflexivity).
  split; [exact Hc|].
  destruct (@click_hands_off_or_delivers sampleRuntime sample_turndown
              (sample_click false) [] Hc)
    as (tab & u & page & Ht & Hu & Hs & Hh & _).
  exists tab, u, page. auto.
Defined.

(** What the two sample clicks do. *)
Example sample_clicks :
  popup_events (@extractClick sampleRuntime sample_turndown
                  (sample_click true) [])
  = [PExecuteScript (VNumber 7);
     PSendMessage (sample_request (lit "# Notes") (lit "key"))] /\
  map (fun e => match e with
                | PDownload _ filename _ => filename
                | _ => []
                end)
      (popup_events (@extractClick sampleRuntime sample_turndown
                       (sample_click false) []))
  = [[]; lit "2026-01-10_testing_notes__a_draft.md"; []] /\
  history (@extractClick sampleRuntime sample_turndown (sample_click false) [])
  = [mkEntry (lit "https://x.test/a") 1768035600000 1768035600000 1].
Proof. repeat split; vm_compute; reflexivity. Qed.

(** X22 on a list of one model. *)
Lemma custom_models_stay_well_kept_witness :
  well_kept [lit "gemini-exp"] /\
  well_kept (fst (addCustomModel (lit "  gemini-3 ") [lit "gemini-exp"])) /\
  well_kept (removeCustomModel (lit "gemini-exp") [lit "gemini-exp"]).
Proof.
  assert (Hw : well_kept [lit "gemini-exp"]).
  { split; [apply NoDup_singleton|]. constructor; [|constructor].
    split; [reflexivity|]. split; [reflexivity|].
    intros [E|[E|[E|[]]]]; discriminate E. }
  destruct (custom_models_stay_well_kept (lit "  gemini-3 ")
              (lit "gemini-exp") [lit "gemini-exp"] Hw) as (Ha & Hr & _).
  split; [exact Hw|]. split; [exact Ha | exact Hr].
Defined.

(** There the input is stored trimmed, and a built-in name is refused. *)
Example addCustomModel_examples :
  fst (addCustomModel (lit "  gemini-3 ") [lit "gemini-exp"])
  = [lit "gemini-exp"; lit "gemini-3"] /\
  addCustomModel (lit "gemini-2.5-flash") [lit "gemini-exp"]
  = ([lit "gemini-exp"], (lit "This model already exists", StError)).
Proof. split; vm_compute; reflexivity. Qed.

(** X21 on the sample click with the enrichment switched on and a
    network that answers in the expected format. *)
Lemma handed_off_run_keeps_the_click_witness :
  In (PSendMessage (sample_request (lit "# Notes") (lit "key")))
     (popup_events (@extractClick sampleRuntime sample_turndown
                      (sample_click true) [])) /\
  (fetched (initial [])
   < fetched (snd (@processAndDownloadWithGemini sampleRuntime
                     (env_of (Responded full_response))
                     (sample_request (lit "# Notes") (lit "key"))
                     (initial [])))
   <= fetched (initial []) + 8)%nat.
Proof.
  assert (Hin : In (PSendMessage (sample_request (lit "# Notes") (lit "key")))
                   (popup_events (@extractClick sampleRuntime sample_turndown
                                    (sample_click true) [])))
    by (right; left; vm_compute; reflexivity).
  split; [exact Hin|].
  destruct (@handed_off_run_keeps_the_click sampleRuntime sample_turndown
              (env_of (Responded full_response)) (sample_click true) []
              (sample_request (lit "# Notes") (lit "key")) (initial []) Hin)
    as (tab & u & page & _ & _ & _ & Hf & _).
  exact Hf.
Defined.

(** The run of that request delivers the body of the answer. *)
Example handed_off_run_delivers :
  let run := @processAndDownloadWithGemini sampleRuntime
               (env_of (Responded full_response))
               (sample_request (lit "# Notes") (lit "key")) (initial []) in
  fst run = Ok tt /\
  fetched (snd run) = 1%nat /\
  map url (extractedUrls (snd run)) = [lit "https://x.test/a"] /\
  map (fun body => drop (length body - 4) body) (downloaded (snd run))
  = [lit "Body"].
Proof. cbv zeta. repeat split; vm_compute; reflexivity. Qed.

(** X24 on the sample page with the enrichment switched on and a network
    that stays offline. *)
Lemma improveWithGeminiIfEnabled_degrades_witness :
  exists metadata,
    @createMetadata sampleRuntime (nowISO (env_of offline)) sample_page
      (lit "https://x.test/a") (lit "testing") None = Ok metadata /\
    fst (@improveWithGeminiIfEnabled sampleRuntime (env_of offline)
           (mkSettings true (lit "key") []) sample_page
           (lit "https://x.test/a") (lit "testing") (lit "# Notes") []
           (initial []))
    = Ok (metadata ++ lit "# Notes").
Proof.
  destruct (@createMetadata sampleRuntime (nowISO (env_of offline))
              sample_page (lit "https://x.test/a") (lit "testing") None)
    as [metadata|e] eqn:Hm; [|vm_compute in Hm; discriminate Hm].
  exists metadata. split; [reflexivity|].
  destruct (@improveWithGeminiIfEnabled_degrades sampleRuntime
              (env_of offline) (mkSettings true (lit "key") []) sample_page
              (lit "https://x.test/a") (lit "testing") (lit "# Notes") []
              (initial []) metadata Hm) as (text & Hrun & _ & Hcase).
  vm_compute in Hcase. rewrite Hrun, Hcase. reflexivity.
Defined.
